(** * Predator-prey grid environment (src/main.py, class PredatorPreyEnv)

    A shallow embedding of the simulation core of [PredatorPreyEnv]:
    [reset], [agents_move], [hunting], [predator_hunger],
    [generate_new_agents] and [step], and the properties of it that the
    specification states; then of [get_observation], [render] and the
    [batchify] helper of the training scripts, with further properties of
    the code.

    Modelling conventions.
    - Python ints are [Z]; [%] on a positive modulus is [Z.modulo].  The
      modulus of [agents_move] and [hunting] is a grid dimension, which is
      positive in every state that has an agent.
    - Python floats are the kernel's binary64 floats ([PrimFloat.float]),
      so [math.ceil (n * p)] is evaluated exactly as CPython does.
    - [Agent] objects live in an object store [objs] indexed by an object
      identity (a [nat] handle); [next_obj] is the identity of the next
      object to be constructed.  [self.agents] is a list of handles and a
      grid cell holds [0], [-1] or a handle, so that the aliasing between
      the registry and the grid is explicit.  [Agent] has the default
      equality of Python objects (identity), which [== 0] and
      [list.remove] use.
    - The numpy grid is a finite map from coordinates to cells, a missing
      key being the integer [0].  Every index the code uses is produced by
      [random.randint (0, n-1)] or by [% n]; the statements about arbitrary
      states assume [well_formed]: positive dimensions and positions on the
      grid.
    - [random.randint] reads the next draw of a tape of naturals,
      [randint (0, n-1)] being the draw modulo [n] for a positive [n] and
      a [ValueError] otherwise; a [while True] rejection loop that uses up
      the tape has not returned yet ([OutOfDraws]).
    - A raised Python exception is [Raise]: the [KeyError] of a dict
      lookup, the [ValueError] of [random.randint] on an empty range and
      of [np.zeros] on a negative dimension, the [ZeroDivisionError] of
      [%] in [get_observation], the [OverflowError] of [math.ceil].
    - [reset] and [step] end with the pass over the registry that builds
      the observations; [reset_obs] and [step_obs] return them, [reset]
      and [step] are the same calls without the returned dict. *)

From Stdlib Require Import ZArith Floats Lia Ascii.
From stdpp Require Import gmap strings list functions pretty sorting.

Set Warnings "-inexact-float,-clear-no-such-hyp,-abstract-large-number".
Open Scope Z_scope.

(** ** Data model *)

(** The two role strings the code ever builds, ['predator'] and ['prey'].
    The tests ["predator" in a.role], ["prey" in a.role] and
    [a.role == 'prey'] are membership tests on this enumeration (["prey"] is
    not a substring of ["predator"]). *)
Inductive Role := predator | prey.

#[global] Instance Role_eq_dec : EqDecision Role.
Proof. solve_decision. Defined.

Definition pos : Type := Z * Z.

(** Modelled from the spec: the [Agent] class (agent.py) is not among the
    sources.  An agent has an id, a role, a position and a float health;
    [get_position]/[set_position] read and write the position and
    [add_health d] adds [d] to the health. *)
Record Agent := mkAgent {
  id : string;
  role : Role;
  position : pos;
  health : float
}.

Definition set_position (a : Agent) (p : pos) : Agent :=
  mkAgent (id a) (role a) p (health a).

Definition add_health (a : Agent) (d : float) : Agent :=
  mkAgent (id a) (role a) (position a) (PrimFloat.add (health a) d).

(** A grid cell: the integer [0], the integer [-1] (a wall), or a reference
    to an [Agent] object. *)
Inductive Cell := Empty | Wall | Ref (h : nat).

#[global] Instance Cell_eq_dec : EqDecision Cell.
Proof. solve_decision. Defined.

(** [self.grid[x, y] == 0] *)
Definition is_zero (c : Cell) : bool :=
  match c with Empty => true | _ => false end.

Record Env := mkEnv {
  grid_size : Z * Z;
  num_predators : nat;
  num_prey : nat;
  num_walls : nat;
  predator_scope : Z;
  health_gained : float;
  max_num_predators : Z;
  max_num_preys : Z;
  agents : list nat;
  walls_positions : list pos;
  grid : gmap pos Cell;
  objs : nat -> Agent;
  next_obj : nat
}.

Definition with_agents (s : Env) (l : list nat) : Env :=
  mkEnv (grid_size s) (num_predators s) (num_prey s) (num_walls s)
        (predator_scope s) (health_gained s) (max_num_predators s)
        (max_num_preys s) l (walls_positions s) (grid s) (objs s) (next_obj s).

Definition with_walls (s : Env) (w : list pos) : Env :=
  mkEnv (grid_size s) (num_predators s) (num_prey s) (num_walls s)
        (predator_scope s) (health_gained s) (max_num_predators s)
        (max_num_preys s) (agents s) w (grid s) (objs s) (next_obj s).

Definition with_grid (s : Env) (g : gmap pos Cell) : Env :=
  mkEnv (grid_size s) (num_predators s) (num_prey s) (num_walls s)
        (predator_scope s) (health_gained s) (max_num_predators s)
        (max_num_preys s) (agents s) (walls_positions s) g (objs s) (next_obj s).

Definition with_objs (s : Env) (o : nat -> Agent) : Env :=
  mkEnv (grid_size s) (num_predators s) (num_prey s) (num_walls s)
        (predator_scope s) (health_gained s) (max_num_predators s)
        (max_num_preys s) (agents s) (walls_positions s) (grid s) o (next_obj s).

(** [self.grid[p]] *)
Definition cell_at (g : gmap pos Cell) (p : pos) : Cell := default Empty (g !! p).

(** [self.grid[p] = c] *)
Definition set_cell (g : gmap pos Cell) (p : pos) (c : Cell) : gmap pos Cell :=
  <[p := c]> g.

(** ** Outcomes *)

Inductive exn := KeyError | ValueError | OverflowError | ZeroDivisionError.

Inductive result (A : Type) :=
  | Ok (a : A)
  | Raise (e : exn)
  | OutOfDraws.
Arguments Ok {A} a.
Arguments Raise {A} e.
Arguments OutOfDraws {A}.

#[global] Instance result_bind : MBind result := fun A B f m =>
  match m with
  | Ok a => f a
  | Raise e => Raise e
  | OutOfDraws => OutOfDraws
  end.

(** [d[k]] on a dict: [KeyError] when the key is missing. *)
Definition dict_get {V} (d : gmap string V) (k : string) : result V :=
  match d !! k with
  | Some v => Ok v
  | None => Raise KeyError
  end.

(** [l.remove(x)] for an [x] that occurs in [l]: the first occurrence goes. *)
Fixpoint remove_first (x : nat) (l : list nat) : list nat :=
  match l with
  | [] => []
  | y :: l' => if decide (y = x) then l' else y :: remove_first x l'
  end.

(** [[a for a in self.agents if <role test>]] *)
Definition by_role (s : Env) (r : Role) : list nat :=
  filter (fun h => role (objs s h) = r) (agents s).

(** ** Construction *)

(** The object store before any [Agent] has been created; what it holds at
    a handle that was never allocated is never read. *)
Definition no_objects : nat -> Agent :=
  fun _ => mkAgent "" prey (0, 0) 0%float.

(** [PredatorPreyEnv(grid_size, num_predators, num_prey, num_walls,
    predator_scope, health_gained)] *)
Definition init (gs : Z * Z) (np npy nw : nat) (scope : Z) (hg : float) : Env :=
  mkEnv gs np npy nw scope hg 10000 10000 [] [] ∅ no_objects 0.

(** ** Random placement

    The loop
    [while True: x, y = randint(0, W-1), randint(0, H-1); if grid[x, y] == 0: ...; break]
    which the source repeats in [reset] (three times) and in
    [generate_new_agents] (twice).  It returns the accepted cell and the
    rest of the tape.  [random.randint(0, n - 1)] raises [ValueError] when
    the range is empty, that is when the dimension [n] is not positive,
    whatever the generator would draw. *)

(** The sample for the draws [r1] and [r2] on a grid with positive
    dimensions. *)
Definition sample_pos (gs : Z * Z) (r1 r2 : nat) : pos :=
  (Z.of_nat r1 mod gs.1, Z.of_nat r2 mod gs.2).

Fixpoint sample_empty (g : gmap pos Cell) (gs : Z * Z) (tape : list nat)
    : result (pos * list nat) :=
  if (gs.1 <? 1) || (gs.2 <? 1) then Raise ValueError
  else
    match tape with
    | r1 :: r2 :: tape' =>
        let p := sample_pos gs r1 r2 in
        if is_zero (cell_at g p) then Ok (p, tape')
        else sample_empty g gs tape'
    | _ => OutOfDraws
    end.

(** ** Movement *)

(** Lines 90-102: the candidate destination. *)
Definition candidate (gs : Z * Z) (p : pos) (action : Z) : pos :=
  if action =? 1 then ((p.1 - 1) mod gs.1, p.2)
  else if action =? 2 then ((p.1 + 1) mod gs.1, p.2)
  else if action =? 3 then (p.1, (p.2 - 1) mod gs.2)
  else if action =? 4 then (p.1, (p.2 + 1) mod gs.2)
  else p.

(** Lines 104-107: the destination is taken when its cell is [0]. *)
Definition resolve (g : gmap pos Cell) (gs : Z * Z) (p : pos) (action : Z) : pos :=
  if is_zero (cell_at g (candidate gs p action)) then candidate gs p action else p.

(** Lines 88-107: the first loop fills the dict [new_positions], keyed by
    agent id. *)
Fixpoint plan_moves (s : Env) (actions : gmap string Z) (l : list nat)
    (new_positions : gmap string pos) : result (gmap string pos) :=
  match l with
  | [] => Ok new_positions
  | h :: l' =>
      let a := objs s h in
      action ← dict_get actions (id a);
      plan_moves s actions l'
        (<[id a := resolve (grid s) (grid_size s) (position a) action]> new_positions)
  end.

(** Lines 111-112. *)
Definition place_walls (g : gmap pos Cell) (walls : list pos) : gmap pos Cell :=
  foldl (fun g w => set_cell g w Wall) g walls.

(** Lines 114-117: every agent is written to [new_positions[agent.id]]. *)
Fixpoint write_agents (new_positions : gmap string pos) (l : list nat)
    (g : gmap pos Cell) (o : nat -> Agent) : result (gmap pos Cell * (nat -> Agent)) :=
  match l with
  | [] => Ok (g, o)
  | h :: l' =>
      p ← dict_get new_positions (id (o h));
      write_agents new_positions l' (set_cell g p (Ref h)) (<[h := set_position (o h) p]> o)
  end.

Definition agents_move (s : Env) (actions : gmap string Z) : result Env :=
  new_positions ← plan_moves s actions (agents s) ∅;
  go ← write_agents new_positions (agents s)
             (place_walls ∅ (walls_positions s)) (objs s);
  Ok (with_objs (with_grid s go.1) go.2).

(** ** Hunting *)

(** Python's order on the tuples [(distance, (nx, ny))] that
    [prey_in_scope.sort()] uses: lexicographic. *)
Definition tuple_le (a b : Z * pos) : Prop :=
  a.1 < b.1 ∨ (a.1 = b.1 ∧ (a.2.1 < b.2.1 ∨ (a.2.1 = b.2.1 ∧ a.2.2 <= b.2.2))).

#[global] Instance tuple_le_dec : RelDecision tuple_le.
Proof. intros a b. unfold tuple_le. solve_decision. Defined.

(** [type(c) == Agent and c.role == 'prey'] *)
Definition is_prey_cell (o : nat -> Agent) (c : Cell) : bool :=
  match c with
  | Ref h => bool_decide (role (o h) = prey)
  | _ => false
  end.

(** Lines 126-133, for one offset [(dx, dy)]. *)
Definition scan_cell (s : Env) (p : pos) (dx dy : Z) : list (Z * pos) :=
  if (dx =? 0) && (dy =? 0) then []
  else
    let n := ((p.1 + dx) mod (grid_size s).1, (p.2 + dy) mod (grid_size s).2) in
    if is_prey_cell (objs s) (cell_at (grid s) n)
    then [(Z.abs dx + Z.abs dy, n)] else [].

(** [range(-self.predator_scope, self.predator_scope + 1)] *)
Definition scope_range (s : Env) : list Z :=
  seqZ (- predator_scope s) (2 * predator_scope s + 1).

(** Lines 124-133: the list [prey_in_scope] in the order it is built. *)
Definition prey_in_scope (s : Env) (p : pos) : list (Z * pos) :=
  dx ← scope_range s; dy ← scope_range s; scan_cell s p dx dy.

(** Lines 135-138: [prey_in_scope.sort(); prey_in_scope[0][1]]. *)
Definition target_prey_pos (s : Env) (p : pos) : option pos :=
  snd <$> head (merge_sort tuple_le (prey_in_scope s p)).

Definition hunt_state : Type := Env * gmap string Z * gmap string bool.

(** Lines 139-149: the first registry entry at the target position is
    removed. *)
Definition kill (h : nat) (target : pos) (st : hunt_state) : result hunt_state :=
  let '(s, rewards, dones) := st in
  match list_find (fun v => position (objs s v) = target) (agents s) with
  | None => Ok st
  | Some (_, v) =>
      let s1 := with_grid (with_agents s (remove_first v (agents s)))
                          (set_cell (grid s) target Empty) in
      r ← dict_get rewards (id (objs s h));
      let rewards1 := <[id (objs s h) := r + 1]> rewards in
      r' ← dict_get rewards1 (id (objs s v));
      let rewards2 := <[id (objs s v) := r' + -1]> rewards1 in
      let s2 := with_objs s1 (<[h := add_health (objs s h) (health_gained s)]> (objs s)) in
      Ok (s2, rewards2, <[id (objs s v) := true]> dones)
  end.

(** Lines 123-149: the body of the loop over predators. *)
Definition hunt_one (h : nat) (st : hunt_state) : result hunt_state :=
  match target_prey_pos st.1.1 (position (objs st.1.1 h)) with
  | None => Ok st
  | Some target => kill h target st
  end.

Fixpoint hunting_loop (preds : list nat) (st : hunt_state) : result hunt_state :=
  match preds with
  | [] => Ok st
  | h :: preds' => st' ← hunt_one h st; hunting_loop preds' st'
  end.

Definition hunting (s : Env) (rewards : gmap string Z) (dones : gmap string bool)
    : result hunt_state :=
  hunting_loop (by_role s predator) (s, rewards, dones).

(** ** Hunger *)

(** Lines 156-161: the body of the loop over predators. *)
Definition hunger_one (st : Env * gmap string bool) (h : nat) : Env * gmap string bool :=
  let '(s, dones) := st in
  let a := add_health (objs s h) (-0.01)%float in
  let s1 := with_objs s (<[h := a]> (objs s)) in
  if PrimFloat.leb (health a) 0%float then
    (with_grid (with_agents s1 (remove_first h (agents s)))
               (set_cell (grid s) (position a) Empty),
     <[id a := true]> dones)
  else (s1, dones).

Definition predator_hunger (s : Env) (dones : gmap string bool)
    : Env * gmap string bool :=
  foldl hunger_one (s, dones) (by_role s predator).

(** ** Observation (src/main.py, [get_observation])

    A numpy matrix is the list of its rows.  The four layers are filled in
    place by the double loop over the offsets, and [np.stack] returns them
    as one float array (the integer layers are promoted to float64). *)

(** [np.zeros((n, m))] with every entry [z]. *)
Definition zeros {A} (n m : Z) (z : A) : list (list A) :=
  replicate (Z.to_nat n) (replicate (Z.to_nat m) z).

(** [a[i, j] = v].  The indices the code uses are [dx + scope] for [dx] in
    [range(-scope, scope + 1)], hence never negative. *)
Definition set_item {A} (a : list (list A)) (i j : Z) (v : A) : list (list A) :=
  alter (fun row => <[Z.to_nat j := v]> row) (Z.to_nat i) a.

Record Layers := mkLayers {
  wall_layer : list (list Z);
  predator_layer : list (list Z);
  prey_layer : list (list Z);
  health_layer : list (list float)
}.

(** [a % n] on Python ints: [ZeroDivisionError] when [n] is zero. *)
Definition py_mod (a n : Z) : result Z :=
  if n =? 0 then Raise ZeroDivisionError else Ok (a mod n).

(** Lines 234-244: what the grid cell [n] writes at the offset [(dx, dy)]. *)
Definition mark_cell (s : Env) (n : pos) (L : Layers) (dx dy : Z) : Layers :=
  let local_x := dx + predator_scope s in
  let local_y := dy + predator_scope s in
  match cell_at (grid s) n with
  | Wall =>
      mkLayers (set_item (wall_layer L) local_x local_y 1)
               (predator_layer L) (prey_layer L) (health_layer L)
  | Ref h =>
      match role (objs s h) with
      | predator =>
          mkLayers (wall_layer L) (set_item (predator_layer L) local_x local_y 1)
                   (prey_layer L)
                   (set_item (health_layer L) local_x local_y (health (objs s h)))
      | prey =>
          mkLayers (wall_layer L) (predator_layer L)
                   (set_item (prey_layer L) local_x local_y 1)
                   (set_item (health_layer L) local_x local_y (health (objs s h)))
      end
  | Empty => L
  end.

(** Lines 233-244: the body of the double loop, for one offset. *)
Definition observe_cell (s : Env) (a : pos) (L : Layers) (dx dy : Z) : result Layers :=
  nx ← py_mod (a.1 + dx) (grid_size s).1;
  ny ← py_mod (a.2 + dy) (grid_size s).2;
  Ok (mark_cell s (nx, ny) L dx dy).

(** [for x in l: acc = f(acc, x)], left at the first exception. *)
Fixpoint for_each {A B} (f : B → A → result B) (acc : B) (l : list A) : result B :=
  match l with
  | [] => Ok acc
  | x :: l' => acc' ← f acc x; for_each f acc' l'
  end.

(** Lines 231-244: the double loop. *)
Definition observe_loop (s : Env) (a : pos) (L : Layers) : result Layers :=
  for_each (fun L dx => for_each (fun L dy => observe_cell s a L dx dy) L (scope_range s))
           L (scope_range s).

(** The promotion of an integer entry by [np.stack]. *)
Definition float_of_int (z : Z) : float := PrimFloat.of_uint63 (Uint63.of_Z z).

Definition Observation : Type := list (list (list float)).

Definition promote (a : list (list Z)) : list (list float) :=
  (fun row : list Z => float_of_int <$> row) <$> a.

(** [np.stack([wall_layer, predator_layer, prey_layer, health_layer], axis=0)] *)
Definition stack (L : Layers) : Observation :=
  [promote (wall_layer L); promote (predator_layer L); promote (prey_layer L);
   health_layer L].

(** [get_observation(agent)]; [np.zeros] raises [ValueError] on a negative
    dimension. *)
Definition get_observation (s : Env) (h : nat) : result Observation :=
  let a := position (objs s h) in
  let size := predator_scope s * 2 + 1 in
  if size <? 0 then Raise ValueError
  else
    L ← observe_loop s a
          (mkLayers (zeros size size 0) (zeros size size 0) (zeros size size 0)
                    (zeros size size 0%float));
    Ok (stack L).

(** [{agent.id: self.get_observation(agent) for agent in self.agents}] *)
Fixpoint observations (s : Env) (l : list nat) (d : gmap string Observation)
    : result (gmap string Observation) :=
  match l with
  | [] => Ok d
  | h :: l' =>
      o ← get_observation s h;
      observations s l' (<[id (objs s h) := o]> d)
  end.

(** ** Spawning *)

(** [int * float] first converts the int (exactly, for a list length). *)
Definition float_of_nat (n : nat) : float :=
  PrimFloat.of_uint63 (Uint63.of_Z (Z.of_nat n)).

(** [math.ceil] of a float: [ValueError] on a NaN, [OverflowError] on an
    infinity. *)
Definition ceil (f : float) : result Z :=
  match Prim2SF f with
  | S754_zero _ => Ok 0
  | S754_infinity _ => Raise OverflowError
  | S754_nan => Raise ValueError
  | S754_finite sign m e =>
      match e with
      | Zneg k =>
          let d := 2 ^ Z.pos k in
          let q := Z.pos m / d in
          if sign then Ok (- q)
          else Ok (if Z.pos m mod d =? 0 then q else q + 1)
      | _ => Ok (if sign then - (Z.pos m * 2 ^ e) else Z.pos m * 2 ^ e)
      end
  end.

(** [max(1, math.ceil(n * p))] *)
Definition growth (n : nat) (p : float) : result Z :=
  c ← ceil (PrimFloat.mul (float_of_nat n) p); Ok (Z.max 1 c).

(** Lines 175-180: the number of agents to add for a role with [n] live
    agents and cap [cap]. *)
Definition new_count (n : nat) (cap : Z) (p : float) : result Z :=
  if Z.of_nat n <? cap then growth n p else Ok 0.

Definition prefix (r : Role) : string :=
  match r with predator => "pr_" | prey => "py_" end.

Section Creation.

(** The health a newly constructed [Agent] starts with (set by the
    constructor of the missing agent.py). *)
Variable initial_health : float.

(** [a = Agent(aid, r, p); self.grid[p] = a; self.agents.append(a)] *)
Definition create (s : Env) (aid : string) (r : Role) (p : pos) : Env :=
  let h := next_obj s in
  mkEnv (grid_size s) (num_predators s) (num_prey s) (num_walls s)
        (predator_scope s) (health_gained s) (max_num_predators s)
        (max_num_preys s) (agents s ++ [h]) (walls_positions s)
        (set_cell (grid s) p (Ref h))
        (<[h := mkAgent aid r p initial_health]> (objs s)) (S h).

(** Lines 183-191 and 194-202: [n] new agents of role [r]. *)
Fixpoint spawn (r : Role) (n : nat) (s : Env) (tape : list nat)
    : result (Env * list nat) :=
  match n with
  | O => Ok (s, tape)
  | S n' =>
      let aid := prefix r +:+ pretty (length (by_role s r)) in
      '(p, tape') ← sample_empty (grid s) (grid_size s) tape;
      spawn r n' (create s aid r p) tape'
  end.

Definition generate_new_agents (s : Env) (p_predator p_prey : float)
    (tape : list nat) : result (Env * list nat) :=
  let n_predators := length (by_role s predator) in
  let n_preys := length (by_role s prey) in
  new_predators ← new_count n_predators (max_num_predators s) p_predator;
  new_preys ← new_count n_preys (max_num_preys s) p_prey;
  '(s1, tape1) ← spawn predator (Z.to_nat new_predators) s tape;
  spawn prey (Z.to_nat new_preys) s1 tape1.

(** ** Reset *)

(** Lines 54-60. *)
Fixpoint reset_walls (n : nat) (s : Env) (tape : list nat) : result (Env * list nat) :=
  match n with
  | O => Ok (s, tape)
  | S n' =>
      '(p, tape') ← sample_empty (grid s) (grid_size s) tape;
      reset_walls n' (with_walls (with_grid s (set_cell (grid s) p Wall))
                                 (walls_positions s ++ [p])) tape'
  end.

(** Lines 63-70 and 73-80: agents [i], [i+1], ... of role [r]. *)
Fixpoint reset_agents (r : Role) (i n : nat) (s : Env) (tape : list nat)
    : result (Env * list nat) :=
  match n with
  | O => Ok (s, tape)
  | S n' =>
      '(p, tape') ← sample_empty (grid s) (grid_size s) tape;
      reset_agents r (S i) n' (create s (prefix r +:+ pretty i) r p) tape'
  end.

(** Lines 50-80: [reset] clears the grid and the wall list, not
    [self.agents], and places the walls, the predators and the prey. *)
Definition reset_placement (s : Env) (tape : list nat) : result (Env * list nat) :=
  '(s1, tape1) ← reset_walls (num_walls s) (with_walls (with_grid s ∅) []) tape;
  '(s2, tape2) ← reset_agents predator 0 (num_predators s) s1 tape1;
  reset_agents prey 0 (num_prey s) s2 tape2.

(** [reset] (lines 48-82) with the dict of observations it returns. *)
Definition reset_obs (s : Env) (tape : list nat)
    : result (Env * gmap string Observation * list nat) :=
  '(s', tape') ← reset_placement s tape;
  obs ← observations s' (agents s') ∅;
  Ok (s', obs, tape').

(** What a call of [reset] leaves behind: the state and the rest of the
    tape, when the call returns; its exception otherwise. *)
Definition reset (s : Env) (tape : list nat) : result (Env * list nat) :=
  '(s', _, tape') ← reset_obs s tape;
  Ok (s', tape').

(** ** One tick *)

(** [{agent.id: v for agent in self.agents}] *)
Definition dict_of_agents {V} (s : Env) (v : V) : gmap string V :=
  foldl (fun d h => <[id (objs s h) := v]> d) ∅ (agents s).

(** Lines 205-214: the four phases of a tick. *)
Definition tick (s : Env) (actions : gmap string Z) (tape : list nat)
    : result (Env * gmap string Z * gmap string bool * list nat) :=
  s1 ← agents_move s actions;
  '(s2, rewards, dones) ← hunting s1 (dict_of_agents s 0) (dict_of_agents s false);
  let '(s3, dones') := predator_hunger s2 dones in
  '(s4, tape') ← generate_new_agents s3 0.003%float 0.006%float tape;
  Ok (s4, rewards, dones', tape').

(** [step] (lines 204-219) with the observations it returns. *)
Definition step_obs (s : Env) (actions : gmap string Z) (tape : list nat)
    : result (Env * gmap string Observation * gmap string Z * gmap string bool
              * list nat) :=
  '(s', rewards, dones, tape') ← tick s actions tape;
  obs ← observations s' (agents s') ∅;
  Ok (s', obs, rewards, dones, tape').

(** What a call of [step] leaves behind and returns apart from the
    observations, when the call returns; its exception otherwise. *)
Definition step (s : Env) (actions : gmap string Z) (tape : list nat)
    : result (Env * gmap string Z * gmap string bool * list nat) :=
  '(s', _, rewards, dones, tape') ← step_obs s actions tape;
  Ok (s', rewards, dones, tape').

(** A caller's loop: one [step] per entry of [acts], on one tape. *)
Fixpoint steps (s : Env) (acts : list (gmap string Z)) (tape : list nat)
    : result (Env * list nat) :=
  match acts with
  | [] => Ok (s, tape)
  | a :: acts' =>
      '(s', _, _, tape') ← step s a tape;
      steps s' acts' tape'
  end.

End Creation.

(** ** Predicates used by the statements *)

(** The run returned a value. *)
Definition is_Ok {A} (m : result A) : bool :=
  match m with Ok _ => true | _ => false end.

(** A coordinate pair lies on a grid of size [gs]. *)
Definition on_grid (gs : Z * Z) (p : pos) : Prop :=
  0 <= p.1 < gs.1 ∧ 0 <= p.2 < gs.2.

(** States the Python object can be in without an index error: positive
    dimensions, every recorded position and every wall on the grid. *)
Definition well_formed (s : Env) : Prop :=
  0 < (grid_size s).1 ∧ 0 < (grid_size s).2 ∧
  Forall (fun h => on_grid (grid_size s) (position (objs s h))) (agents s) ∧
  Forall (on_grid (grid_size s)) (walls_positions s).

(** Every live object was allocated before [next_obj]: the next [Agent]
    that is constructed is a new object. *)
Definition allocated (s : Env) : Prop :=
  Forall (fun h => (h < next_obj s)%nat) (agents s).

(** Two object stores agree on the immutable attributes of every object. *)
Definition same_ids (o o' : nat -> Agent) : Prop :=
  ∀ h, id (o' h) = id (o h) ∧ role (o' h) = role (o h).

(** The ids of the live agents. *)
Definition ids (s : Env) : gset string :=
  list_to_set ((fun h => id (objs s h)) <$> agents s).

(** The configured maximum of a role. *)
Definition cap (s : Env) (r : Role) : Z :=
  match r with predator => max_num_predators s | prey => max_num_preys s end.

(** What hunting and hunger may do to the environment: configuration,
    identities and positions stay, the registry loses entries, and a grid
    cell either keeps its content or is cleared at the position of a live
    agent. *)
Definition shrinks (s s' : Env) : Prop :=
  walls_positions s' = walls_positions s ∧ grid_size s' = grid_size s ∧
  predator_scope s' = predator_scope s ∧ next_obj s' = next_obj s ∧
  max_num_predators s' = max_num_predators s ∧
  max_num_preys s' = max_num_preys s ∧
  health_gained s' = health_gained s ∧
  same_ids (objs s) (objs s') ∧
  (∀ h, position (objs s' h) = position (objs s h)) ∧
  agents s' `sublist_of` agents s ∧
  (∀ q, cell_at (grid s') q = cell_at (grid s) q ∨
        (cell_at (grid s') q = Empty ∧
         ∃ h, h ∈ agents s ∧ position (objs s h) = q)).

(** The wall cells of the grid are exactly the stored wall positions, and
    no live agent is recorded on one of them. *)
Definition walls_ok (s : Env) : Prop :=
  (∀ p, cell_at (grid s) p = Wall ↔ p ∈ walls_positions s) ∧
  Forall (fun h => position (objs s h) ∉ walls_positions s) (agents s).

(** From [s] to [s'] the wall list is unchanged and still describes the
    wall cells of the grid. *)
Definition keeps_walls (s s' : Env) : Prop :=
  walls_positions s' = walls_positions s ∧ walls_ok s'.

(** [type(c) == Agent] *)
Definition is_ref (c : Cell) : bool :=
  match c with Ref _ => true | _ => false end.

(** The number of grid cells that hold an agent reference. *)
Definition occupied_cells (s : Env) : nat :=
  length (filter (fun pc => is_ref pc.2 = true) (map_to_list (grid s))).

(** A cell that holds a reference lies at the recorded position of the
    agent it refers to. *)
Definition cell_agrees (s : Env) (p : pos) (c : Cell) : Prop :=
  match c with
  | Ref h => position (objs s h) = p
  | _ => True
  end.

#[global] Instance cell_agrees_dec s p c : Decision (cell_agrees s p c).
Proof. destruct c; simpl; apply _. Defined.

(** The occupancy invariant: every live agent is referenced by the cell at
    its recorded position and by no other cell, and there are as many
    occupied cells as live agents. *)
Definition occupancy (s : Env) : Prop :=
  Forall (fun h => cell_at (grid s) (position (objs s h)) = Ref h) (agents s) ∧
  map_Forall (cell_agrees s) (grid s) ∧
  occupied_cells s = length (agents s).

#[global] Instance occupancy_dec s : Decision (occupancy s).
Proof. unfold occupancy. apply _. Defined.

(** The registry and the grid describe the same placement: live objects are
    pairwise distinct, each is referenced by the cell at its recorded
    position, and every reference in the grid is to a live agent recorded
    at that cell. *)
Definition consistent (s : Env) : Prop :=
  NoDup (agents s) ∧
  Forall (fun h => cell_at (grid s) (position (objs s h)) = Ref h) (agents s) ∧
  (∀ p h, cell_at (grid s) p = Ref h → h ∈ agents s ∧ position (objs s h) = p).

(** The selection the specification describes for [hunting]: the first
    entry of the scan list, in scan order, whose distance is minimal. *)
Fixpoint first_nearest (l : list (Z * pos)) : option (Z * pos) :=
  match l with
  | [] => None
  | x :: l' =>
      match first_nearest l' with
      | Some y => if y.1 <? x.1 then Some y else Some x
      | None => Some x
      end
  end.

(** The neighbourhood of [p] does not reach over an edge of the grid. *)
Definition no_wrap (s : Env) (p : pos) : Prop :=
  0 <= p.1 - predator_scope s ∧ p.1 + predator_scope s < (grid_size s).1 ∧
  0 <= p.2 - predator_scope s ∧ p.2 + predator_scope s < (grid_size s).2.

(** Strict lexicographic order on the positions of two scan entries. *)
Definition pos_lt (a b : Z * pos) : Prop :=
  a.2.1 < b.2.1 ∨ (a.2.1 = b.2.1 ∧ a.2.2 < b.2.2).

(** The draws of a sequence of samples, as they lie on the tape. *)
Definition draws (samples : list (nat * nat)) : list nat :=
  samples ≫= (fun r => [r.1; r.2]).

(** ** Concrete environments, tapes and actions *)

(** A 5x5 grid, scope 1: a predator at [(2, 2)], prey at [(1, 2)] and
    [(2, 1)]. *)
Definition tie_env : Env :=
  create 1 (create 1 (create 1 (init (5, 5) 1 2 0 1 0.3)
    "pr_0" predator (2, 2)) "py_0" prey (1, 2)) "py_1" prey (2, 1).

(** Every agent of [tie_env] stays where it is. *)
Definition tie_actions : gmap string Z :=
  list_to_map [("pr_0", 0); ("py_0", 0); ("py_1", 0)].

(** A 5x5 grid, scope 1: a predator in the corner [(0, 0)], prey at [(4, 0)]
    (offset [(-1, 0)], wrapped) and at [(0, 1)] (offset [(0, 1)]). *)
Definition corner_env : Env :=
  create 1 (create 1 (create 1 (init (5, 5) 1 2 0 1 0.3)
    "pr_0" predator (0, 0)) "py_0" prey (4, 0)) "py_1" prey (0, 1).

(** A 1x1 grid that is asked for two walls:
    [PredatorPreyEnv((1, 1), 0, 0, 2, 1, 0.3)]. *)
Definition tiny_env : Env := init (1, 1) 0 0 2 1 0.3.

(** [n] predators, one per cell in row-major order, on the 600x600 grid of
    [env_creator]. *)
Definition crowd (n : nat) : Env :=
  mkEnv (600, 600) 0 0 0 5 0.7 10000 10000 (seq 0 n) []
    (list_to_map ((fun h : nat => ((Z.of_nat h / 600, Z.of_nat h mod 600), Ref h))
                  <$> seq 0 n))
    (fun h => mkAgent ("pr_" +:+ pretty h) predator
                (Z.of_nat h / 600, Z.of_nat h mod 600) 1)
    n.

(** Draws that sample the cells [(100, 0)], [(100, 1)], ... *)
Definition row_100 (n : nat) : list nat :=
  draws ((fun j : nat => (100%nat, j)) <$> seq 0 n).

(** An empty 5x5 environment: both roles are extinct. *)
Definition extinct_env : Env := init (5, 5) 0 0 0 1 0.3.

(** Draws for the [reset] of [PredatorPreyEnv((5, 5), 1, 2, 1, 1, 0.3)]:
    the wall at [(0, 0)]; the predator at [(2, 2)], after one rejected
    sample of the wall cell; the prey at [(1, 2)] and [(2, 1)]; then the
    samples for the spawn phases of the ticks that follow. *)
Definition reset_tape : list nat :=
  [0; 0; 0; 0; 2; 2; 1; 2; 2; 1; 3; 3; 4; 4; 0; 1; 0; 2; 4; 0; 4; 1]%nat.

(** Every agent stays where it is (action 0 for every id in use). *)
Definition all_stay : gmap string Z :=
  list_to_map [("pr_0", 0); ("pr_1", 0); ("pr_2", 0);
               ("py_0", 0); ("py_1", 0); ("py_2", 0)].

(** Every prey moves right, every predator stays. *)
Definition prey_right : gmap string Z :=
  list_to_map [("pr_0", 0); ("pr_1", 0); ("py_0", 4); ("py_1", 4)].

(** Two prey, no predator, no wall on a 5x5 grid:
    [PredatorPreyEnv((5, 5), 0, 2, 0, 1, 0.3)]. *)
Definition two_prey_env : Env := init (5, 5) 0 2 0 1 0.3.

(** Draws that put the two prey at [(0, 0)] and [(0, 2)], then two more
    samples for the spawn phase of the first tick. *)
Definition two_prey_tape : list nat := [0; 0; 0; 2; 3; 3; 4; 4]%nat.

(** [py_0] moves right and [py_1] moves left: both aim at [(0, 1)]. *)
Definition head_on : gmap string Z := list_to_map [("py_0", 4); ("py_1", 3)].

(** One predator, no prey and one wall on a 5x5 grid:
    [PredatorPreyEnv((5, 5), 1, 0, 1, 1, 0.3)]. *)
Definition one_wall_env : Env := init (5, 5) 1 0 1 1 0.3.

(** Draws for a [reset], a tick, a second [reset] and a second tick of
    [one_wall_env]: the wall at [(0, 0)] and the predator at [(2, 2)]; the
    spawned predator at [(3, 3)] and the spawned prey at [(0, 3)]; the new
    wall at [(3, 3)] and the new predator at [(1, 1)]; the spawned predator
    at [(4, 0)] and the spawned prey at [(2, 4)]. *)
Definition second_reset_tape : list nat :=
  [0; 0; 2; 2; 3; 3; 0; 3; 3; 3; 1; 1; 4; 0; 2; 4]%nat.

(** A 1x1 grid whose only cell holds a predator, as
    [PredatorPreyEnv((1, 1), 1, 0, 0, 1, 0.3)] is after [reset]. *)
Definition full_env : Env := create 1 (init (1, 1) 1 0 0 1 0.3) "pr_0" predator (0, 0).

(** ** Reading observations *)

(** The double loop of [get_observation] on a grid whose dimensions are not
    zero, where no [%] can fail (lemma [observe_loop_marked]). *)
Definition marked_cell (s : Env) (a : pos) (L : Layers) (dx dy : Z) : Layers :=
  mark_cell s ((a.1 + dx) mod (grid_size s).1, (a.2 + dy) mod (grid_size s).2) L dx dy.

Definition marked (s : Env) (a : pos) (L : Layers) : Layers :=
  foldl (fun L dx => foldl (fun L dy => marked_cell s a L dx dy) L (scope_range s))
        L (scope_range s).

(** [a[i, j]] *)
Definition item {A} (a : list (list A)) (i j : Z) : option A :=
  row ← a !! Z.to_nat i; row !! Z.to_nat j.

(** The entry [o[c, i, j]] of an observation. *)
Definition entry (o : Observation) (c : nat) (i j : Z) : option float :=
  layer ← o !! c; item layer i j.

(** A matrix with [n] rows and [n] columns. *)
Definition square {A} (n : Z) (a : list (list A)) : Prop :=
  length a = Z.to_nat n ∧ Forall (fun row => length row = Z.to_nat n) a.

(** What an observation shows of one grid cell: the wall, predator, prey
    and health entries. *)
Definition pixel (s : Env) (c : Cell) : float * float * float * float :=
  match c with
  | Empty => (0, 0, 0, 0)%float
  | Wall => (1, 0, 0, 0)%float
  | Ref h =>
      match role (objs s h) with
      | predator => (0, 1, 0, health (objs s h))%float
      | prey => (0, 0, 1, health (objs s h))%float
      end
  end.

(** The test of line 157 for the object [h]: after the decrement of the
    hunger phase its health is not positive. *)
Definition starving (s : Env) (h : nat) : Prop :=
  PrimFloat.leb (health (add_health (objs s h) (-0.01)%float)) 0%float = true.

#[global] Instance starving_dec s h : Decision (starving s h).
Proof. unfold starving. apply _. Defined.

(** The sum of the values of a rewards dict. *)
Definition reward_sum (rewards : gmap string Z) : Z :=
  map_fold (fun _ v acc => v + acc) 0 rewards.

(** What the creation of agents does to an environment: the registry grows
    at its end by the new objects [new], which are the next objects to be
    allocated; every older object, every cell that was not empty, the size
    and the wall list are left as they were; each new object has the
    initial health and is referenced by the cell it stands on, which was
    empty and was sampled on the grid. *)
Definition extends (ih : float) (s s' : Env) (new : list nat) : Prop :=
  agents s' = agents s ++ new ∧
  new = seq (next_obj s) (length new) ∧
  next_obj s' = (next_obj s + length new)%nat ∧
  grid_size s' = grid_size s ∧ walls_positions s' = walls_positions s ∧
  (∀ h, (h < next_obj s)%nat → objs s' h = objs s h) ∧
  (∀ q, cell_at (grid s) q ≠ Empty → cell_at (grid s') q = cell_at (grid s) q) ∧
  (∀ q, cell_at (grid s') q = cell_at (grid s) q ∨
        ∃ h, h ∈ new ∧ cell_at (grid s') q = Ref h) ∧
  Forall (fun h =>
            health (objs s' h) = ih ∧
            (∃ r1 r2, position (objs s' h) = sample_pos (grid_size s) r1 r2) ∧
            cell_at (grid s) (position (objs s' h)) = Empty ∧
            cell_at (grid s') (position (objs s' h)) = Ref h) new.

(** Every live agent carries an id made of the prefix of its role and a
    number, as [reset] and [generate_new_agents] build them. *)
Definition tagged (s : Env) : Prop :=
  Forall (fun h => ∃ n : nat, id (objs s h) = prefix (role (objs s h)) +:+ pretty n)
         (agents s).

(** The test [agent_id[:2] == 'pr'] by which the training loop
    (src/main.py, line 417) files an experience in the predator buffer. *)
Definition is_predator_id (agent_id : string) : bool :=
  bool_decide (String.substring 0 2 agent_id = "pr").

(** ** Rendering (src/main.py, [render]) *)

(** [c == z] for a grid entry [c] and an int [z]; an [Agent] object equals
    no int. *)
Definition eq_int (c : Cell) (z : Z) : bool :=
  match c with
  | Empty => z =? 0
  | Wall => z =? -1
  | Ref _ => false
  end.

(** Lines 250-254: the character of one cell; a later mask assignment
    overrides an earlier one. *)
Definition render_char (c : Cell) : ascii :=
  if eq_int c 2 then "X"%char
  else if eq_int c 1 then "O"%char
  else if eq_int c (-1) then "#"%char
  else "."%char.

(** ["".join(row)] for row [x] of [render_grid]. *)
Definition render_row (s : Env) (x : Z) : string :=
  String.string_of_list_ascii
    ((fun y => render_char (cell_at (grid s) (x, y))) <$> seqZ 0 (grid_size s).2).

Definition render_lines (s : Env) : list string :=
  render_row s <$> seqZ 0 (grid_size s).1.

Definition newline : string := String "010" EmptyString.

(** The text that [render] prints: the rows joined by newlines, the newline
    of [print], and the empty line of [print()]. *)
Definition render (s : Env) : string :=
  String.concat newline (render_lines s) +:+ newline +:+ newline.

(** ** Batching (src/main.py and src/train_type3.py, [batchify]) *)

(** [range(start, stop, step)]: [ValueError] when [step] is zero. *)
Definition range (start stop step : Z) : result (list Z) :=
  if step =? 0 then Raise ValueError
  else
    let n :=
      if 0 <? step
      then (if start <? stop then 1 + (stop - 1 - start) / step else 0)
      else (if stop <? start then 1 + (start - 1 - stop) / (- step) else 0) in
    Ok ((fun k => start + k * step) <$> seqZ 0 n).

(** [data[lo:hi]] for [0 <= lo] and [0 <= hi]; the slice is clipped at the
    end of [data]. *)
Definition slice {A} (data : list A) (lo hi : Z) : list A :=
  take (Z.to_nat (hi - lo)) (drop (Z.to_nat lo) data).

Definition batchify {A} (data : list A) (batch_size : Z) : result (list (list A)) :=
  starts ← range 0 (Z.of_nat (length data)) batch_size;
  Ok ((fun i : Z => slice data i (i + batch_size)) <$> (starts : list Z)).

(** ** More concrete environments *)

(** Two predators on a 5x5 grid; the second one has health [0.005] and
    starves in the next hunger phase. *)
Definition hungry_env : Env :=
  create 0.005 (create 1 (init (5, 5) 2 0 0 1 0.3) "pr_0" predator (0, 0))
    "pr_1" predator (1, 1).

(** * Theorems *)

(** ** Outcomes of the calls *)

Lemma bind_Ok {A B} (m : result A) (f : A → result B) b :
  m ≫= f = Ok b → ∃ a, m = Ok a ∧ f a = Ok b.
Proof. destruct m; simpl; [eauto | done | done]. Qed.

Lemma bind_Raise {A B} (m : result A) (f : A → result B) e :
  m ≫= f = Raise e → m = Raise e ∨ ∃ a, m = Ok a ∧ f a = Raise e.
Proof. destruct m; simpl; [eauto | by left; congruence | done]. Qed.

Lemma bind_OutOfDraws {A B} (m : result A) (f : A → result B) :
  m ≫= f = OutOfDraws → m = OutOfDraws ∨ ∃ a, m = Ok a ∧ f a = OutOfDraws.
Proof. destruct m; simpl; [eauto | done | by left]. Qed.

(** A [reset] that returns has placed the walls and the agents. *)
Lemma reset_Ok ih s tape s' tape' :
  reset ih s tape = Ok (s', tape') → reset_placement ih s tape = Ok (s', tape').
Proof.
  unfold reset, reset_obs. intros H.
  apply bind_Ok in H as ([[s1 o] t1] & H & ?). simplify_eq.
  apply bind_Ok in H as ([s2 t2] & H & H2).
  apply bind_Ok in H2 as (o2 & _ & ?). by simplify_eq.
Qed.

(** A [step] that returns has run the four phases. *)
Lemma step_Ok ih s actions tape s' rewards dones tape' :
  step ih s actions tape = Ok (s', rewards, dones, tape') →
  tick ih s actions tape = Ok (s', rewards, dones, tape').
Proof.
  unfold step, step_obs. intros H.
  apply bind_Ok in H as ([[[[s1 o] r] d] t1] & H & ?). simplify_eq.
  apply bind_Ok in H as ([[[s2 r2] d2] t2] & H & H2).
  apply bind_Ok in H2 as (o2 & _ & ?). by simplify_eq.
Qed.

(** A loop whose body cannot fail is a fold. *)
Lemma for_each_foldl {A B} (f : B → A → result B) (g : B → A → B) l acc :
  (∀ b x, f b x = Ok (g b x)) → for_each f acc l = Ok (foldl g acc l).
Proof.
  intros Hf. revert acc. induction l as [|x l IH]; intros acc; simpl; [done |].
  rewrite Hf. simpl. apply IH.
Qed.

Lemma observe_cell_marked s a L dx dy :
  (grid_size s).1 ≠ 0 → (grid_size s).2 ≠ 0 →
  observe_cell s a L dx dy = Ok (marked_cell s a L dx dy).
Proof.
  intros H1 H2. unfold observe_cell, py_mod.
  by rewrite (proj2 (Z.eqb_neq _ _) H1), (proj2 (Z.eqb_neq _ _) H2).
Qed.

Lemma observe_loop_marked s a L :
  (grid_size s).1 ≠ 0 → (grid_size s).2 ≠ 0 →
  observe_loop s a L = Ok (marked s a L).
Proof.
  intros H1 H2. unfold observe_loop, marked.
  apply for_each_foldl. intros L1 dx. apply for_each_foldl. intros L2 dy.
  by apply observe_cell_marked.
Qed.

(** With a zero dimension the first [%] of the loop fails. *)
Lemma observe_loop_zero s a L :
  0 <= predator_scope s → (grid_size s).1 = 0 ∨ (grid_size s).2 = 0 →
  observe_loop s a L = Raise ZeroDivisionError.
Proof.
  intros Hs Hz. unfold observe_loop, scope_range.
  destruct (Z.to_nat (2 * predator_scope s + 1)) as [|n] eqn:En; [lia |].
  unfold seqZ. rewrite En. simpl.
  unfold observe_cell, py_mod.
  destruct Hz as [-> | Hz]; [done |].
  destruct ((grid_size s).1 =? 0); [done |]. by rewrite Hz.
Qed.

(** The three outcomes of [get_observation]. *)
Lemma get_observation_cases s h :
  (predator_scope s < 0 ∧ get_observation s h = Raise ValueError) ∨
  (0 <= predator_scope s ∧ ((grid_size s).1 = 0 ∨ (grid_size s).2 = 0) ∧
   get_observation s h = Raise ZeroDivisionError) ∨
  (0 <= predator_scope s ∧ (grid_size s).1 ≠ 0 ∧ (grid_size s).2 ≠ 0 ∧
   get_observation s h
   = Ok (stack (marked s (position (objs s h))
                  (mkLayers (zeros (predator_scope s * 2 + 1) (predator_scope s * 2 + 1) 0)
                            (zeros (predator_scope s * 2 + 1) (predator_scope s * 2 + 1) 0)
                            (zeros (predator_scope s * 2 + 1) (predator_scope s * 2 + 1) 0)
                            (zeros (predator_scope s * 2 + 1) (predator_scope s * 2 + 1)
                                   0%float))))).
Proof.
  unfold get_observation.
  destruct (predator_scope s * 2 + 1 <? 0) eqn:Es.
  - apply Z.ltb_lt in Es. left. split; [lia | done].
  - apply Z.ltb_ge in Es. right.
    destruct (decide ((grid_size s).1 = 0 ∨ (grid_size s).2 = 0)) as [Hz | Hnz].
    + left. split; [lia |]. split; [done |]. by rewrite observe_loop_zero by (lia || done).
    + right. split; [lia |].
      assert ((grid_size s).1 ≠ 0 ∧ (grid_size s).2 ≠ 0) as [H1 H2].
      { split; intros ?; apply Hnz; auto. }
      split; [done |]. split; [done |]. by rewrite observe_loop_marked.
Qed.

Lemma get_observation_Ok_marked s h o :
  get_observation s h = Ok o →
  0 <= predator_scope s ∧ (grid_size s).1 ≠ 0 ∧ (grid_size s).2 ≠ 0 ∧
  o = stack (marked s (position (objs s h))
               (mkLayers (zeros (predator_scope s * 2 + 1) (predator_scope s * 2 + 1) 0)
                         (zeros (predator_scope s * 2 + 1) (predator_scope s * 2 + 1) 0)
                         (zeros (predator_scope s * 2 + 1) (predator_scope s * 2 + 1) 0)
                         (zeros (predator_scope s * 2 + 1) (predator_scope s * 2 + 1)
                                0%float))).
Proof.
  intros H.
  destruct (get_observation_cases s h) as [[_ E] | [(_ & _ & E) | (Hs & H1 & H2 & E)]];
    rewrite E in H; try done.
  by simplify_eq.
Qed.

(** The observation pass on a grid with non-zero dimensions and a scope
    that is not negative returns. *)
Lemma observations_total s l d :
  0 <= predator_scope s → (grid_size s).1 ≠ 0 → (grid_size s).2 ≠ 0 →
  ∃ obs, observations s l d = Ok obs.
Proof.
  intros Hs H1 H2. revert d. induction l as [|h l IH]; intros d; simpl; [eauto |].
  destruct (get_observation_cases s h) as [[? _] | [(_ & [? | ?] & _) | (_ & _ & _ & ->)]];
    try lia; try done.
  simpl. apply IH.
Qed.

(** The only exception of the observation pass on a grid with non-zero
    dimensions is the [ValueError] of a negative scope. *)
Lemma observations_Raise s l d e :
  (grid_size s).1 ≠ 0 → (grid_size s).2 ≠ 0 →
  observations s l d = Raise e → e = ValueError ∧ predator_scope s < 0 ∧ l ≠ [].
Proof.
  intros H1 H2. revert d. induction l as [|h l IH]; intros d H; simpl in H; [done |].
  destruct (get_observation_cases s h)
    as [[Hs E] | [(_ & [? | ?] & _) | (Hs & _ & _ & E)]]; try done.
  - rewrite E in H. simpl in H. by simplify_eq.
  - rewrite E in H. simpl in H. apply IH in H as (? & ? & _). lia.
Qed.

Lemma observations_not_OutOfDraws s l d : observations s l d ≠ OutOfDraws.
Proof.
  revert d. induction l as [|h l IH]; intros d; simpl; [done |].
  destruct (get_observation_cases s h)
    as [[_ ->] | [(_ & _ & ->) | (_ & _ & _ & ->)]]; try done.
  simpl. apply IH.
Qed.

(** [reset] and [step] from their phases. *)
Lemma reset_unfold ih s tape :
  reset ih s tape
  = '(s', tape') ← reset_placement ih s tape;
    _ ← observations s' (agents s') ∅; Ok (s', tape').
Proof.
  unfold reset, reset_obs. destruct (reset_placement ih s tape) as [[s1 t1] | |]; simpl;
    [| done | done].
  by destruct (observations s1 (agents s1) ∅).
Qed.

Lemma step_unfold ih s actions tape :
  step ih s actions tape
  = '(s', rewards, dones, tape') ← tick ih s actions tape;
    _ ← observations s' (agents s') ∅; Ok (s', rewards, dones, tape').
Proof.
  unfold step, step_obs. destruct (tick ih s actions tape) as [[[[s1 r] d1] t1] | |]; simpl;
    [| done | done].
  by destruct (observations s1 (agents s1) ∅).
Qed.

(** ** Toroidal wrap (C7) *)

(** C7, counterexample: on a grid of width 3 and height 5 the action "up"
    from [(0, 1)] lands in row [width - 1 = 2], not in row
    [height - 1 = 4]. *)
Lemma wrap_up_not_height :
  candidate (3, 5) (0, 1) 1 = (2, 1) ∧ candidate (3, 5) (0, 1) 1 ≠ (5 - 1, 1).
Proof. split; [reflexivity | discriminate]. Qed.

(** C7, amended: on a grid of width [W] (first dimension) and height [H],
    "up" from [(0, y)] has destination [(W - 1, y)] and "down" from
    [(W - 1, y)] has destination [(0, y)]; the agent lands there when that
    cell of the snapshot is empty. *)
Theorem toroidal_wrap (g : gmap pos Cell) (W H y : Z) :
  0 < W →
  candidate (W, H) (0, y) 1 = (W - 1, y) ∧
  candidate (W, H) (W - 1, y) 2 = (0, y) ∧
  (cell_at g (W - 1, y) = Empty → resolve g (W, H) (0, y) 1 = (W - 1, y)) ∧
  (cell_at g (0, y) = Empty → resolve g (W, H) (W - 1, y) 2 = (0, y)).
Proof.
  intros HW.
  assert (E1 : candidate (W, H) (0, y) 1 = (W - 1, y)).
  { unfold candidate; simpl. f_equal.
    rewrite <- (Z.mod_unique (0 - 1) W (-1) (W - 1)); [done | lia | lia]. }
  assert (E2 : candidate (W, H) (W - 1, y) 2 = (0, y)).
  { unfold candidate; simpl. f_equal.
    replace (W - 1 + 1) with W by lia. apply Z.mod_same. lia. }
  repeat split; [done | done | |].
  - intros Hc. unfold resolve. rewrite E1, Hc. done.
  - intros Hc. unfold resolve. rewrite E2, Hc. done.
Qed.

(** The wrap on a grid of width 3 and height 5. *)
Lemma toroidal_wrap_witness :
  0 < 3 ∧
  candidate (3, 5) (0, 1) 1 = (3 - 1, 1) ∧
  candidate (3, 5) (3 - 1, 1) 2 = (0, 1).
Proof.
  split; [lia |].
  destruct (toroidal_wrap ∅ 3 5 1 ltac:(lia)) as (H1 & H2 & _).
  split; [exact H1 | exact H2].
Defined.

(** ** Nearest prey and tie-break (C3) *)

#[global] Instance tuple_le_total : Total tuple_le.
Proof. intros [a [b c]] [a' [b' c']]. unfold tuple_le; simpl. lia. Qed.

#[global] Instance tuple_le_trans : Transitive tuple_le.
Proof. intros [a [b c]] [a' [b' c']] [a'' [b'' c'']]. unfold tuple_le; simpl. lia. Qed.

#[global] Instance tuple_le_antisym : AntiSymm (=) tuple_le.
Proof.
  intros [a [b c]] [a' [b' c']]. unfold tuple_le; simpl. intros H1 H2.
  assert (a = a') by lia. assert (b = b') by lia. assert (c = c') by lia.
  congruence.
Qed.

(** The head of the sorted list is a least element of the list. *)
Lemma head_merge_sort_least (l : list (Z * pos)) :
  l ≠ [] →
  ∃ m, head (merge_sort tuple_le l) = Some m ∧ m ∈ l ∧ ∀ x, x ∈ l → tuple_le m x.
Proof.
  intros Hne.
  pose proof (merge_sort_Permutation tuple_le l) as Hp.
  pose proof (StronglySorted_merge_sort tuple_le l) as Hs.
  destruct (merge_sort tuple_le l) as [|m l'] eqn:E.
  - apply Permutation_nil_l in Hp. congruence.
  - exists m. split; [done |]. split.
    + rewrite <- Hp. left.
    + intros x Hx. rewrite <- Hp in Hx.
      apply StronglySorted_cons in Hs as [Hall _].
      apply elem_of_cons in Hx as [-> | Hx].
      * destruct (total tuple_le m m); done.
      * rewrite Forall_forall in Hall. auto.
Qed.

(** [first_nearest] selects an entry of a non-empty list. *)
Lemma first_nearest_nonempty (l : list (Z * pos)) :
  l ≠ [] → ∃ m, first_nearest l = Some m.
Proof.
  destruct l as [|x l]; [done |]. intros _. simpl.
  destruct (first_nearest l) as [y|]; [destruct (y.1 <? x.1) |]; eauto.
Qed.

(** On a list whose positions increase strictly in lexicographic order, the
    first entry of minimal distance is the least entry for [tuple_le]. *)
Lemma first_nearest_least (l : list (Z * pos)) m :
  StronglySorted pos_lt l → first_nearest l = Some m →
  m ∈ l ∧ ∀ x, x ∈ l → tuple_le m x.
Proof.
  revert m. induction l as [|x l IH]; intros m Hs Hf; [done |].
  apply StronglySorted_cons in Hs as [Hall Hs]. rewrite Forall_forall in Hall.
  simpl in Hf. destruct (first_nearest l) as [y|] eqn:Ey.
  - destruct (IH y Hs eq_refl) as [Hy Hmin].
    destruct (Z.ltb_spec y.1 x.1) as [Hlt | Hge]; simplify_eq.
    + split; [by right |]. intros z [-> | Hz]%elem_of_cons; [| by auto].
      left. done.
    + split; [by left |]. intros z [-> | Hz]%elem_of_cons.
      * destruct (total tuple_le m m); done.
      * specialize (Hmin z Hz). specialize (Hall z Hz).
        unfold tuple_le, pos_lt in *. lia.
  - simplify_eq. destruct l as [|y l].
    + split; [by left |]. intros z [-> | Hz]%elem_of_cons; [| by inv Hz].
      destruct (total tuple_le m m); done.
    + simpl in Ey. destruct (first_nearest l) as [w|]; [destruct (w.1 <? y.1) |]; done.
Qed.

(** [range] enumerates its values in increasing order. *)
Lemma seqZ_sorted m n : StronglySorted Z.lt (seqZ m n).
Proof.
  remember (Z.to_nat n) as k eqn:Hk. revert m n Hk.
  induction k as [|k IH]; intros m n Hk.
  - rewrite seqZ_nil by lia. constructor.
  - rewrite seqZ_cons by lia. apply StronglySorted_cons. split.
    + apply Forall_forall. intros x Hx. apply elem_of_seqZ in Hx. lia.
    + apply IH. lia.
Qed.

(** An entry found at offset [(dx, dy)]. *)
Lemma elem_of_scan_cell s p dx dy e :
  e ∈ scan_cell s p dx dy →
  e = (Z.abs dx + Z.abs dy,
       ((p.1 + dx) mod (grid_size s).1, (p.2 + dy) mod (grid_size s).2)).
Proof.
  unfold scan_cell. destruct ((dx =? 0) && (dy =? 0)); [by intros ?%elem_of_nil |].
  simpl. destruct (is_prey_cell _ _); [| by intros ?%elem_of_nil].
  by intros ->%list_elem_of_singleton.
Qed.

Lemma scan_cell_sorted s p dx dy : StronglySorted pos_lt (scan_cell s p dx dy).
Proof.
  unfold scan_cell. destruct ((dx =? 0) && (dy =? 0)); [constructor |].
  simpl. destruct (is_prey_cell _ _); repeat constructor.
Qed.

Lemma scan_row_sorted s p dx (ys : list Z) :
  (∀ dy, dy ∈ ys → 0 <= p.2 + dy < (grid_size s).2) →
  StronglySorted Z.lt ys →
  StronglySorted pos_lt (ys ≫= scan_cell s p dx).
Proof.
  induction ys as [|y ys IH]; intros Hr Hs; [constructor |].
  apply StronglySorted_cons in Hs as [Hall Hs]. rewrite Forall_forall in Hall.
  change ((y :: ys) ≫= scan_cell s p dx)
    with (scan_cell s p dx y ++ (ys ≫= scan_cell s p dx)).
  apply StronglySorted_app_2.
  - intros e1 e2 H1 H2. apply elem_of_scan_cell in H1 as ->.
    apply list_elem_of_bind in H2 as (y' & H2 & Hy').
    apply elem_of_scan_cell in H2 as ->.
    right. simpl. split; [done |].
    rewrite !Z.mod_small; [specialize (Hall y' Hy'); lia | |].
    + apply Hr. by right.
    + apply Hr. by left.
  - apply scan_cell_sorted.
  - apply IH; [| done]. intros dy Hdy. apply Hr. by right.
Qed.

Lemma scan_sorted s p (xs ys : list Z) :
  (∀ dx, dx ∈ xs → 0 <= p.1 + dx < (grid_size s).1) →
  (∀ dy, dy ∈ ys → 0 <= p.2 + dy < (grid_size s).2) →
  StronglySorted Z.lt xs → StronglySorted Z.lt ys →
  StronglySorted pos_lt (xs ≫= (fun dx => ys ≫= scan_cell s p dx)).
Proof.
  intros Hrx Hry Hsx Hsy.
  induction xs as [|x xs IH]; [constructor |].
  apply StronglySorted_cons in Hsx as [Hall Hsx]. rewrite Forall_forall in Hall.
  change ((x :: xs) ≫= (fun dx => ys ≫= scan_cell s p dx))
    with ((ys ≫= scan_cell s p x) ++ (xs ≫= (fun dx => ys ≫= scan_cell s p dx))).
  apply StronglySorted_app_2.
  - intros e1 e2 H1 H2.
    apply list_elem_of_bind in H1 as (y1 & H1 & _).
    apply elem_of_scan_cell in H1 as ->.
    apply list_elem_of_bind in H2 as (x' & H2 & Hx').
    apply list_elem_of_bind in H2 as (y2 & H2 & _).
    apply elem_of_scan_cell in H2 as ->.
    left. simpl.
    rewrite !Z.mod_small; [specialize (Hall x' Hx'); lia | |].
    + apply Hrx. by right.
    + apply Hrx. by left.
  - by apply scan_row_sorted.
  - apply IH; [| done]. intros dx Hdx. apply Hrx. by right.
Qed.

Lemma prey_in_scope_sorted s p :
  no_wrap s p → StronglySorted pos_lt (prey_in_scope s p).
Proof.
  intros (H1 & H2 & H3 & H4). unfold prey_in_scope.
  apply scan_sorted; unfold scope_range;
    try apply seqZ_sorted; intros d Hd%elem_of_seqZ; lia.
Qed.

(** Every entry of the scan list is a prey cell tagged with the Manhattan
    length of an offset of the neighbourhood. *)
Lemma elem_of_prey_in_scope s p e :
  e ∈ prey_in_scope s p →
  ∃ dx dy, - predator_scope s <= dx <= predator_scope s ∧
           - predator_scope s <= dy <= predator_scope s ∧
           e = (Z.abs dx + Z.abs dy,
                ((p.1 + dx) mod (grid_size s).1, (p.2 + dy) mod (grid_size s).2)) ∧
           is_prey_cell (objs s) (cell_at (grid s) e.2) = true.
Proof.
  unfold prey_in_scope. intros (dx & He & Hdx)%list_elem_of_bind.
  apply list_elem_of_bind in He as (dy & He & Hdy).
  unfold scope_range in *. apply elem_of_seqZ in Hdx, Hdy.
  exists dx, dy. split; [lia |]. split; [lia |].
  split; [by apply elem_of_scan_cell |].
  unfold scan_cell in He. destruct ((dx =? 0) && (dy =? 0)); [by apply elem_of_nil in He |].
  simpl in He. destruct (is_prey_cell _ _) eqn:E; [| by apply elem_of_nil in He].
  apply list_elem_of_singleton in He as ->. done.
Qed.

(** C3, counterexample: for a predator in the corner [(0, 0)] the scan
    meets the prey at [(4, 0)] (offset [(-1, 0)]) before the prey at
    [(0, 1)] (offset [(0, 1)]); both are at distance 1 and the sort puts
    [(0, 1)] first. *)
Lemma tie_break_counterexample :
  prey_in_scope corner_env (0, 0) = [(1, (4, 0)); (1, (0, 1))] ∧
  first_nearest (prey_in_scope corner_env (0, 0)) = Some (1, (4, 0)) ∧
  target_prey_pos corner_env (0, 0) = Some (0, 1).
Proof. vm_compute. done. Qed.

(** C3, amended: when the scan of a predator at [p] finds prey, the
    selected position belongs to a prey cell of the neighbourhood, reached
    by an offset [(dx, dy)] whose Manhattan length [|dx| + |dy|] is minimal
    among the prey found; among the prey at that distance it is the
    lexicographically smallest wrapped position.  When the neighbourhood
    does not wrap around an edge this is the first prey of minimal distance
    in scan order.  For the predator at [(2, 2)] with prey at [(1, 2)] and
    [(2, 1)] the selected position is [(1, 2)]. *)
Theorem nearest_prey_selected (s : Env) (p : pos) :
  prey_in_scope s p ≠ [] →
  (∃ d t, target_prey_pos s p = Some t ∧ (d, t) ∈ prey_in_scope s p ∧
      (∃ dx dy, - predator_scope s <= dx <= predator_scope s ∧
                - predator_scope s <= dy <= predator_scope s ∧
                d = Z.abs dx + Z.abs dy ∧
                t = ((p.1 + dx) mod (grid_size s).1, (p.2 + dy) mod (grid_size s).2) ∧
                is_prey_cell (objs s) (cell_at (grid s) t) = true) ∧
      ∀ d' t', (d', t') ∈ prey_in_scope s p →
        d <= d' ∧ (d = d' → t.1 < t'.1 ∨ (t.1 = t'.1 ∧ t.2 <= t'.2))) ∧
  (no_wrap s p → target_prey_pos s p = snd <$> first_nearest (prey_in_scope s p)) ∧
  target_prey_pos tie_env (2, 2) = Some (1, 2).
Proof.
  intros Hne.
  destruct (head_merge_sort_least _ Hne) as (m & Hh & Hm & Hleast).
  split; [| split].
  - exists m.1, m.2. unfold target_prey_pos. rewrite Hh. split; [done |].
    split; [by destruct m |]. split.
    + destruct (elem_of_prey_in_scope _ _ _ Hm) as (dx & dy & Hdx & Hdy & -> & Hc).
      exists dx, dy. done.
    + intros d' t' H'.
      specialize (Hleast _ H'). unfold tuple_le in Hleast. simpl in Hleast. lia.
  - intros Hnw.
    destruct (first_nearest_nonempty _ Hne) as (m' & Hf).
    destruct (first_nearest_least _ _ (prey_in_scope_sorted s p Hnw) Hf) as [Hm' Hleast'].
    unfold target_prey_pos. rewrite Hh, Hf.
    assert (m = m') as ->; [| done].
    apply (anti_symm tuple_le); auto.
  - vm_compute. done.
Qed.

(** The selection for the predator of [tie_env], whose neighbourhood does
    not wrap. *)
Lemma nearest_prey_selected_witness :
  prey_in_scope tie_env (2, 2) ≠ [] ∧
  target_prey_pos tie_env (2, 2) = snd <$> first_nearest (prey_in_scope tie_env (2, 2)).
Proof.
  assert (H : prey_in_scope tie_env (2, 2) ≠ []) by (vm_compute; discriminate).
  split; [exact H |].
  refine (proj1 (proj2 (nearest_prey_selected tie_env (2, 2) H)) _).
  unfold no_wrap; simpl; lia.
Defined.

(** ** Random placement never gives up (C5) *)

(** Induction on a tape, two draws at a time. *)
Lemma tape_ind (P : list nat → Prop) :
  P [] → (∀ r, P [r]) → (∀ r1 r2 tape, P tape → P (r1 :: r2 :: tape)) →
  ∀ tape, P tape.
Proof.
  intros H0 H1 H2. fix IH 1. intros [|r1 [|r2 tape]]; [done | done |].
  apply H2, IH.
Qed.

Lemma positive_range (gs : Z * Z) :
  0 < gs.1 → 0 < gs.2 → (gs.1 <? 1) || (gs.2 <? 1) = false.
Proof.
  intros H1 H2. by rewrite (proj2 (Z.ltb_ge _ _)), (proj2 (Z.ltb_ge _ _)) by lia.
Qed.

Lemma empty_range (gs : Z * Z) :
  gs.1 <= 0 ∨ gs.2 <= 0 → (gs.1 <? 1) || (gs.2 <? 1) = true.
Proof.
  intros [H | H]; apply orb_true_iff; [left | right]; apply Z.ltb_lt; lia.
Qed.

Lemma sample_empty_cons g gs r1 r2 tape :
  0 < gs.1 → 0 < gs.2 →
  sample_empty g gs (r1 :: r2 :: tape)
  = if is_zero (cell_at g (sample_pos gs r1 r2)) then Ok (sample_pos gs r1 r2, tape)
    else sample_empty g gs tape.
Proof. intros H1 H2. simpl. by rewrite positive_range. Qed.

(** [random.randint] rejects an empty range, whatever it would draw. *)
Lemma sample_empty_empty_range g gs tape :
  gs.1 <= 0 ∨ gs.2 <= 0 → sample_empty g gs tape = Raise ValueError.
Proof. intros H. destruct tape; simpl; by rewrite empty_range. Qed.

(** The search has no other error path. *)
Lemma sample_empty_Raise g gs tape e :
  sample_empty g gs tape = Raise e → e = ValueError ∧ (gs.1 <= 0 ∨ gs.2 <= 0).
Proof.
  destruct (decide (0 < gs.1 ∧ 0 < gs.2)) as [[H1 H2] | Hn].
  - induction tape as [| r | r1 r2 tape IH] using tape_ind.
    + simpl. by rewrite positive_range.
    + simpl. by rewrite positive_range.
    + rewrite sample_empty_cons by done. by destruct (is_zero _).
  - assert (Hz : gs.1 <= 0 ∨ gs.2 <= 0) by lia.
    rewrite (sample_empty_empty_range _ _ _ Hz). intros ?. by simplify_eq.
Qed.

Lemma sample_empty_no_raise g gs tape e :
  0 < gs.1 → 0 < gs.2 → sample_empty g gs tape ≠ Raise e.
Proof. intros H1 H2 H. apply sample_empty_Raise in H as [_ ?]. lia. Qed.

(** On a grid without an empty cell every tape is used up. *)
Lemma sample_empty_full g gs tape :
  0 < gs.1 → 0 < gs.2 →
  (∀ p, on_grid gs p → is_zero (cell_at g p) = false) →
  sample_empty g gs tape = OutOfDraws.
Proof.
  intros HW HH Hfull.
  induction tape as [| r | r1 r2 tape IH] using tape_ind.
  - simpl. by rewrite positive_range.
  - simpl. by rewrite positive_range.
  - rewrite sample_empty_cons by done. rewrite Hfull; [done |].
    unfold on_grid, sample_pos; simpl.
    split; apply Z.mod_pos_bound; done.
Qed.

(** Rejected samples are skipped, however many there are. *)
Lemma sample_empty_after_rejections g gs rejected r1 r2 rest :
  0 < gs.1 → 0 < gs.2 →
  Forall (fun r => is_zero (cell_at g (sample_pos gs r.1 r.2)) = false) rejected →
  is_zero (cell_at g (sample_pos gs r1 r2)) = true →
  sample_empty g gs (draws rejected ++ r1 :: r2 :: rest)
  = Ok (sample_pos gs r1 r2, rest).
Proof.
  intros H1 H2 Hrej Hok. induction Hrej as [| [a b] rejected Ha _ IH].
  - change (draws [] ++ r1 :: r2 :: rest) with (r1 :: r2 :: rest).
    rewrite sample_empty_cons by done. by rewrite Hok.
  - change (draws ((a, b) :: rejected) ++ r1 :: r2 :: rest)
      with (a :: b :: (draws rejected ++ r1 :: r2 :: rest)).
    rewrite sample_empty_cons by done. simpl in Ha. by rewrite Ha.
Qed.

(** What the search returns is an empty cell of the grid, and the tape only
    gets shorter. *)
Lemma sample_empty_Ok g gs tape p tape' :
  sample_empty g gs tape = Ok (p, tape') →
  is_zero (cell_at g p) = true ∧ (∃ r1 r2, p = sample_pos gs r1 r2) ∧
  (length tape' < length tape)%nat.
Proof.
  destruct (decide (0 < gs.1 ∧ 0 < gs.2)) as [[H1 H2] | Hn].
  2:{ assert (Hz : gs.1 <= 0 ∨ gs.2 <= 0) by lia.
      by rewrite (sample_empty_empty_range _ _ _ Hz). }
  induction tape as [| r | r1 r2 tape IH] using tape_ind.
  - simpl. by rewrite positive_range.
  - simpl. by rewrite positive_range.
  - rewrite sample_empty_cons by done.
    destruct (is_zero (cell_at g (sample_pos gs r1 r2))) eqn:E.
    + intros H; simplify_eq. split; [done |]. split; [eauto | simpl; lia].
    + intros H. destruct (IH H) as (? & ? & ?). split; [done |]. split; [done | simpl; lia].
Qed.

(** A search that returns ran on a grid with positive dimensions. *)
Lemma sample_empty_Ok_range g gs tape p tape' :
  sample_empty g gs tape = Ok (p, tape') → 0 < gs.1 ∧ 0 < gs.2.
Proof.
  intros H. destruct (decide (0 < gs.1 ∧ 0 < gs.2)) as [? | Hn]; [done |].
  assert (Hz : gs.1 <= 0 ∨ gs.2 <= 0) by lia.
  by rewrite (sample_empty_empty_range _ _ _ Hz) in H.
Qed.

Section NoRaise.
Variable initial_health : float.

Lemma reset_walls_frame n s tape s' tape' :
  reset_walls n s tape = Ok (s', tape') →
  grid_size s' = grid_size s ∧ predator_scope s' = predator_scope s.
Proof.
  revert s tape. induction n as [|n IH]; intros s tape H; simpl in H; [by simplify_eq |].
  destruct (sample_empty _ _ _) as [[p t]| e' |]; simpl in H; [| done | done].
  by apply IH in H.
Qed.

Lemma reset_agents_frame r i n s tape s' tape' :
  reset_agents initial_health r i n s tape = Ok (s', tape') →
  grid_size s' = grid_size s ∧ predator_scope s' = predator_scope s.
Proof.
  revert i s tape. induction n as [|n IH]; intros i s tape H; simpl in H;
    [by simplify_eq |].
  destruct (sample_empty _ _ _) as [[p t]| e' |]; simpl in H; [| done | done].
  by apply IH in H.
Qed.

Lemma reset_walls_no_raise n s tape e :
  0 < (grid_size s).1 → 0 < (grid_size s).2 → reset_walls n s tape ≠ Raise e.
Proof.
  revert s tape. induction n as [|n IH]; intros s tape H1 H2; [done |].
  simpl. destruct (sample_empty _ _ _) as [[p t]| e' |] eqn:E; simpl;
    [by apply IH | | done].
  by apply sample_empty_no_raise in E.
Qed.

Lemma reset_agents_no_raise r i n s tape e :
  0 < (grid_size s).1 → 0 < (grid_size s).2 →
  reset_agents initial_health r i n s tape ≠ Raise e.
Proof.
  revert i s tape. induction n as [|n IH]; intros i s tape H1 H2; [done |].
  simpl. destruct (sample_empty _ _ _) as [[p t]| e' |] eqn:E; simpl;
    [by apply IH | | done].
  by apply sample_empty_no_raise in E.
Qed.

Lemma spawn_no_raise r n s tape e :
  0 < (grid_size s).1 → 0 < (grid_size s).2 →
  spawn initial_health r n s tape ≠ Raise e.
Proof.
  revert s tape. induction n as [|n IH]; intros s tape H1 H2; [done |].
  simpl. destruct (sample_empty _ _ _) as [[p t]| e' |] eqn:E; simpl;
    [by apply IH | | done].
  by apply sample_empty_no_raise in E.
Qed.

Lemma reset_placement_no_raise s tape e :
  0 < (grid_size s).1 → 0 < (grid_size s).2 →
  reset_placement initial_health s tape ≠ Raise e.
Proof.
  intros H1 H2. unfold reset_placement.
  destruct (reset_walls _ _ _) as [[s1 t1]| e1 |] eqn:E1; simpl;
    [| by apply reset_walls_no_raise in E1 | done].
  apply reset_walls_frame in E1 as [Hg1 _]. simpl in Hg1.
  destruct (reset_agents _ predator _ _ _ _) as [[s2 t2]| e2 |] eqn:E2; simpl;
    [| apply reset_agents_no_raise in E2; [done | by rewrite Hg1 ..] | done].
  apply reset_agents_frame in E2 as [Hg2 _].
  apply reset_agents_no_raise; by rewrite Hg2, Hg1.
Qed.

Lemma reset_placement_frame s tape s' tape' :
  reset_placement initial_health s tape = Ok (s', tape') →
  grid_size s' = grid_size s ∧ predator_scope s' = predator_scope s.
Proof.
  intros H. unfold reset_placement in H.
  apply bind_Ok in H as ([s1 t1] & H1 & H).
  apply bind_Ok in H as ([s2 t2] & H2 & H3).
  apply reset_walls_frame in H1 as [? ?]. apply reset_agents_frame in H2 as [? ?].
  apply reset_agents_frame in H3 as [? ?]. simpl in *. split; congruence.
Qed.

(** The only exception of [reset] on a grid with positive dimensions is
    the [ValueError] of the observations for a negative scope. *)
Lemma reset_Raise s tape e :
  0 < (grid_size s).1 → 0 < (grid_size s).2 →
  reset initial_health s tape = Raise e → e = ValueError ∧ predator_scope s < 0.
Proof.
  intros H1 H2 H. rewrite reset_unfold in H.
  apply bind_Raise in H as [H | ([s1 t1] & Hp & H)];
    [by apply reset_placement_no_raise in H |].
  apply reset_placement_frame in Hp as [Hg Hs].
  apply bind_Raise in H as [H | (o & _ & H)]; [| done].
  apply observations_Raise in H as (-> & ? & _); [| rewrite Hg; lia ..].
  split; [done | by rewrite <- Hs].
Qed.

End NoRaise.

(** The second wall of [tiny_env] can never be placed. *)
Lemma tiny_env_never_placed tape : reset_placement 1 tiny_env tape = OutOfDraws.
Proof.
  destruct tape as [|r1 [|r2 tape]]; [reflexivity | reflexivity |].
  unfold reset_placement, tiny_env, init. simpl.
  replace (sample_pos (1, 1) r1 r2) with ((0, 0) : pos).
  2:{ unfold sample_pos; simpl. by rewrite !Z.mod_1_r. }
  change (is_zero (cell_at ∅ ((0, 0) : pos))) with true. cbn.
  rewrite (sample_empty_full (set_cell ∅ (0, 0) Wall) (1, 1) tape);
    [reflexivity | simpl; lia | simpl; lia |].
  intros [x y] [Hx Hy]; simpl in *.
  assert (x = 0) as -> by lia. assert (y = 0) as -> by lia. done.
Qed.

Lemma tiny_env_never_resets tape : reset 1 tiny_env tape = OutOfDraws.
Proof. by rewrite reset_unfold, tiny_env_never_placed. Qed.

(** C5, counterexample: on a 1x1 grid asked for two walls no number of
    draws lets [reset] finish, with a result or with an error. *)
Lemma reset_retries_forever :
  ¬ ∃ bound : nat, ∀ tape, (bound <= length tape)%nat →
      reset 1 tiny_env tape ≠ OutOfDraws.
Proof.
  intros [bound H]. apply (H (replicate bound 0%nat)).
  - by rewrite length_replicate.
  - apply tiny_env_never_resets.
Qed.

(** C5, amended: a random-placement search, as [reset] and
    [generate_new_agents] run it, retries until a sampled cell is empty.
    On a grid with positive dimensions it raises no error; after any number
    of samples that hit occupied cells it accepts the first sample that
    hits an empty cell; on a grid without an empty cell it never returns.
    Its only error is the [ValueError] of [random.randint] on a grid with
    a dimension that is not positive, raised at the first sample.  The
    placement loops of [reset] and the spawn loop raise nothing on a grid
    with positive dimensions, and the only exception of [reset] there is
    the [ValueError] of its observations for a negative scope. *)
Theorem placement_retries_until_empty (ih : float) (g : gmap pos Cell) (gs : Z * Z) :
  (∀ tape e, sample_empty g gs tape = Raise e →
             e = ValueError ∧ (gs.1 <= 0 ∨ gs.2 <= 0)) ∧
  (gs.1 <= 0 ∨ gs.2 <= 0 → ∀ tape, sample_empty g gs tape = Raise ValueError) ∧
  (0 < gs.1 → 0 < gs.2 →
   ∀ rejected r1 r2 rest,
     Forall (fun r => is_zero (cell_at g (sample_pos gs r.1 r.2)) = false) rejected →
     is_zero (cell_at g (sample_pos gs r1 r2)) = true →
     sample_empty g gs (draws rejected ++ r1 :: r2 :: rest)
     = Ok (sample_pos gs r1 r2, rest)) ∧
  (0 < gs.1 → 0 < gs.2 →
   (∀ p, on_grid gs p → is_zero (cell_at g p) = false) →
   ∀ tape, sample_empty g gs tape = OutOfDraws) ∧
  (∀ s tape e, 0 < (grid_size s).1 → 0 < (grid_size s).2 →
     reset_placement ih s tape ≠ Raise e ∧
     (reset ih s tape = Raise e → e = ValueError ∧ predator_scope s < 0)) ∧
  (∀ r n s tape e, 0 < (grid_size s).1 → 0 < (grid_size s).2 →
     spawn ih r n s tape ≠ Raise e).
Proof.
  split; [intros tape e H; by apply (sample_empty_Raise g gs tape) |].
  split; [intros; by apply sample_empty_empty_range |].
  split; [intros; by apply sample_empty_after_rejections |].
  split; [intros; by apply sample_empty_full |].
  split; [| intros; by apply spawn_no_raise].
  intros s tape e H1 H2. split; [by apply reset_placement_no_raise |].
  by apply reset_Raise.
Qed.

(** Three samples of the wall cell [(0, 0)] of a 2x2 grid are rejected, the
    fourth sample, [(1, 0)], is accepted. *)
Lemma placement_retries_until_empty_witness :
  sample_empty (set_cell ∅ (0, 0) Wall) (2, 2)
    (draws [(0, 0); (2, 0); (4, 2)]%nat ++ 1%nat :: 0%nat :: [7%nat])
  = Ok ((1, 0), [7%nat]).
Proof.
  refine (proj1 (proj2 (proj2 (placement_retries_until_empty 1
                                 (set_cell ∅ (0, 0) Wall) (2, 2))))
            _ _ [(0, 0); (2, 0); (4, 2)]%nat 1%nat 0%nat [7%nat] _ _).
  - simpl; lia.
  - simpl; lia.
  - repeat constructor.
  - reflexivity.
Defined.

(** ** Frame properties of the phases *)

Lemma dict_get_Ok {V} (d : gmap string V) k v : dict_get d k = Ok v → d !! k = Some v.
Proof. unfold dict_get. destruct (d !! k); naive_solver. Qed.

Lemma same_ids_trans o1 o2 o3 : same_ids o1 o2 → same_ids o2 o3 → same_ids o1 o3.
Proof. intros H1 H2 h. destruct (H1 h), (H2 h). split; congruence. Qed.

Lemma same_ids_insert o h a :
  id a = id (o h) → role a = role (o h) → same_ids o (<[h := a]> o).
Proof.
  intros Hi Hr h'. destruct (decide (h = h')) as [<- | Hne].
  - by rewrite fn_lookup_insert.
  - by rewrite fn_lookup_insert_ne.
Qed.

Lemma filter_same_role (o o' : nat → Agent) r (l : list nat) :
  same_ids o o' →
  filter (fun h => role (o' h) = r) l = filter (fun h => role (o h) = r) l.
Proof.
  intros H. apply list_filter_iff. intros h. destruct (H h) as [_ ->]. done.
Qed.

Lemma remove_first_subseteq x l : remove_first x l ⊆ l.
Proof.
  induction l as [|y l IH]; simpl; [done |].
  case_decide; set_solver.
Qed.

Lemma remove_first_length x l : (length l <= length (remove_first x l) + 1)%nat.
Proof.
  induction l as [|y l IH]; simpl; [lia |].
  destruct (decide (y = x)); simpl; lia.
Qed.

Lemma remove_first_NoDup x l : NoDup l → NoDup (remove_first x l) ∧ x ∉ remove_first x l.
Proof.
  induction 1 as [|y l Hy Hl IH]; simpl.
  - split; [constructor | apply not_elem_of_nil].
  - destruct (decide (y = x)) as [-> | Hne]; [done |].
    destruct IH as [IH1 IH2]. split.
    + constructor; [| done]. intros Hin. apply Hy. by apply remove_first_subseteq in Hin.
    + intros [? | ?]%elem_of_cons; congruence.
Qed.

(** *** Movement *)

Lemma plan_moves_lookup s actions l acc np :
  plan_moves s actions l acc = Ok np →
  ∀ k p, np !! k = Some p →
    (acc !! k = Some p ∧ ∀ h, h ∈ l → id (objs s h) ≠ k) ∨
    ∃ h action, h ∈ l ∧ id (objs s h) = k ∧ actions !! k = Some action ∧
      p = resolve (grid s) (grid_size s) (position (objs s h)) action.
Proof.
  revert acc. induction l as [|h l IH]; intros acc H k p Hk; simpl in H.
  - simplify_eq. left. split; [done |]. by intros h ?%elem_of_nil.
  - apply bind_Ok in H as (action & Ha & H). apply dict_get_Ok in Ha.
    destruct (IH _ H k p Hk) as [[Hacc Hno] | (h' & a' & Hh' & ? & ? & ?)].
    + destruct (decide (id (objs s h) = k)) as [<- | Hne].
      * rewrite lookup_insert_eq in Hacc. simplify_eq.
        right. exists h, action. split; [by left | done].
      * rewrite lookup_insert_ne in Hacc by done. left. split; [done |].
        intros h' [-> | ?]%elem_of_cons; auto.
    + right. exists h', a'. split; [by right | done].
Qed.

Lemma cell_at_set_cell g p c q :
  cell_at (set_cell g p c) q = if decide (p = q) then c else cell_at g q.
Proof.
  unfold cell_at, set_cell. destruct (decide (p = q)) as [-> | Hne].
  - by rewrite lookup_insert_eq.
  - by rewrite lookup_insert_ne.
Qed.

Lemma cell_at_place_walls g walls q :
  cell_at (place_walls g walls) q = if decide (q ∈ walls) then Wall else cell_at g q.
Proof.
  revert g. induction walls as [|w walls IH]; intros g.
  - case_decide as Hin; [by apply elem_of_nil in Hin | done].
  - change (place_walls g (w :: walls)) with (place_walls (set_cell g w Wall) walls).
    rewrite IH, cell_at_set_cell. repeat case_decide; set_solver.
Qed.

Lemma write_agents_spec np l g o g' o' :
  write_agents np l g o = Ok (g', o') →
  same_ids o o' ∧
  (∀ h, health (o' h) = health (o h)) ∧
  (∀ h, h ∉ l → o' h = o h) ∧
  (∀ h, h ∈ l → np !! id (o h) = Some (position (o' h))) ∧
  (∀ q, cell_at g' q = Wall → cell_at g q = Wall) ∧
  (∀ q, cell_at g q = Wall → (∀ k, np !! k ≠ Some q) → cell_at g' q = Wall).
Proof.
  revert g o. induction l as [|h l IH]; intros g o H; simpl in H.
  - simplify_eq. repeat split; try done. by intros h ?%elem_of_nil.
  - apply bind_Ok in H as (p & Hp & H). apply dict_get_Ok in Hp.
    destruct (IH _ _ H) as (Hid & Hh & Hout & Hin & Hw1 & Hw2).
    assert (Hid0 : same_ids o (<[h := set_position (o h) p]> o))
      by (by apply same_ids_insert).
    split; [by eapply same_ids_trans |].
    split; [| split; [| split; [| split]]].
    + intros h'. rewrite Hh. destruct (decide (h = h')) as [<- | Hne].
      * by rewrite fn_lookup_insert.
      * by rewrite fn_lookup_insert_ne.
    + intros h' Hh'. rewrite Hout by set_solver.
      rewrite fn_lookup_insert_ne; [done | set_solver].
    + intros h' Hh'. destruct (decide (h' ∈ l)) as [Hl | Hl].
      * specialize (Hin h' Hl). destruct (Hid0 h') as [<- _]. done.
      * assert (h' = h) as -> by set_solver.
        rewrite Hout by done. rewrite fn_lookup_insert. done.
    + intros q Hq. apply Hw1 in Hq. rewrite cell_at_set_cell in Hq.
      by destruct (decide (p = q)).
    + intros q Hq Hnp. apply Hw2; [| done].
      rewrite cell_at_set_cell. destruct (decide (p = q)) as [-> | ]; [| done].
      by destruct (Hnp _ Hp).
Qed.

Lemma agents_move_frame s actions s1 :
  agents_move s actions = Ok s1 →
  agents s1 = agents s ∧ walls_positions s1 = walls_positions s ∧
  grid_size s1 = grid_size s ∧ predator_scope s1 = predator_scope s ∧
  next_obj s1 = next_obj s ∧
  max_num_predators s1 = max_num_predators s ∧ max_num_preys s1 = max_num_preys s ∧
  same_ids (objs s) (objs s1).
Proof.
  unfold agents_move. intros H.
  apply bind_Ok in H as (np & Hnp & H). apply bind_Ok in H as ([g o] & Hw & H).
  simplify_eq. simpl. repeat split; try done.
  all: by destruct (write_agents_spec _ _ _ _ _ _ Hw) as (Hid & _); destruct (Hid h).
Qed.

(** *** Hunting and hunger only remove agents and clear their cells *)

Lemma remove_first_sublist x l : remove_first x l `sublist_of` l.
Proof.
  induction l as [|y l IH]; simpl; [done |].
  case_decide; [by apply sublist_cons | by apply sublist_skip].
Qed.

Lemma shrinks_refl s : shrinks s s.
Proof. unfold shrinks. repeat split; try done. intros q. by left. Qed.

Lemma shrinks_trans s1 s2 s3 : shrinks s1 s2 → shrinks s2 s3 → shrinks s1 s3.
Proof.
  intros (Hw & Hg & Hs & Hn & Hm1 & Hm2 & Hhg & Hid & Hp & Ha & Hc)
         (Hw' & Hg' & Hs' & Hn' & Hm1' & Hm2' & Hhg' & Hid' & Hp' & Ha' & Hc').
  unfold shrinks. repeat split; try congruence.
  - by destruct (Hid h), (Hid' h); congruence.
  - by destruct (Hid h), (Hid' h); congruence.
  - by etrans.
  - intros q. destruct (Hc' q) as [-> | (-> & h & Hh & Hq)]; [apply Hc |].
    right. split; [done |]. exists h. split.
    + by eapply elem_of_sublist.
    + by rewrite <- Hp.
Qed.

Lemma ids_shrinks s s' : shrinks s s' → ids s' ⊆ ids s.
Proof.
  intros (_ & _ & _ & _ & _ & _ & _ & Hid & _ & Ha & _). unfold ids.
  intros k (h & -> & Hh)%elem_of_list_to_set%list_elem_of_fmap.
  apply elem_of_list_to_set, list_elem_of_fmap. exists h.
  split; [by destruct (Hid h) | by eapply elem_of_sublist].
Qed.

Lemma id_in_ids s h : h ∈ agents s → id (objs s h) ∈ ids s.
Proof.
  intros Hh. apply elem_of_list_to_set, list_elem_of_fmap. eauto.
Qed.

Lemma kill_spec h target s r d st' :
  kill h target (s, r, d) = Ok st' →
  st' = (s, r, d) ∨
  ∃ i v r',
    list_find (fun v => position (objs s v) = target) (agents s) = Some (i, v) ∧
    dom r' = dom r ∧
    st' = (with_objs
             (with_grid (with_agents s (remove_first v (agents s)))
                        (set_cell (grid s) target Empty))
             (<[h := add_health (objs s h) (health_gained s)]> (objs s)),
           r', <[id (objs s v) := true]> d).
Proof.
  unfold kill. destruct (list_find _ _) as [[i v]|] eqn:Ef;
    [| intros H; left; congruence].
  intros H. apply bind_Ok in H as (x & Hx & H). apply bind_Ok in H as (y & Hy & H).
  apply dict_get_Ok in Hx, Hy. right.
  exists i, v, (<[id (objs s v) := y + -1]> (<[id (objs s h) := x + 1]> r)).
  split; [done |]. split; [| by simplify_eq].
  rewrite !dom_insert_L.
  apply (elem_of_dom_2 (D := gset string)) in Hx.
  apply (elem_of_dom_2 (D := gset string)) in Hy.
  rewrite dom_insert_L in Hy. revert Hx Hy.
  generalize (id (objs s v)) (id (objs s h)). clear. set_solver.
Qed.

Lemma hunt_one_spec h st st' :
  hunt_one h st = Ok st' →
  st' = st ∨
  ∃ i v r',
    target_prey_pos st.1.1 (position (objs st.1.1 h)) = Some (position (objs st.1.1 v)) ∧
    list_find (fun w => position (objs st.1.1 w) = position (objs st.1.1 v))
              (agents st.1.1) = Some (i, v) ∧
    dom r' = dom st.1.2 ∧
    st' = (with_objs
             (with_grid (with_agents st.1.1 (remove_first v (agents st.1.1)))
                        (set_cell (grid st.1.1) (position (objs st.1.1 v)) Empty))
             (<[h := add_health (objs st.1.1 h) (health_gained st.1.1)]> (objs st.1.1)),
           r', <[id (objs st.1.1 v) := true]> st.2).
Proof.
  destruct st as [[s r] d]. unfold hunt_one. simpl.
  destruct (target_prey_pos _ _) as [target|] eqn:Et;
    [| intros H; left; congruence].
  intros H. apply kill_spec in H as [-> | (i & v & r' & Hf & Hd & ->)]; [by left |].
  right. exists i, v, r'.
  pose proof Hf as Hf'. apply list_find_Some in Hf' as (_ & <- & _). done.
Qed.

Lemma hunt_one_shrinks h st st' :
  hunt_one h st = Ok st' →
  shrinks st.1.1 st'.1.1 ∧ dom st'.1.2 = dom st.1.2 ∧
  dom st.2 ⊆ dom st'.2 ∧ dom st'.2 ⊆ dom st.2 ∪ ids st.1.1 ∧
  (length (agents st.1.1) <= length (agents st'.1.1) + 1)%nat.
Proof.
  intros H. apply hunt_one_spec in H as [-> | (i & v & r' & _ & Hf & Hd & ->)].
  - split; [apply shrinks_refl |]. repeat split; try done; [set_solver | lia].
  - apply list_find_Some in Hf as (Hv%list_elem_of_lookup_2 & _ & _).
    destruct st as [[s r] d]; simpl in *.
    split; [| split; [done | split; [| split]]].
    + unfold shrinks; simpl. repeat split; try done.
      * destruct (decide (h = h0)) as [<- | ?];
          [by rewrite fn_lookup_insert | by rewrite fn_lookup_insert_ne].
      * destruct (decide (h = h0)) as [<- | ?];
          [by rewrite fn_lookup_insert | by rewrite fn_lookup_insert_ne].
      * intros h'. destruct (decide (h = h')) as [<- | ?];
          [by rewrite fn_lookup_insert | by rewrite fn_lookup_insert_ne].
      * apply remove_first_sublist.
      * intros q. rewrite cell_at_set_cell. case_decide as Hq; [| by left].
        right. split; [done |]. eauto.
    + rewrite dom_insert_L. set_solver.
    + rewrite dom_insert_L. pose proof (id_in_ids s v Hv). set_solver.
    + apply remove_first_length.
Qed.

Lemma hunting_loop_shrinks l st st' :
  hunting_loop l st = Ok st' →
  shrinks st.1.1 st'.1.1 ∧ dom st'.1.2 = dom st.1.2 ∧
  dom st.2 ⊆ dom st'.2 ∧ dom st'.2 ⊆ dom st.2 ∪ ids st.1.1 ∧
  (length (agents st.1.1) <= length (agents st'.1.1) + length l)%nat.
Proof.
  revert st. induction l as [|h l IH]; intros st H; simpl in H.
  - simplify_eq. split; [apply shrinks_refl |]. repeat split; try done; [set_solver | lia].
  - apply bind_Ok in H as (st1 & H1 & H).
    apply hunt_one_shrinks in H1 as (Hs1 & Hr1 & Hd1 & Hd1' & Hl1).
    apply IH in H as (Hs & Hr & Hd & Hd' & Hl).
    split; [by eapply shrinks_trans |]. split; [congruence |].
    split; [set_solver |]. split.
    + pose proof (ids_shrinks _ _ Hs1). set_solver.
    + simpl. lia.
Qed.

Lemma hunger_one_shrinks s0 st h :
  h ∈ agents s0 → shrinks s0 st.1 →
  shrinks s0 (hunger_one st h).1 ∧
  dom st.2 ⊆ dom (hunger_one st h).2 ∧
  dom (hunger_one st h).2 ⊆ dom st.2 ∪ ids s0.
Proof.
  destruct st as [s d]. simpl. intros Hh Hs0.
  pose proof Hs0 as (Hw & Hg & Hsc & Hn & Hm1 & Hm2 & Hhg & Hid0 & Hp0 & Ha & Hc).
  unfold hunger_one. set (a := add_health (objs s h) _).
  assert (Hid : same_ids (objs s0) (<[h := a]> (objs s))).
  { eapply same_ids_trans; [done |]. by apply same_ids_insert. }
  assert (Hp : ∀ h', position ((<[h := a]> (objs s)) h') = position (objs s0 h')).
  { intros h'. rewrite <- Hp0. destruct (decide (h = h')) as [<- | ?];
      [by rewrite fn_lookup_insert | by rewrite fn_lookup_insert_ne]. }
  assert (Hia : id a = id (objs s0 h)) by (destruct (Hid0 h); done).
  destruct (PrimFloat.leb _ _); simpl.
  - split; [| split].
    + unfold shrinks; simpl. repeat split; try done; try apply Hid.
      * etrans; [apply remove_first_sublist | done].
      * intros q. rewrite cell_at_set_cell. case_decide as Hq; [| apply Hc].
        right. split; [done |]. exists h. split; [done |].
        rewrite <- Hq. unfold a; simpl. by rewrite Hp0.
    + rewrite dom_insert_L. set_solver.
    + rewrite dom_insert_L. change (id (objs s h)) with (id a). rewrite Hia.
      pose proof (id_in_ids s0 h Hh) as Hin. revert Hin. generalize (id (objs s0 h)). clear. set_solver.
  - split; [| split; set_solver].
    unfold shrinks; simpl. repeat split; try done; apply Hid.
Qed.

Lemma hunger_loop_shrinks s0 l st :
  l ⊆ agents s0 → shrinks s0 st.1 →
  shrinks s0 (foldl hunger_one st l).1 ∧
  dom st.2 ⊆ dom (foldl hunger_one st l).2 ∧
  dom (foldl hunger_one st l).2 ⊆ dom st.2 ∪ ids s0.
Proof.
  revert st. induction l as [|h l IH]; intros st Hl Hs0; simpl.
  - split; [done | set_solver].
  - destruct (hunger_one_shrinks s0 st h) as (Hs1 & Hd1 & Hd1'); [set_solver | done |].
    destruct (IH (hunger_one st h)) as (Hs & Hd & Hd'); [set_solver | done |].
    split; [done |]. split; set_solver.
Qed.

Lemma predator_hunger_shrinks s d :
  shrinks s (predator_hunger s d).1 ∧
  dom d ⊆ dom (predator_hunger s d).2 ∧
  dom (predator_hunger s d).2 ⊆ dom d ∪ ids s.
Proof.
  apply (hunger_loop_shrinks s (by_role s predator) (s, d)).
  - unfold by_role. intros h Hh. by apply list_elem_of_filter in Hh as [_ ?].
  - apply shrinks_refl.
Qed.

(** ** Spawning (C4, C10) *)

Lemma filter_ext_in {A} (P Q : A → Prop) `{!∀ x, Decision (P x), !∀ x, Decision (Q x)}
    (l : list A) :
  (∀ x, x ∈ l → P x ↔ Q x) → filter P l = filter Q l.
Proof.
  induction l as [|x l IH]; intros Hl; [done |].
  rewrite !filter_cons. rewrite IH by (intros; apply Hl; by right).
  destruct (decide (P x)) as [HP | HP], (decide (Q x)) as [HQ | HQ]; try done.
  - destruct HQ. apply Hl; [by left | done].
  - destruct HP. apply Hl; [by left | done].
Qed.

Section Spawn.
Variable initial_health : float.

Lemma by_role_create s aid r p r' :
  allocated s →
  by_role (create initial_health s aid r p) r'
  = by_role s r' ++ (if decide (r = r') then [next_obj s] else []).
Proof.
  intros Hal. unfold by_role, create. simpl. rewrite filter_app. f_equal.
  - apply filter_ext_in. intros h Hh.
    unfold allocated in Hal. rewrite Forall_forall in Hal. specialize (Hal h Hh).
    rewrite fn_lookup_insert_ne; [done | lia].
  - rewrite filter_cons, filter_nil, fn_lookup_insert. simpl.
    destruct (decide (r = r')), (decide (r = r')); done.
Qed.

Lemma allocated_create s aid r p :
  allocated s → allocated (create initial_health s aid r p).
Proof.
  unfold allocated, create. simpl. intros H. apply Forall_app. split.
  - eapply Forall_impl; [done |]. simpl. lia.
  - repeat constructor.
Qed.

Lemma spawn_spec r n s tape s' tape' :
  allocated s →
  spawn initial_health r n s tape = Ok (s', tape') →
  allocated s' ∧
  length (by_role s' r) = (length (by_role s r) + n)%nat ∧
  (∀ r', r' ≠ r → by_role s' r' = by_role s r') ∧
  max_num_predators s' = max_num_predators s ∧
  max_num_preys s' = max_num_preys s.
Proof.
  revert s tape. induction n as [|n IH]; intros s tape Hal H; simpl in H.
  - simplify_eq. repeat split; try done; lia.
  - apply bind_Ok in H as ([p t] & Hp & H).
    apply IH in H as (Hal' & Hlen & Hoth & Hm1 & Hm2); [| by apply allocated_create].
    split; [done |]. split; [| split; [| done]].
    + rewrite Hlen, by_role_create by done. rewrite decide_True by done.
      rewrite length_app. simpl. lia.
    + intros r' Hr'. rewrite Hoth, by_role_create by done.
      rewrite decide_False by done. by rewrite app_nil_r.
Qed.

(** The number of agents [generate_new_agents] adds, role by role. *)
Lemma generate_new_agents_counts s p_predator p_prey tape s' tape' :
  allocated s →
  generate_new_agents initial_health s p_predator p_prey tape = Ok (s', tape') →
  ∃ k_predator k_prey,
    new_count (length (by_role s predator)) (max_num_predators s) p_predator
      = Ok k_predator ∧
    new_count (length (by_role s prey)) (max_num_preys s) p_prey = Ok k_prey ∧
    length (by_role s' predator)
      = (length (by_role s predator) + Z.to_nat k_predator)%nat ∧
    length (by_role s' prey) = (length (by_role s prey) + Z.to_nat k_prey)%nat.
Proof.
  intros Hal H. unfold generate_new_agents in H.
  apply bind_Ok in H as (kp & Hkp & H). apply bind_Ok in H as (ky & Hky & H).
  apply bind_Ok in H as ([s1 t1] & H1 & H2).
  apply spawn_spec in H1 as (Hal1 & Hl1 & Ho1 & _); [| done].
  apply spawn_spec in H2 as (_ & Hl2 & Ho2 & _); [| done].
  exists kp, ky. split; [done |]. split; [done |]. split.
  - by rewrite Ho2, Hl1.
  - by rewrite Hl2, Ho1.
Qed.

End Spawn.

Lemma growth_Ok n p k : growth n p = Ok k → ∃ c, ceil (PrimFloat.mul (float_of_nat n) p) = Ok c ∧ k = Z.max 1 c.
Proof.
  unfold growth. intros H. apply bind_Ok in H as (c & Hc & H). exists c. by simplify_eq.
Qed.

(** [spawn] returns when the tape samples pairwise distinct empty cells;
    it fills exactly those cells. *)
Lemma spawn_total (ih : float) r (cells : list (nat * nat)) s rest :
  0 < (grid_size s).1 → 0 < (grid_size s).2 →
  NoDup ((fun c => sample_pos (grid_size s) c.1 c.2) <$> cells) →
  Forall (fun c => cell_at (grid s) (sample_pos (grid_size s) c.1 c.2) = Empty) cells →
  ∃ s', spawn ih r (length cells) s (draws cells ++ rest) = Ok (s', rest) ∧
        grid_size s' = grid_size s ∧
        ∀ q, q ∉ (fun c => sample_pos (grid_size s) c.1 c.2) <$> cells →
             cell_at (grid s') q = cell_at (grid s) q.
Proof.
  revert s. induction cells as [|[a b] cells IH]; intros s Hd1 Hd2 Hnd Hall.
  - exists s. done.
  - rewrite fmap_cons in Hnd. apply NoDup_cons in Hnd as [Hab Hnd].
    apply Forall_cons in Hall as [Hc Hall]. simpl in Hc, Hab.
    change (draws ((a, b) :: cells) ++ rest) with (a :: b :: draws cells ++ rest).
    cbn [length spawn]. rewrite sample_empty_cons by done. rewrite Hc. simpl.
    set (s1 := create ih s _ r _).
    destruct (IH s1) as (s' & Hs' & Hg & Hq); [done | done | done | |].
    + rewrite Forall_forall in Hall. apply Forall_forall. intros c Hin.
      unfold s1, create; simpl. rewrite cell_at_set_cell.
      rewrite decide_False; [by apply Hall |].
      intros Heq. apply Hab. rewrite Heq. apply list_elem_of_fmap. eauto.
    + exists s'. split; [done |]. split; [done |].
      intros q Hnin. apply not_elem_of_cons in Hnin as [Hne Hnin].
      rewrite Hq by done. unfold s1, create; simpl.
      rewrite cell_at_set_cell. by rewrite decide_False.
Qed.

Lemma by_role_crowd n :
  by_role (crowd n) predator = seq 0 n ∧ by_role (crowd n) prey = [].
Proof.
  unfold by_role, crowd; simpl. split.
  - induction (seq 0 n) as [|h l IH]; [done |]. rewrite filter_cons_True by done.
    by rewrite IH.
  - induction (seq 0 n) as [|h l IH]; [done |]. by rewrite filter_cons_False.
Qed.

(** The cells of row 100 are empty while the crowd fills less than 100 rows. *)
Lemma crowd_row_100_empty n j :
  Z.of_nat n <= 60000 → cell_at (grid (crowd n)) (100, j) = Empty.
Proof.
  intros Hn. unfold cell_at, crowd; simpl.
  rewrite not_elem_of_list_to_map_1; [done |].
  rewrite <- list_fmap_compose.
  intros (h & Heq & Hh%elem_of_seq)%list_elem_of_fmap. simpl in Heq.
  injection Heq as Hdiv _.
  assert (Z.of_nat h < 60000) by lia.
  assert (Z.of_nat h / 600 < 100) by (apply Z.div_lt_upper_bound; lia).
  lia.
Qed.

(** The crowd can always grow along row 100. *)
Lemma crowd_grows (ih : float) n k_predator k_prey :
  Z.of_nat n <= 60000 →
  new_count n 10000 0.003 = Ok k_predator →
  new_count 0 10000 0.006 = Ok k_prey →
  (Z.to_nat k_predator + Z.to_nat k_prey <= 600)%nat →
  is_Ok (generate_new_agents ih (crowd n) 0.003 0.006
           (row_100 (Z.to_nat k_predator + Z.to_nat k_prey))) = true.
Proof.
  intros Hn Hkp Hky Hfit. unfold generate_new_agents.
  destruct (by_role_crowd n) as [-> ->]. rewrite length_seq.
  change (max_num_predators (crowd n)) with 10000.
  change (max_num_preys (crowd n)) with 10000.
  simpl length. rewrite Hkp, Hky. simpl.
  set (cp := (fun j : nat => (100%nat, j)) <$> seq 0 (Z.to_nat k_predator)).
  set (cy := (fun j : nat => (100%nat, j)) <$> seq (Z.to_nat k_predator) (Z.to_nat k_prey)).
  assert (Htape : row_100 (Z.to_nat k_predator + Z.to_nat k_prey)
                  = draws cp ++ draws cy ++ []).
  { unfold row_100, draws, cp, cy. rewrite seq_app, fmap_app, bind_app.
    by rewrite app_nil_r. }
  assert (Hpos : ∀ j : nat, (j < 600)%nat →
                   sample_pos (600, 600) 100 j = (100, Z.of_nat j)).
  { intros j Hj. unfold sample_pos; simpl. f_equal. apply Z.mod_small. lia. }
  assert (Hcells : ∀ a m, (a + m <= 600)%nat →
     (fun c : nat * nat => sample_pos (600, 600) c.1 c.2)
       <$> ((fun j : nat => (100%nat, j)) <$> seq a m)
     = (fun j : nat => ((100, Z.of_nat j) : pos)) <$> seq a m).
  { intros a m Ham. rewrite <- list_fmap_compose. apply list_fmap_ext.
    intros i j Hj%list_elem_of_lookup_2%elem_of_seq. simpl. apply Hpos. lia. }
  rewrite Htape.
  destruct (spawn_total ih predator cp (crowd n) (draws cy ++ [])) as (s1 & H1 & Hg1 & Hq1).
  { change (grid_size (crowd n)) with ((600, 600) : Z * Z). simpl. lia. }
  { change (grid_size (crowd n)) with ((600, 600) : Z * Z). simpl. lia. }
  { change (grid_size (crowd n)) with ((600, 600) : Z * Z). unfold cp.
    rewrite Hcells by lia. apply NoDup_fmap_2; [| apply NoDup_seq].
    intros i j Hij. injection Hij. lia. }
  { apply Forall_forall. intros c (j & -> & Hj%elem_of_seq)%list_elem_of_fmap.
    change (grid_size (crowd n)) with ((600, 600) : Z * Z). simpl.
    rewrite Hpos by lia. by apply crowd_row_100_empty. }
  unfold cp in H1 at 1. rewrite length_fmap, length_seq in H1. rewrite H1. simpl.
  destruct (spawn_total ih prey cy s1 []) as (s2 & H2 & _).
  { rewrite Hg1. change (grid_size (crowd n)) with ((600, 600) : Z * Z). simpl. lia. }
  { rewrite Hg1. change (grid_size (crowd n)) with ((600, 600) : Z * Z). simpl. lia. }
  { rewrite Hg1. change (grid_size (crowd n)) with ((600, 600) : Z * Z). unfold cy.
    rewrite Hcells by lia. apply NoDup_fmap_2; [| apply NoDup_seq].
    intros i j Hij. injection Hij. lia. }
  { apply Forall_forall. intros c (j & -> & Hj%elem_of_seq)%list_elem_of_fmap.
    rewrite Hg1. change (grid_size (crowd n)) with ((600, 600) : Z * Z). simpl.
    rewrite Hpos by lia. rewrite Hq1; [by apply crowd_row_100_empty |].
    change (grid_size (crowd n)) with ((600, 600) : Z * Z). unfold cp.
    rewrite Hcells by lia.
    intros (i & Heq & Hi%elem_of_seq)%list_elem_of_fmap. injection Heq. lia. }
  unfold cy in H2 at 1. rewrite length_fmap, length_seq in H2. rewrite H2. done.
Qed.

(** C4, counterexample: 9999 predators (below the cap of 10000) on the
    600x600 grid grow by [max(1, ceil(9999 * 0.003)) = 30], to 10029. *)
Lemma cap_overshoot :
  ∃ s' tape',
    generate_new_agents 1 (crowd 9999) 0.003 0.006 (row_100 31) = Ok (s', tape') ∧
    Z.of_nat (length (by_role (crowd 9999) predator)) <= max_num_predators (crowd 9999) ∧
    max_num_predators (crowd 9999) < Z.of_nat (length (by_role s' predator)).
Proof.
  assert (Hkp : new_count 9999 10000 0.003 = Ok 30) by (vm_compute; reflexivity).
  assert (Hky : new_count 0 10000 0.006 = Ok 1) by (vm_compute; reflexivity).
  assert (H9 : Z.of_nat 9999 = 9999) by (vm_compute; reflexivity).
  pose proof (crowd_grows 1 9999 30 1 ltac:(lia) Hkp Hky ltac:(simpl; lia)) as Hok.
  change (Z.to_nat 30 + Z.to_nat 1)%nat with 31%nat in Hok.
  destruct (generate_new_agents 1 (crowd 9999) 0.003 0.006 (row_100 31)) as [[s' t'] | |] eqn:E.
  2,3: discriminate Hok.
  exists s', t'. 
  split; [reflexivity |].
  assert (Hal : allocated (crowd 9999)).
  { unfold allocated, crowd. cbn [agents next_obj]. apply Forall_forall. intros h Hh%elem_of_seq. lia. }
  apply generate_new_agents_counts in E as (kp & ky & Hkp' & _ & Hlen & _); [| done].
  destruct (by_role_crowd 9999) as [Hb _]. 
  rewrite Hb in *. rewrite length_seq in *.
  change (max_num_predators (crowd 9999)) with 10000 in *.
  rewrite Hkp in Hkp'. injection Hkp' as <-. rewrite Hlen. 
  rewrite Nat2Z.inj_add, H9. change (Z.of_nat (Z.to_nat 30)) with 30. lia.
Qed.

(** The growth of one role in [generate_new_agents]. *)
Lemma role_growth (ih : float) (s : Env) (p_predator p_prey : float)
    (tape : list nat) (s' : Env) (tape' : list nat) (r : Role) :
  allocated s →
  generate_new_agents ih s p_predator p_prey tape = Ok (s', tape') →
  let n := length (by_role s r) in
  let p := match r with predator => p_predator | prey => p_prey end in
  (cap s r <= Z.of_nat n → length (by_role s' r) = n) ∧
  (Z.of_nat n < cap s r →
   ∃ c, ceil (PrimFloat.mul (float_of_nat n) p) = Ok c ∧
        Z.of_nat (length (by_role s' r)) = Z.of_nat n + Z.max 1 c).
Proof.
  intros Hal H n p.
  apply generate_new_agents_counts in H as (kp & ky & Hkp & Hky & Hlp & Hly); [| done].
  assert (Hk : ∃ k, new_count n (cap s r) p = Ok k ∧
                    length (by_role s' r) = (n + Z.to_nat k)%nat).
  { destruct r; [exists kp | exists ky]; done. }
  destruct Hk as (k & Hk & Hl). unfold new_count in Hk. split; intros Hc.
  - rewrite (proj2 (Z.ltb_ge _ _)) in Hk by done. simplify_eq. rewrite Hl. simpl. lia.
  - rewrite (proj2 (Z.ltb_lt _ _)) in Hk by done.
    apply growth_Ok in Hk as (c & Hc' & ->). exists c. split; [done |]. lia.
Qed.

(** C4, amended: a role whose pre-spawn live count [n] is at or above its
    cap does not grow; a role below its cap grows by
    [max(1, ceil(n * p))], which is not clamped to the cap. *)
Theorem spawn_respects_gate (ih : float) (s : Env) (p_predator p_prey : float)
    (tape : list nat) (s' : Env) (tape' : list nat) (r : Role) :
  well_formed s → allocated s →
  generate_new_agents ih s p_predator p_prey tape = Ok (s', tape') →
  let n := length (by_role s r) in
  let p := match r with predator => p_predator | prey => p_prey end in
  (cap s r <= Z.of_nat n → length (by_role s' r) = n) ∧
  (Z.of_nat n < cap s r →
   ∃ c, ceil (PrimFloat.mul (float_of_nat n) p) = Ok c ∧
        Z.of_nat (length (by_role s' r)) = Z.of_nat n + Z.max 1 c).
Proof.
  intros _ Hal H n p. split.
  - intros Hc. by apply (role_growth ih s p_predator p_prey tape s' tape' r Hal H).
  - intros Hc.
    destruct (role_growth ih s p_predator p_prey tape s' tape' r Hal H) as [_ Hgrow].
    destruct (Hgrow Hc) as (c & Hceil & Hlen). exists c. by split.
Qed.

(** With no predator alive and the cap at 10000, one predator is added. *)
Lemma spawn_respects_gate_witness :
  ∃ c, ceil (PrimFloat.mul (float_of_nat 0) 0.003) = Ok c ∧
       Z.of_nat (length (by_role
         (match generate_new_agents 1 extinct_env 0.003 0.006 [0; 0; 1; 1]%nat with
          | Ok (s', _) => s' | _ => extinct_env end) predator))
       = Z.of_nat 0 + Z.max 1 c.
Proof.
  refine (proj2 (spawn_respects_gate 1 extinct_env 0.003 0.006 [0; 0; 1; 1]%nat
            _ [] predator _ _ _) _).
  - unfold well_formed; simpl. repeat split; (lia || constructor).
  - constructor.
  - vm_compute. reflexivity.
  - vm_compute. reflexivity.
Defined.

(** ** Keys of the returned rewards and dones (C9) *)

Lemma dom_dict_of_agents {V} (s : Env) (v : V) : dom (dict_of_agents s v) = ids s.
Proof.
  unfold dict_of_agents, ids.
  assert (Hgen : ∀ l (acc : gmap string V),
    dom (foldl (fun d h => <[id (objs s h) := v]> d) acc l)
    = dom acc ∪ list_to_set ((fun h => id (objs s h)) <$> l)).
  { induction l as [|h l IH]; intros acc; simpl.
    - set_solver.
    - rewrite IH, dom_insert_L. generalize (id (objs s h)). set_solver. }
  rewrite Hgen, dom_empty_L. set_solver.
Qed.

Lemma ids_agents_move s actions s1 : agents_move s actions = Ok s1 → ids s1 = ids s.
Proof.
  intros H. apply agents_move_frame in H as (Ha & _ & _ & _ & _ & _ & _ & Hid).
  unfold ids. rewrite Ha. f_equal. apply list_fmap_ext. intros _ h _.
  by destruct (Hid h).
Qed.

(** C9: the rewards and dones that [step] returns are keyed by exactly
    the ids of the agents alive at tick start; an agent created during the
    tick whose id is not one of them has no entry. *)
Theorem step_keys (ih : float) (s : Env) (actions : gmap string Z) (tape : list nat)
    (s' : Env) (rewards : gmap string Z) (dones : gmap string bool)
    (tape' : list nat) :
  well_formed s →
  step ih s actions tape = Ok (s', rewards, dones, tape') →
  dom rewards = ids s ∧ dom dones = ids s ∧
  ∀ h, h ∈ agents s' → h ∉ agents s → id (objs s' h) ∉ ids s →
       rewards !! id (objs s' h) = None ∧ dones !! id (objs s' h) = None.
Proof.
  intros _ H. apply step_Ok in H. unfold tick in H.
  apply bind_Ok in H as (s1 & Hmove & H).
  apply bind_Ok in H as ([[s2 r] d] & Hhunt & H).
  destruct (predator_hunger s2 d) as [s3 d'] eqn:Hhunger.
  apply bind_Ok in H as ([s4 t] & Hgen & H). simplify_eq.
  apply ids_agents_move in Hmove as Hids1.
  apply hunting_loop_shrinks in Hhunt as (Hsh & Hr & Hd & Hd' & _). simpl in *.
  destruct (predator_hunger_shrinks s2 d) as (Hsh' & Hd2 & Hd2').
  rewrite Hhunger in *. simpl in *.
  apply ids_shrinks in Hsh. rewrite !dom_dict_of_agents in *.
  assert (Hdr : dom rewards = ids s) by done.
  assert (Hdd : dom dones = ids s).
  { clear -Hd Hd' Hd2 Hd2' Hsh Hids1. set_solver. }
  split; [done |]. split; [done |].
  intros h _ _ Hh.
  split; apply not_elem_of_dom; [by rewrite Hdr | by rewrite Hdd].
Qed.

(** One tick of [tie_env]: a prey is eaten, a predator and a prey are
    spawned, and the keys are the three ids of the tick start. *)
Lemma step_keys_witness :
  ∃ s' rewards dones tape',
    step 1 tie_env tie_actions [3; 3; 4; 4]%nat = Ok (s', rewards, dones, tape') ∧
    dom rewards = ids tie_env ∧ dom dones = ids tie_env.
Proof.
  assert (Hok : is_Ok (step 1 tie_env tie_actions [3; 3; 4; 4]%nat) = true)
    by (vm_compute; reflexivity).
  destruct (step 1 tie_env tie_actions [3; 3; 4; 4]%nat)
    as [[[[s' r] d] t] | |] eqn:E; try discriminate Hok.
  exists s', r, d, t. split; [reflexivity |].
  assert (Hwf : well_formed tie_env).
  { unfold well_formed; simpl. repeat split; try lia; repeat constructor; simpl; lia. }
  destruct (step_keys 1 tie_env tie_actions _ s' r d t Hwf E) as (H1 & H2 & _).
  split; [exact H1 | exact H2].
Defined.

(** ** Hunting bound (C6) *)

Lemma filter_remove_first_length (P : nat → Prop) `{!∀ x, Decision (P x)} v l :
  (length (filter P l) <= length (filter P (remove_first v l)) + 1)%nat.
Proof.
  induction l as [|y l IH]; simpl; [lia |].
  case_decide; rewrite !filter_cons; repeat case_decide; simpl; lia.
Qed.

Lemma by_role_agents_move s actions s1 r :
  agents_move s actions = Ok s1 → by_role s1 r = by_role s r.
Proof.
  intros H. apply agents_move_frame in H as (Ha & _ & _ & _ & _ & _ & _ & Hid).
  unfold by_role. rewrite Ha. by apply filter_same_role.
Qed.

Lemma hunt_one_role_count h st st' r :
  hunt_one h st = Ok st' →
  (length (by_role st.1.1 r) <= length (by_role st'.1.1 r) + 1)%nat.
Proof.
  intros H. pose proof (hunt_one_shrinks _ _ _ H) as (Hsh & _).
  apply hunt_one_spec in H as [-> | (i & v & r' & _ & _ & _ & ->)]; [lia |].
  destruct st as [[s rw] d]. simpl in *. unfold by_role. simpl.
  rewrite (filter_same_role (objs s)
             (<[h := add_health (objs s h) (health_gained s)]> (objs s))).
  - apply filter_remove_first_length.
  - apply same_ids_insert; done.
Qed.

Lemma hunting_loop_role_count l st st' r :
  hunting_loop l st = Ok st' →
  (length (by_role st.1.1 r) <= length (by_role st'.1.1 r) + length l)%nat.
Proof.
  revert st. induction l as [|h l IH]; intros st H; simpl in H.
  - simplify_eq. lia.
  - apply bind_Ok in H as (st1 & H1 & H).
    apply (hunt_one_role_count _ _ _ r) in H1. apply IH in H. simpl. lia.
Qed.

(** An agent that one predator's turn removed is out of the registry, and
    its cell is empty, for the rest of the hunting phase. *)
Lemma removed_stays_removed h st st' v l st'' :
  NoDup (agents st.1.1) →
  hunt_one h st = Ok st' →
  v ∈ agents st.1.1 → v ∉ agents st'.1.1 →
  hunting_loop l st' = Ok st'' →
  (v ∉ agents st''.1.1) ∧
  cell_at (grid st''.1.1) (position (objs st''.1.1 v)) = Empty.
Proof.
  intros Hnd H Hin Hout Hl.
  apply hunting_loop_shrinks in Hl as (Hsh & _).
  destruct Hsh as (_ & _ & _ & _ & _ & _ & _ & _ & Hp & Hsub & Hc).
  split; [intros Hv; apply Hout; by eapply elem_of_sublist |].
  rewrite Hp.
  assert (Hcell : cell_at (grid st'.1.1) (position (objs st'.1.1 v)) = Empty).
  { apply hunt_one_spec in H as [-> | (i & w & r' & _ & Hf & _ & ->)]; [done |].
    destruct st as [[s rw] d]. simpl in *.
    apply list_find_Some in Hf as (Hw%list_elem_of_lookup_2 & _ & _).
    assert (v = w) as ->.
    { destruct (decide (v = w)) as [| Hne]; [done |]. exfalso. apply Hout.
      clear -Hin Hne. induction (agents s) as [|y l' IH]; simpl; [done |].
      case_decide; set_solver. }
    rewrite cell_at_set_cell.
    destruct (decide (h = w)) as [<- | Hne].
    - rewrite fn_lookup_insert. simpl. by rewrite decide_True.
    - rewrite fn_lookup_insert_ne by done. by rewrite decide_True. }
  destruct (Hc (position (objs st'.1.1 v))) as [-> | [-> _]]; done.
Qed.

(** C6: in one tick hunting removes at most as many prey as there are
    predators at tick start; every predator takes one turn, a turn removes
    at most one agent, and an agent removed in a turn is out of the registry
    and off the grid for the later turns. *)
Theorem hunting_bound (s : Env) (actions : gmap string Z) (s1 : Env)
    (rewards : gmap string Z) (dones : gmap string bool)
    (s2 : Env) (rewards' : gmap string Z) (dones' : gmap string bool) :
  well_formed s → NoDup (agents s) →
  agents_move s actions = Ok s1 →
  hunting s1 rewards dones = Ok (s2, rewards', dones') →
  (length (by_role s1 prey)
   <= length (by_role s2 prey) + length (by_role s predator))%nat ∧
  by_role s1 predator = by_role s predator ∧
  NoDup (by_role s1 predator) ∧
  (∀ h st st', hunt_one h st = Ok st' →
     (length (agents st.1.1) <= length (agents st'.1.1) + 1)%nat) ∧
  (∀ h st st' v l st'',
     NoDup (agents st.1.1) → hunt_one h st = Ok st' →
     v ∈ agents st.1.1 → v ∉ agents st'.1.1 →
     hunting_loop l st' = Ok st'' →
     (v ∉ agents st''.1.1) ∧
     cell_at (grid st''.1.1) (position (objs st''.1.1 v)) = Empty).
Proof.
  intros _ Hnd Hmove Hhunt.
  pose proof (by_role_agents_move _ _ _ predator Hmove) as Hpred.
  split; [| split; [done | split; [| split]]].
  - unfold hunting in Hhunt.
    apply (hunting_loop_role_count _ _ _ prey) in Hhunt. simpl in Hhunt.
    by rewrite <- Hpred.
  - rewrite Hpred. unfold by_role. by apply NoDup_filter.
  - intros h st st' H. by apply hunt_one_shrinks in H as (_ & _ & _ & _ & ?).
  - intros. by eapply removed_stays_removed.
Qed.

(** One predator and two prey within its scope: one prey is removed. *)
Lemma hunting_bound_witness :
  ∃ s1 s2 rewards' dones',
    agents_move tie_env tie_actions = Ok s1 ∧
    hunting s1 (dict_of_agents tie_env 0) (dict_of_agents tie_env false)
      = Ok (s2, rewards', dones') ∧
    (length (by_role s1 prey)
     <= length (by_role s2 prey) + length (by_role tie_env predator))%nat.
Proof.
  assert (Hok : is_Ok (agents_move tie_env tie_actions) = true)
    by (vm_compute; reflexivity).
  destruct (agents_move tie_env tie_actions) as [s1 | |] eqn:E1; try discriminate Hok.
  assert (Hok2 : is_Ok (hunting s1 (dict_of_agents tie_env 0)
                          (dict_of_agents tie_env false)) = true).
  { assert (Hs : Ok s1 = agents_move tie_env tie_actions) by done.
    vm_compute in Hs. injection Hs as ->. vm_compute. reflexivity. }
  destruct (hunting s1 _ _) as [[[s2 r] d] | |] eqn:E2; try discriminate Hok2.
  exists s1, s2, r, d. split; [reflexivity |]. split; [exact E2 |].
  assert (Hwf : well_formed tie_env).
  { unfold well_formed; simpl. repeat split; try lia; repeat constructor; simpl; lia. }
  assert (Hnd : NoDup (agents tie_env)).
  { apply (@bool_decide_unpack _ (NoDup_dec (agents tie_env))). vm_compute. exact I. }
  exact (proj1 (hunting_bound tie_env tie_actions s1 _ _ s2 r d Hwf Hnd E1 E2)).
Defined.

(** ** Wall immutability (C8) *)

Lemma is_zero_Empty c : is_zero c = true → c = Empty.
Proof. by destruct c. Qed.

Lemma keeps_walls_trans s1 s2 s3 :
  keeps_walls s1 s2 → keeps_walls s2 s3 → keeps_walls s1 s3.
Proof. intros [H1 _] [H2 H3]. split; [congruence | done]. Qed.

Lemma walls_ok_shrinks s s' : walls_ok s → shrinks s s' → keeps_walls s s'.
Proof.
  intros [W1 W2] (Hw & _ & _ & _ & _ & _ & _ & _ & Hp & Hsub & Hc).
  rewrite Forall_forall in W2.
  split; [done |]. split.
  - intros q. rewrite Hw, <- W1.
    destruct (Hc q) as [-> | (He & h & Hh & <-)]; [done |].
    rewrite He. split; [done |]. intros Hq. apply W1 in Hq. by apply W2 in Hh.
  - apply Forall_forall. intros h Hh. rewrite Hw, Hp. apply W2.
    by eapply elem_of_sublist.
Qed.

Lemma resolve_off_walls s p action :
  (∀ q, cell_at (grid s) q = Wall ↔ q ∈ walls_positions s) →
  p ∉ walls_positions s →
  resolve (grid s) (grid_size s) p action ∉ walls_positions s.
Proof.
  intros W1 Hp. unfold resolve.
  destruct (is_zero _) eqn:E; [| done].
  apply is_zero_Empty in E. rewrite <- W1, E. done.
Qed.

Lemma walls_ok_agents_move s actions s1 :
  walls_ok s → agents_move s actions = Ok s1 → keeps_walls s s1.
Proof.
  intros [W1 W2] H. rewrite Forall_forall in W2.
  unfold agents_move in H.
  apply bind_Ok in H as (np & Hnp & H). apply bind_Ok in H as ([g o] & Hw & H).
  simplify_eq. split; [done |]. simpl.
  assert (Hval : ∀ k p, np !! k = Some p → p ∉ walls_positions s).
  { intros k p Hk.
    destruct (plan_moves_lookup _ _ _ _ _ Hnp k p Hk)
      as [[Hacc _] | (h & a & Hh & _ & _ & ->)]; [by rewrite lookup_empty in Hacc |].
    apply resolve_off_walls; auto. }
  destruct (write_agents_spec _ _ _ _ _ _ Hw) as (_ & _ & _ & Hin & Hw1 & Hw2).
  split; simpl.
  - intros q. split.
    + intros Hq%Hw1. rewrite cell_at_place_walls in Hq. by case_decide.
    + intros Hq. apply Hw2.
      * rewrite cell_at_place_walls. by rewrite decide_True.
      * intros k Hk. by apply Hval in Hk.
  - apply Forall_forall. intros h Hh. eapply Hval. by apply Hin.
Qed.

Section Walls.
Variable initial_health : float.

Lemma walls_ok_create s aid r p :
  walls_ok s → cell_at (grid s) p = Empty →
  keeps_walls s (create initial_health s aid r p).
Proof.
  intros [W1 W2] Hp. rewrite Forall_forall in W2.
  assert (Hnw : p ∉ walls_positions s) by (rewrite <- W1, Hp; done).
  split; [done |]. split; unfold create; simpl.
  - intros q. rewrite cell_at_set_cell. case_decide as Hq; [| apply W1].
    subst q. split; [done | by intros ?].
  - apply Forall_forall. intros h Hh.
    destruct (decide (next_obj s = h)) as [<- | Hne].
    + by rewrite fn_lookup_insert.
    + rewrite fn_lookup_insert_ne by done. apply W2.
      apply elem_of_app in Hh as [? | ?%list_elem_of_singleton]; [done | congruence].
Qed.

Lemma walls_ok_spawn r n s tape s' tape' :
  walls_ok s → spawn initial_health r n s tape = Ok (s', tape') → keeps_walls s s'.
Proof.
  revert s tape. induction n as [|n IH]; intros s tape Hok H; simpl in H.
  - by simplify_eq.
  - apply bind_Ok in H as ([p t] & Hp & H).
    apply sample_empty_Ok in Hp as (Hz%is_zero_Empty & _).
    pose proof (walls_ok_create s (prefix r +:+ pretty (length (by_role s r))) r p Hok Hz)
      as Hk.
    eapply keeps_walls_trans; [done |]. eapply IH; [apply Hk | done].
Qed.

Lemma walls_ok_generate s p_predator p_prey tape s' tape' :
  walls_ok s →
  generate_new_agents initial_health s p_predator p_prey tape = Ok (s', tape') →
  keeps_walls s s'.
Proof.
  intros Hok H. unfold generate_new_agents in H.
  apply bind_Ok in H as (kp & _ & H). apply bind_Ok in H as (ky & _ & H).
  apply bind_Ok in H as ([s1 t1] & H1 & H2).
  apply walls_ok_spawn in H1 as Hk1; [| done].
  eapply keeps_walls_trans; [done |]. eapply walls_ok_spawn; [apply Hk1 | done].
Qed.

Lemma walls_ok_hunting s r d s' r' d' :
  walls_ok s → hunting s r d = Ok (s', r', d') → keeps_walls s s'.
Proof.
  intros Hok H. apply hunting_loop_shrinks in H as (Hsh & _).
  by apply walls_ok_shrinks.
Qed.

Lemma walls_ok_hunger s d : walls_ok s → keeps_walls s (predator_hunger s d).1.
Proof.
  intros Hok. apply walls_ok_shrinks; [done |]. apply predator_hunger_shrinks.
Qed.

Lemma walls_ok_step s actions tape s' rewards dones tape' :
  walls_ok s →
  step initial_health s actions tape = Ok (s', rewards, dones, tape') →
  keeps_walls s s'.
Proof.
  intros Hok H. apply step_Ok in H. unfold tick in H.
  apply bind_Ok in H as (s1 & Hmove & H).
  apply bind_Ok in H as ([[s2 r] d] & Hhunt & H).
  pose proof (walls_ok_hunger s2 d) as Hhunger.
  destruct (predator_hunger s2 d) as [s3 d'].
  apply bind_Ok in H as ([s4 t] & Hgen & H). simplify_eq.
  apply walls_ok_agents_move in Hmove as Hk1; [| done].
  apply walls_ok_hunting in Hhunt as Hk2; [| apply Hk1].
  specialize (Hhunger (proj2 Hk2)). simpl in Hhunger.
  apply walls_ok_generate in Hgen as Hk4; [| apply Hhunger].
  eauto using keeps_walls_trans.
Qed.

Lemma walls_ok_steps s acts tape s' tape' :
  walls_ok s → steps initial_health s acts tape = Ok (s', tape') → keeps_walls s s'.
Proof.
  revert s tape. induction acts as [|a acts IH]; intros s tape Hok H; simpl in H.
  - by simplify_eq.
  - apply bind_Ok in H as ([[[s1 r] d] t] & H1 & H).
    apply walls_ok_step in H1 as Hk; [| done].
    eapply keeps_walls_trans; [done |]. eapply IH; [apply Hk | done].
Qed.

Lemma walls_ok_reset_walls n s tape s' tape' :
  walls_ok s → agents s = [] →
  reset_walls n s tape = Ok (s', tape') → walls_ok s' ∧ agents s' = [].
Proof.
  revert s tape. induction n as [|n IH]; intros s tape Hok Ha H; simpl in H.
  - by simplify_eq.
  - apply bind_Ok in H as ([p t] & Hp & H).
    apply sample_empty_Ok in Hp as (Hz%is_zero_Empty & _).
    apply IH in H; [done | | done].
    destruct Hok as [W1 _]. split; simpl.
    + intros q. rewrite cell_at_set_cell, elem_of_app, list_elem_of_singleton, <- W1.
      case_decide; naive_solver.
    + rewrite Ha. constructor.
Qed.

Lemma walls_ok_reset_agents r i n s tape s' tape' :
  walls_ok s → reset_agents initial_health r i n s tape = Ok (s', tape') →
  keeps_walls s s'.
Proof.
  revert i s tape. induction n as [|n IH]; intros i s tape Hok H; simpl in H.
  - by simplify_eq.
  - apply bind_Ok in H as ([p t] & Hp & H).
    apply sample_empty_Ok in Hp as (Hz%is_zero_Empty & _).
    pose proof (walls_ok_create s (prefix r +:+ pretty i) r p Hok Hz) as Hk.
    eapply keeps_walls_trans; [done |]. eapply IH; [apply Hk | done].
Qed.

Lemma walls_ok_reset s tape s' tape' :
  agents s = [] → reset initial_health s tape = Ok (s', tape') → walls_ok s'.
Proof.
  intros Ha H. apply reset_Ok in H. unfold reset_placement in H.
  apply bind_Ok in H as ([s1 t1] & H1 & H).
  apply bind_Ok in H as ([s2 t2] & H2 & H3).
  apply walls_ok_reset_walls in H1 as [Hok1 _]; [| | done].
  - apply walls_ok_reset_agents in H2; [| done].
    apply walls_ok_reset_agents in H3; [apply H3 | apply H2].
  - split; simpl.
    + intros q. unfold cell_at. rewrite lookup_empty. simpl.
      split; [done | by intros ?%elem_of_nil].
    + rewrite Ha. constructor.
Qed.

Lemma spawn_wall_list r n s tape s' tape' :
  spawn initial_health r n s tape = Ok (s', tape') →
  walls_positions s' = walls_positions s.
Proof.
  revert s tape. induction n as [|n IH]; intros s tape H; simpl in H.
  - by simplify_eq.
  - apply bind_Ok in H as ([p t] & _ & H). by apply IH in H.
Qed.

(** Whatever the state, a tick does not touch the wall list. *)
Lemma step_wall_list s actions tape s' rewards dones tape' :
  step initial_health s actions tape = Ok (s', rewards, dones, tape') →
  walls_positions s' = walls_positions s.
Proof.
  intros H. apply step_Ok in H. unfold tick in H.
  apply bind_Ok in H as (s1 & Hmove & H).
  apply bind_Ok in H as ([[s2 r] d] & Hhunt & H).
  destruct (predator_hunger_shrinks s2 d) as ((Hw3 & _) & _).
  destruct (predator_hunger s2 d) as [s3 d'].
  apply bind_Ok in H as ([s4 t] & Hgen & H). simplify_eq.
  apply agents_move_frame in Hmove as (_ & Hw1 & _).
  apply hunting_loop_shrinks in Hhunt as ((Hw2 & _) & _).
  unfold generate_new_agents in Hgen.
  apply bind_Ok in Hgen as (kp & _ & Hgen). apply bind_Ok in Hgen as (ky & _ & Hgen).
  apply bind_Ok in Hgen as ([sa ta] & Ha & Hb).
  apply spawn_wall_list in Ha, Hb. simpl in *. congruence.
Qed.

Lemma steps_wall_list s acts tape s' tape' :
  steps initial_health s acts tape = Ok (s', tape') →
  walls_positions s' = walls_positions s.
Proof.
  revert s tape. induction acts as [|a acts IH]; intros s tape H; simpl in H.
  - by simplify_eq.
  - apply bind_Ok in H as ([[[s1 r] d] t] & H1 & H).
    apply step_wall_list in H1. apply IH in H. congruence.
Qed.

End Walls.

(** The walls of a first episode: the stored wall list is not touched by
    any number of [step] calls, whatever the state.  After [reset] of an environment whose
    registry is empty (a newly constructed one), the wall cells of the grid
    are exactly the stored wall positions; each phase of a tick leaves the
    wall list as it is and keeps the wall cells in place, and so does any
    number of [step] calls. *)
Theorem walls_immutable (ih : float) (s0 : Env) (tape : list nat)
    (s : Env) (tape' : list nat) :
  0 < (grid_size s0).1 → 0 < (grid_size s0).2 →
  agents s0 = [] →
  reset ih s0 tape = Ok (s, tape') →
  (∀ s1 acts t sn tn, steps ih s1 acts t = Ok (sn, tn) →
     walls_positions sn = walls_positions s1) ∧
  walls_ok s ∧
  (∀ s1, walls_ok s1 →
     (∀ actions s2, agents_move s1 actions = Ok s2 → keeps_walls s1 s2) ∧
     (∀ r d s2 r' d', hunting s1 r d = Ok (s2, r', d') → keeps_walls s1 s2) ∧
     (∀ d, keeps_walls s1 (predator_hunger s1 d).1) ∧
     (∀ p_predator p_prey t s2 t',
        generate_new_agents ih s1 p_predator p_prey t = Ok (s2, t') →
        keeps_walls s1 s2)) ∧
  (∀ acts sn tn, steps ih s acts tape' = Ok (sn, tn) →
     walls_positions sn = walls_positions s ∧
     ∀ p, cell_at (grid sn) p = Wall ↔ p ∈ walls_positions s).
Proof.
  intros _ _ Ha Hreset.
  pose proof (walls_ok_reset ih _ _ _ _ Ha Hreset) as Hok.
  split; [intros; by eapply steps_wall_list |].
  split; [done |]. split.
  - intros s1 Hok1. split; [| split; [| split]].
    + intros. by eapply walls_ok_agents_move.
    + intros. by eapply walls_ok_hunting.
    + intros. by apply walls_ok_hunger.
    + intros. by eapply walls_ok_generate.
  - intros acts sn tn Hsteps.
    apply walls_ok_steps in Hsteps as [Hw [W1 _]]; [| done].
    split; [done |]. intros p. by rewrite W1, Hw.
Qed.

(** A [reset] with one wall followed by two ticks. *)
Lemma walls_immutable_witness :
  ∃ s tape' sn tn,
    reset 1 (init (5, 5) 1 2 1 1 0.3) reset_tape = Ok (s, tape') ∧
    steps 1 s [all_stay; all_stay] tape' = Ok (sn, tn) ∧
    walls_positions sn = walls_positions s ∧
    ∀ p, cell_at (grid sn) p = Wall ↔ p ∈ walls_positions s.
Proof.
  assert (Hok : is_Ok (reset 1 (init (5, 5) 1 2 1 1 0.3) reset_tape) = true)
    by (vm_compute; reflexivity).
  destruct (reset 1 (init (5, 5) 1 2 1 1 0.3) reset_tape) as [[s t] | |] eqn:E;
    try discriminate Hok.
  assert (Hok2 : is_Ok (steps 1 s [all_stay; all_stay] t) = true).
  { assert (Hs : Ok (s, t) = reset 1 (init (5, 5) 1 2 1 1 0.3) reset_tape) by done.
    vm_compute in Hs. injection Hs as -> ->. vm_compute. reflexivity. }
  destruct (steps 1 s [all_stay; all_stay] t) as [[sn tn] | |] eqn:E2;
    try discriminate Hok2.
  exists s, t, sn, tn. split; [reflexivity |]. split; [exact E2 |].
  refine (proj2 (proj2 (proj2 (walls_immutable 1 (init (5, 5) 1 2 1 1 0.3) reset_tape
                                 s t _ _ _ E))) _ _ _ E2); simpl; (lia || reflexivity).
Defined.

(** C8: a second [reset] of the same environment.  The first [reset] and
    one tick leave the predator [pr_1], object 1, at [(3, 3)].  The second
    [reset] clears the grid and the wall list but not the registry, and
    places its wall on [(3, 3)], which is empty on the cleared grid.  In
    the next tick every agent stays; object 1, still registered and still
    recorded at [(3, 3)], is written over the wall: the wall list still
    holds [(3, 3)], and the cell holds the agent. *)
Theorem second_reset_wall_overwritten :
  ∃ s0 t0 s1 t1 s2 t2 s3 rewards dones t3,
    reset 1 one_wall_env second_reset_tape = Ok (s0, t0) ∧
    steps 1 s0 [all_stay] t0 = Ok (s1, t1) ∧
    agents s1 = [0; 1; 2]%nat ∧ position (objs s1 1) = (3, 3) ∧
    reset 1 s1 t1 = Ok (s2, t2) ∧
    agents s2 = [0; 1; 2; 3]%nat ∧
    id (objs s2 1) = "pr_1" ∧ position (objs s2 1) = (3, 3) ∧
    walls_positions s2 = [(3, 3)] ∧ cell_at (grid s2) (3, 3) = Wall ∧
    all_stay !! "pr_1" = Some 0 ∧
    step 1 s2 all_stay t2 = Ok (s3, rewards, dones, t3) ∧
    walls_positions s3 = [(3, 3)] ∧ cell_at (grid s3) (3, 3) = Ref 1.
Proof.
  do 10 eexists.
  split; [vm_compute; reflexivity |].
  split; [vm_compute; reflexivity |].
  repeat (split; [vm_compute; reflexivity |]).
  vm_compute; reflexivity.
Qed.

(** ** Movement conflicts (C1) and shared ids (C2) *)

(** C1, at a failing input: after [reset] the two prey stand at [(0, 0)]
    and [(0, 2)] and the occupancy invariant holds; both move to the empty
    cell [(0, 1)] in the first tick.  After that [step] the cell [(0, 1)]
    refers to the second prey only, the first prey is recorded at [(0, 1)]
    without being on the grid, and four live agents share three occupied
    cells. *)
Theorem head_on_breaks_occupancy :
  ∃ s tape s' rewards dones tape',
    reset 1 two_prey_env two_prey_tape = Ok (s, tape) ∧
    occupancy s ∧
    step 1 s head_on tape = Ok (s', rewards, dones, tape') ∧
    position (objs s' 0) = (0, 1) ∧ position (objs s' 1) = (0, 1) ∧
    cell_at (grid s') (0, 1) = Ref 1 ∧
    length (agents s') = 4%nat ∧ occupied_cells s' = 3%nat ∧
    ¬ occupancy s'.
Proof.
  do 6 eexists.
  split; [vm_compute; reflexivity |].
  split; [apply (bool_decide_unpack _); vm_compute; exact I |].
  split; [vm_compute; reflexivity |].
  split; [vm_compute; reflexivity |].
  split; [vm_compute; reflexivity |].
  split; [vm_compute; reflexivity |].
  split; [vm_compute; reflexivity |].
  split; [vm_compute; reflexivity |].
  apply (bool_decide_eq_false_1 _). vm_compute. reflexivity.
Qed.

(** With pairwise distinct ids every live agent ends at its own resolved
    destination. *)
Lemma NoDup_fmap_inj_on {A B} (f : A → B) (l : list A) x y :
  NoDup (f <$> l) → x ∈ l → y ∈ l → f x = f y → x = y.
Proof.
  induction l as [|z l IH]; intros Hnd Hx Hy Hf; [by apply elem_of_nil in Hx |].
  rewrite fmap_cons in Hnd. apply NoDup_cons in Hnd as [Hz Hnd].
  apply elem_of_cons in Hx as [-> | Hx], Hy as [-> | Hy]; [done | | | by apply IH].
  - destruct Hz. rewrite Hf. by apply list_elem_of_fmap_2.
  - destruct Hz. rewrite <- Hf. by apply list_elem_of_fmap_2.
Qed.

Lemma agents_move_unique_ids s actions s1 h :
  NoDup ((fun h => id (objs s h)) <$> agents s) →
  agents_move s actions = Ok s1 →
  h ∈ agents s →
  ∃ action, actions !! id (objs s h) = Some action ∧
    position (objs s1 h)
    = resolve (grid s) (grid_size s) (position (objs s h)) action.
Proof.
  intros Hnd H Hh. unfold agents_move in H.
  apply bind_Ok in H as (np & Hnp & H). apply bind_Ok in H as ([g o] & Hw & H).
  simplify_eq. simpl.
  destruct (write_agents_spec _ _ _ _ _ _ Hw) as (_ & _ & _ & Hin & _).
  specialize (Hin h Hh).
  destruct (plan_moves_lookup _ _ _ _ _ Hnp _ _ Hin)
    as [[Hacc _] | (h' & a & Hh' & Hid & Ha & Hp)]; [by rewrite lookup_empty in Hacc |].
  assert (h' = h) as -> by (by eapply (NoDup_fmap_inj_on (fun h => id (objs s h)))).
  eauto.
Qed.

(** C2, at a failing input: one tick after [reset] (a prey was eaten and a
    prey was spawned) two live prey, objects 2 and 4, carry the id ["py_1"].
    Both are told to move right.  Object 2 stands at [(2, 1)] and its
    destination [(2, 2)] is taken, so it should stay; object 4 moves from
    [(4, 4)] to the empty cell [(4, 0)].  After [agents_move] object 2 is
    recorded at [(4, 0)] as well. *)
Theorem shared_id_moves_both :
  ∃ s0 tape0 s tape s1,
    reset 1 (init (5, 5) 1 2 1 1 0.3) reset_tape = Ok (s0, tape0) ∧
    steps 1 s0 [all_stay] tape0 = Ok (s, tape) ∧
    agents s = [0; 2; 3; 4]%nat ∧
    id (objs s 2) = "py_1" ∧ id (objs s 4) = "py_1" ∧
    prey_right !! "py_1" = Some 4 ∧
    position (objs s 2) = (2, 1) ∧
    cell_at (grid s) (candidate (grid_size s) (2, 1) 4) = Ref 0 ∧
    resolve (grid s) (grid_size s) (position (objs s 2)) 4 = (2, 1) ∧
    position (objs s 4) = (4, 4) ∧
    resolve (grid s) (grid_size s) (position (objs s 4)) 4 = (4, 0) ∧
    agents_move s prey_right = Ok s1 ∧
    position (objs s1 2) = (4, 0) ∧ position (objs s1 4) = (4, 0).
Proof.
  do 5 eexists.
  split; [vm_compute; reflexivity |].
  split; [vm_compute; reflexivity |].
  repeat (split; [vm_compute; reflexivity |]).
  vm_compute; reflexivity.
Qed.

(** ** Where the occupancy invariant is kept *)

Lemma cell_at_Ref_lookup (g : gmap pos Cell) p h :
  cell_at g p = Ref h ↔ g !! p = Some (Ref h).
Proof. unfold cell_at. destruct (g !! p); simpl; naive_solver. Qed.

(** A consistent state satisfies the occupancy invariant. *)
Lemma consistent_occupancy s : consistent s → occupancy s.
Proof.
  intros (Hnd & H1 & H4). split; [done |]. split.
  - apply map_Forall_lookup. intros p [| |h] Hp; simpl; try done.
    apply cell_at_Ref_lookup in Hp. by apply H4.
  - unfold occupied_cells.
    rewrite <- (length_fmap (fun h => (position (objs s h), Ref h)) (agents s)).
    apply Permutation_length, NoDup_Permutation.
    + apply NoDup_filter, NoDup_map_to_list.
    + apply NoDup_fmap_2; [| done]. by intros h h' [= _ ->].
    + rewrite Forall_forall in H1. intros [p c]. rewrite list_elem_of_filter. simpl.
      rewrite elem_of_map_to_list, list_elem_of_fmap. split.
      * intros [Hr Hp]. destruct c as [| |h]; try done.
        apply cell_at_Ref_lookup in Hp. destruct (H4 _ _ Hp) as [Hh <-]. eauto.
      * intros (h & [= -> ->] & Hh). split; [done |].
        apply cell_at_Ref_lookup. by apply H1.
Qed.

Lemma elem_of_remove_first x v l : x ∈ l → x ≠ v → x ∈ remove_first v l.
Proof.
  induction l as [|y l IH]; simpl; [done |].
  intros Hx Hne. case_decide; set_solver.
Qed.

(** Removing a live agent and clearing its cell keeps consistency. *)
Lemma consistent_remove s v o' :
  consistent s → v ∈ agents s →
  (∀ h, position (o' h) = position (objs s h)) →
  consistent
    (with_objs (with_grid (with_agents s (remove_first v (agents s)))
                          (set_cell (grid s) (position (objs s v)) Empty)) o').
Proof.
  intros (Hnd & H1 & H4) Hv Hp. rewrite Forall_forall in H1.
  destruct (remove_first_NoDup v _ Hnd) as [Hnd' Hv'].
  split; [done |]. split; simpl.
  - apply Forall_forall. intros h Hh.
    assert (h ∈ agents s) by (by eapply remove_first_subseteq).
    assert (h ≠ v) by congruence.
    rewrite Hp, cell_at_set_cell. rewrite decide_False; [by apply H1 |].
    intros Heq. pose proof (H1 v Hv) as Hcv. rewrite Heq, H1 in Hcv by done. congruence.
  - intros p h. rewrite cell_at_set_cell. case_decide as Hq; [done |].
    intros [Hh Hpos]%H4. rewrite Hp. split; [| done].
    apply elem_of_remove_first; [done |]. congruence.
Qed.

Lemma consistent_with_objs s o' :
  consistent s → (∀ h, position (o' h) = position (objs s h)) →
  consistent (with_objs s o').
Proof.
  intros (Hnd & H1 & H4) Hp. split; [done |]. split; simpl.
  - eapply Forall_impl; [done |]. simpl. intros h. by rewrite Hp.
  - intros p h Hc. rewrite Hp. by apply H4.
Qed.

Lemma consistent_hunt_one h st st' :
  consistent st.1.1 → hunt_one h st = Ok st' → consistent st'.1.1.
Proof.
  intros Hc H. apply hunt_one_spec in H as [-> | (i & v & r' & _ & Hf & _ & ->)]; [done |].
  apply list_find_Some in Hf as (Hv%list_elem_of_lookup_2 & _ & _). simpl.
  apply consistent_remove; [done | done |].
  intros h'. destruct (decide (h = h')) as [<- | ?];
    [by rewrite fn_lookup_insert | by rewrite fn_lookup_insert_ne].
Qed.

Lemma consistent_hunting s r d s' r' d' :
  consistent s → hunting s r d = Ok (s', r', d') → consistent s'.
Proof.
  unfold hunting. generalize (by_role s predator). intros l.
  change s with (s, r, d).1.1 at 1. change s' with (s', r', d').1.1 at 2.
  generalize (s, r, d) (s', r', d'). clear. intros st st'. revert st.
  induction l as [|h l IH]; intros st Hc H; simpl in H.
  - by simplify_eq.
  - apply bind_Ok in H as (st1 & H1 & H). eapply IH; [| done].
    by eapply consistent_hunt_one.
Qed.

Lemma consistent_hunger_one st h :
  consistent st.1 → h ∈ agents st.1 → consistent (hunger_one st h).1.
Proof.
  destruct st as [s d]. simpl. intros Hc Hh. unfold hunger_one.
  set (a := add_health (objs s h) _).
  assert (Hp : ∀ h', position ((<[h := a]> (objs s)) h') = position (objs s h')).
  { intros h'. destruct (decide (h = h')) as [<- | ?];
      [by rewrite fn_lookup_insert | by rewrite fn_lookup_insert_ne]. }
  destruct (PrimFloat.leb _ _); simpl.
  - by apply (consistent_remove s h).
  - by apply consistent_with_objs.
Qed.

Lemma consistent_hunger_loop l st :
  consistent st.1 → NoDup l → l ⊆ agents st.1 →
  consistent (foldl hunger_one st l).1.
Proof.
  revert st. induction l as [|h l IH]; intros st Hc Hnd Hl; simpl; [done |].
  apply NoDup_cons in Hnd as [Hh Hnd].
  apply IH; [apply consistent_hunger_one; [done | set_solver] | done |].
  intros x Hx. assert (x ∈ agents st.1) by set_solver.
  assert (x ≠ h) by congruence.
  destruct st as [s d]. unfold hunger_one. simpl in *.
  destruct (PrimFloat.leb _ _); simpl; [| done].
  by apply elem_of_remove_first.
Qed.

Lemma consistent_predator_hunger s d :
  consistent s → consistent (predator_hunger s d).1.
Proof.
  intros Hc. apply (consistent_hunger_loop _ (s, d)); [done | |].
  - unfold by_role. apply NoDup_filter, Hc.
  - unfold by_role. intros h Hh. by apply list_elem_of_filter in Hh as [_ ?].
Qed.

Section Occupancy.
Variable initial_health : float.

Lemma consistent_create s aid r p :
  consistent s → allocated s → cell_at (grid s) p = Empty →
  consistent (create initial_health s aid r p) ∧
  allocated (create initial_health s aid r p).
Proof.
  intros (Hnd & H1 & H4) Hal Hp. split; [| by apply allocated_create].
  unfold allocated in Hal. rewrite Forall_forall in Hal, H1.
  assert (Hfresh : next_obj s ∉ agents s) by (intros ?%Hal; lia).
  unfold create. split; [| split]; simpl.
  - apply NoDup_app. split; [done |]. split; [| apply NoDup_singleton].
    intros h Hh ->%list_elem_of_singleton. done.
  - apply Forall_app. split.
    + apply Forall_forall. intros h Hh.
      rewrite fn_lookup_insert_ne by congruence.
      rewrite cell_at_set_cell, decide_False; [by apply H1 |].
      intros ->. rewrite H1 in Hp by done. done.
    + repeat constructor. by rewrite fn_lookup_insert, cell_at_set_cell, decide_True.
  - intros q h. rewrite cell_at_set_cell. case_decide as Hq.
    + intros [= <-]. rewrite fn_lookup_insert. split; [set_solver | done].
    + intros [Hh Hpos]%H4. rewrite fn_lookup_insert_ne by congruence.
      split; [set_solver | done].
Qed.

Lemma consistent_spawn r n s tape s' tape' :
  consistent s → allocated s →
  spawn initial_health r n s tape = Ok (s', tape') →
  consistent s' ∧ allocated s'.
Proof.
  revert s tape. induction n as [|n IH]; intros s tape Hc Hal H; simpl in H.
  - by simplify_eq.
  - apply bind_Ok in H as ([p t] & Hp & H).
    apply sample_empty_Ok in Hp as (Hz%is_zero_Empty & _).
    destruct (consistent_create s (prefix r +:+ pretty (length (by_role s r))) r p
                Hc Hal Hz) as [Hc' Hal'].
    by eapply IH.
Qed.

Lemma consistent_generate s p_predator p_prey tape s' tape' :
  consistent s → allocated s →
  generate_new_agents initial_health s p_predator p_prey tape = Ok (s', tape') →
  consistent s' ∧ allocated s'.
Proof.
  intros Hc Hal H. unfold generate_new_agents in H.
  apply bind_Ok in H as (kp & _ & H). apply bind_Ok in H as (ky & _ & H).
  apply bind_Ok in H as ([s1 t1] & H1 & H2).
  apply consistent_spawn in H1 as [Hc1 Hal1]; [| done | done].
  by eapply consistent_spawn.
Qed.

End Occupancy.

(** What the second loop of [agents_move] leaves in the grid. *)
Lemma write_agents_cells np l g o g' o' :
  NoDup l →
  write_agents np l g o = Ok (g', o') →
  (∀ q, (∀ h, h ∈ l → position (o' h) ≠ q) → cell_at g' q = cell_at g q) ∧
  (∀ q h, cell_at g' q = Ref h →
     (h ∈ l ∧ position (o' h) = q) ∨ cell_at g q = Ref h) ∧
  (∀ h, h ∈ l →
     (∀ h2, h2 ∈ l → h2 ≠ h → position (o' h2) ≠ position (o' h)) →
     cell_at g' (position (o' h)) = Ref h).
Proof.
  intros Hnd. revert g o. induction Hnd as [|h l Hh Hnd IH]; intros g o H; simpl in H.
  - simplify_eq. split; [done |]. split; [by right |]. by intros h ?%elem_of_nil.
  - apply bind_Ok in H as (p & Hp & H).
    destruct (write_agents_spec _ _ _ _ _ _ H) as (_ & _ & Hout & _).
    assert (Hposh : position (o' h) = p).
    { rewrite Hout by done. by rewrite fn_lookup_insert. }
    destruct (IH _ _ H) as (Hc & Ha & Hb).
    split; [| split].
    + intros q Hq. rewrite Hc by (intros; apply Hq; by right).
      rewrite cell_at_set_cell, decide_False; [done |].
      rewrite <- Hposh. apply Hq. by left.
    + intros q h0 Hq. destruct (Ha _ _ Hq) as [[? ?] | Hg1].
      * left. split; [by right | done].
      * rewrite cell_at_set_cell in Hg1. case_decide as Hpq; [| by right].
        simplify_eq. left. split; [by left | done].
    + intros h0 [-> | Hh0]%elem_of_cons Hdist.
      * rewrite Hc.
        -- by rewrite Hposh, cell_at_set_cell, decide_True.
        -- intros h2 Hh2. apply Hdist; [by right | congruence].
      * apply Hb; [done |]. intros h2 Hh2 Hne. apply Hdist; [by right | done].
Qed.

(** After [agents_move] the state is consistent as soon as no two agents
    are recorded at the same cell. *)
Lemma consistent_agents_move s actions s1 :
  NoDup (agents s) →
  agents_move s actions = Ok s1 →
  NoDup ((fun h => position (objs s1 h)) <$> agents s1) →
  consistent s1.
Proof.
  intros Hnd H Hpos. unfold agents_move in H.
  apply bind_Ok in H as (np & Hnp & H). apply bind_Ok in H as ([g o] & Hw & H).
  simplify_eq. simpl in *.
  destruct (write_agents_cells _ _ _ _ _ _ Hnd Hw) as (_ & Ha & Hb).
  split; [done |]. split; simpl.
  - apply Forall_forall. intros h Hh. apply Hb; [done |].
    intros h2 Hh2 Hne Heq. apply Hne.
    by eapply (NoDup_fmap_inj_on (fun h => position (o h))).
  - intros q h Hq. destruct (Ha _ _ Hq) as [? | Hw0]; [done |].
    rewrite cell_at_place_walls in Hw0. case_decide; [done |].
    unfold cell_at in Hw0. by rewrite lookup_empty in Hw0.
Qed.

Section OccupancyStep.
Variable initial_health : float.

Lemma consistent_reset_walls n s tape s' tape' :
  agents s = [] → (∀ p h, cell_at (grid s) p ≠ Ref h) →
  reset_walls n s tape = Ok (s', tape') →
  agents s' = [] ∧ (∀ p h, cell_at (grid s') p ≠ Ref h) ∧ next_obj s' = next_obj s.
Proof.
  revert s tape. induction n as [|n IH]; intros s tape Ha Hg H; simpl in H.
  - by simplify_eq.
  - apply bind_Ok in H as ([p t] & _ & H). apply IH in H; [done | done |].
    simpl. intros q h. rewrite cell_at_set_cell. case_decide; [done | apply Hg].
Qed.

Lemma consistent_reset_agents r i n s tape s' tape' :
  consistent s → allocated s →
  reset_agents initial_health r i n s tape = Ok (s', tape') →
  consistent s' ∧ allocated s'.
Proof.
  revert i s tape. induction n as [|n IH]; intros i s tape Hc Hal H; simpl in H.
  - by simplify_eq.
  - apply bind_Ok in H as ([p t] & Hp & H).
    apply sample_empty_Ok in Hp as (Hz%is_zero_Empty & _).
    destruct (consistent_create initial_health s (prefix r +:+ pretty i) r p Hc Hal Hz)
      as [Hc' Hal'].
    by eapply IH.
Qed.

(** [reset] of an environment with an empty registry establishes the
    invariant. *)
Lemma consistent_reset s tape s' tape' :
  agents s = [] → reset initial_health s tape = Ok (s', tape') →
  consistent s' ∧ allocated s'.
Proof.
  intros Ha H. apply reset_Ok in H. unfold reset_placement in H.
  apply bind_Ok in H as ([s1 t1] & H1 & H).
  apply bind_Ok in H as ([s2 t2] & H2 & H3).
  apply consistent_reset_walls in H1 as (Ha1 & Hg1 & _); [| done |].
  2:{ simpl. intros p h. unfold cell_at. by rewrite lookup_empty. }
  assert (Hc1 : consistent s1).
  { split; [rewrite Ha1; constructor |]. split; [rewrite Ha1; constructor |].
    intros p h Hp. by apply Hg1 in Hp. }
  assert (Hal1 : allocated s1) by (unfold allocated; rewrite Ha1; constructor).
  apply consistent_reset_agents in H2 as [Hc2 Hal2]; [| done | done].
  exact (consistent_reset_agents _ _ _ _ _ _ _ Hc2 Hal2 H3).
Qed.

(** One tick keeps the occupancy invariant provided the movement phase
    recorded no two agents at the same cell. *)
Lemma step_keeps_occupancy s actions tape s1 s' rewards dones tape' :
  NoDup (agents s) → allocated s →
  agents_move s actions = Ok s1 →
  NoDup ((fun h => position (objs s1 h)) <$> agents s1) →
  step initial_health s actions tape = Ok (s', rewards, dones, tape') →
  consistent s' ∧ occupancy s'.
Proof.
  intros Hnd Hal Hmove Hpos H. apply step_Ok in H. unfold tick in H. rewrite Hmove in H. simpl in H.
  apply bind_Ok in H as ([[s2 r] d] & Hhunt & H).
  pose proof (consistent_predator_hunger s2 d) as Hhunger.
  destruct (predator_hunger_shrinks s2 d) as (Hsh3 & _).
  destruct (predator_hunger s2 d) as [s3 d'].
  apply bind_Ok in H as ([s4 t] & Hgen & H). simplify_eq.
  pose proof (consistent_agents_move _ _ _ Hnd Hmove Hpos) as Hc1.
  pose proof (consistent_hunting _ _ _ _ _ _ Hc1 Hhunt) as Hc2.
  specialize (Hhunger Hc2). simpl in *.
  assert (Hal3 : allocated s3).
  { apply agents_move_frame in Hmove as (Ha1 & _ & _ & _ & Hn1 & _).
    apply hunting_loop_shrinks in Hhunt as (Hsh2 & _). simpl in Hsh2.
    destruct Hsh2 as (_ & _ & _ & Hn2 & _ & _ & _ & _ & _ & Hsub2 & _).
    destruct Hsh3 as (_ & _ & _ & Hn3 & _ & _ & _ & _ & _ & Hsub3 & _).
    unfold allocated in *. rewrite Forall_forall in Hal. apply Forall_forall.
    intros h Hh. rewrite Hn3, Hn2, Hn1. apply Hal. rewrite <- Ha1.
    eapply elem_of_sublist; [| done]. by eapply elem_of_sublist. }
  apply consistent_generate in Hgen as [Hc4 _]; [| done | done].
  split; [done | by apply consistent_occupancy].
Qed.

End OccupancyStep.

(** * Further properties of the code *)

(** ** Batching *)

(** The batches of a positive batch size [b], by the index of the batch. *)
Lemma batchify_unfold {A} (data : list A) (batch_size : Z) :
  0 < batch_size →
  batchify data batch_size
  = Ok ((fun k : nat => take (Z.to_nat batch_size) (drop (k * Z.to_nat batch_size) data))
        <$> seq 0 (Z.to_nat ((Z.of_nat (length data) + batch_size - 1) / batch_size))).
Proof.
  intros Hb. unfold batchify, range.
  rewrite (proj2 (Z.eqb_neq _ _)) by lia. rewrite (proj2 (Z.ltb_lt _ _)) by lia.
  simpl. f_equal. unfold seqZ. rewrite <- !list_fmap_compose.
  assert (Hn : (if 0 <? Z.of_nat (length data)
                then 1 + (Z.of_nat (length data) - 1 - 0) / batch_size else 0)
               = (Z.of_nat (length data) + batch_size - 1) / batch_size).
  { destruct (0 <? Z.of_nat (length data)) eqn:E.
    - replace (Z.of_nat (length data) + batch_size - 1)
        with (Z.of_nat (length data) - 1 - 0 + 1 * batch_size) by lia.
      rewrite Z.div_add by lia. lia.
    - apply Z.ltb_ge in E. replace (Z.of_nat (length data)) with 0 by lia.
      symmetry. apply Z.div_small. lia. }
  rewrite Hn. apply list_fmap_ext. intros _ k _. simpl. unfold slice.
  f_equal; [f_equal; lia |]. f_equal. nia.
Qed.

Lemma concat_chunks {A} (b n : nat) (data : list A) :
  (length data <= n * b)%nat →
  concat ((fun k : nat => take b (drop (k * b) data)) <$> seq 0 n) = data.
Proof.
  revert data. induction n as [|n IH]; intros data Hl.
  - simpl in *. by destruct data; [| simpl in Hl; lia].
  - rewrite <- cons_seq, fmap_cons, <- fmap_S_seq, <- list_fmap_compose. simpl.
    rewrite drop_0.
    assert (Heq : ((fun k : nat => take b (drop (k * b) data)) ∘ S) <$> seq 0 n
                  = (fun k : nat => take b (drop (k * b) (drop b data))) <$> seq 0 n).
    { apply list_fmap_ext. intros _ k _. simpl. rewrite drop_drop. do 2 f_equal; lia. }
    rewrite Heq, IH; [apply take_drop |]. rewrite length_drop. lia.
Qed.

(** [batchify] loses, repeats and reorders nothing: the batches, put end to
    end, are the data. *)
Theorem batchify_concat {A} (data : list A) (batch_size : Z) :
  0 < batch_size →
  ∃ batches, batchify data batch_size = Ok batches ∧ concat batches = data.
Proof.
  intros Hb. eexists. split; [by apply batchify_unfold |].
  apply concat_chunks.
  assert (Z.of_nat (length data)
          <= (Z.of_nat (length data) + batch_size - 1) / batch_size * batch_size).
  { pose proof (Z.div_mod (Z.of_nat (length data) + batch_size - 1) batch_size).
    pose proof (Z.mod_pos_bound (Z.of_nat (length data) + batch_size - 1) batch_size).
    lia. }
  assert (0 <= (Z.of_nat (length data) + batch_size - 1) / batch_size)
    by (apply Z.div_pos; lia).
  nia.
Qed.

Lemma batchify_concat_witness :
  ∃ batches, batchify [1; 2; 3; 4; 5] 2 = Ok batches ∧ concat batches = [1; 2; 3; 4; 5].
Proof. apply (batchify_concat [1; 2; 3; 4; 5] 2). lia. Defined.

(** The sizes of the batches: there are [ceil(len(data) / batch_size)] of
    them, none is empty or longer than [batch_size], and every batch but
    the last is full. *)
Theorem batchify_sizes {A} (data : list A) (batch_size : Z) (batches : list (list A)) :
  0 < batch_size →
  batchify data batch_size = Ok batches →
  Z.of_nat (length batches) = (Z.of_nat (length data) + batch_size - 1) / batch_size ∧
  Forall (fun b => 0 < Z.of_nat (length b) <= batch_size) batches ∧
  ∀ i b, batches !! i = Some b → (S i < length batches)%nat →
         Z.of_nat (length b) = batch_size.
Proof.
  intros Hb H. rewrite batchify_unfold in H by done. injection H as <-.
  set (n := (Z.of_nat (length data) + batch_size - 1) / batch_size).
  assert (Hn0 : 0 <= n) by (apply Z.div_pos; lia).
  assert (Hn : (n - 1) * batch_size < Z.of_nat (length data) <= n * batch_size).
  { pose proof (Z.div_mod (Z.of_nat (length data) + batch_size - 1) batch_size).
    pose proof (Z.mod_pos_bound (Z.of_nat (length data) + batch_size - 1) batch_size).
    fold n in H. nia. }
  rewrite length_fmap, length_seq. split; [lia |]. split.
  - apply Forall_fmap, Forall_forall. intros k Hk%elem_of_seq. simpl.
    rewrite length_take, length_drop. nia.
  - intros i b Hi Hlt. rewrite list_lookup_fmap in Hi.
    destruct (seq 0 (Z.to_nat n) !! i) as [k|] eqn:Ek; [| done]. simpl in Hi.
    apply lookup_seq in Ek as [-> _]. simplify_eq. simpl.
    rewrite length_take, length_drop. nia.
Qed.

Lemma batchify_sizes_witness :
  ∃ batches, batchify [1; 2; 3; 4; 5] 2 = Ok batches ∧
    Z.of_nat (length batches) = 3 ∧
    Forall (fun b => 0 < Z.of_nat (length b) <= 2) batches.
Proof.
  exists [[1; 2]; [3; 4]; [5]]. split; [reflexivity |].
  assert (Hb : 0 < 2) by lia.
  pose proof (batchify_sizes [1; 2; 3; 4; 5] 2 [[1; 2]; [3; 4]; [5]] Hb eq_refl)
    as (H1 & H2 & _).
  split; [exact H1 | exact H2].
Defined.

(** A batch size that is not positive: [range] rejects the step [0] with a
    [ValueError], and a negative step gives no batch at all, whatever the
    data. *)
Theorem batchify_not_positive {A} (data : list A) (batch_size : Z) :
  batch_size <= 0 →
  batchify data batch_size = if batch_size =? 0 then Raise ValueError else Ok [].
Proof.
  intros Hb. unfold batchify, range.
  destruct (batch_size =? 0) eqn:E; [done |]. apply Z.eqb_neq in E.
  rewrite (proj2 (Z.ltb_ge _ _)) by lia. rewrite (proj2 (Z.ltb_ge _ _)) by lia.
  done.
Qed.

Lemma batchify_not_positive_witness :
  batchify [1; 2; 3] (-2) = Ok [] ∧ batchify [1; 2; 3] 0 = Raise ValueError.
Proof.
  split.
  - apply (batchify_not_positive [1; 2; 3] (-2)). lia.
  - apply (batchify_not_positive [1; 2; 3] 0). lia.
Defined.

(** ** Rendering *)

Lemma get_string_of_list_ascii (l : list ascii) (n : nat) :
  String.get n (String.string_of_list_ascii l) = l !! n.
Proof.
  revert n. induction l as [|c l IH]; intros n; simpl; [done |].
  destruct n; [done | apply IH].
Qed.

Lemma length_string_of_list_ascii (l : list ascii) :
  String.length (String.string_of_list_ascii l) = length l.
Proof. induction l as [|c l IH]; simpl; [done | by rewrite IH]. Qed.

Lemma string_length_app (s1 s2 : string) :
  String.length (s1 +:+ s2) = (String.length s1 + String.length s2)%nat.
Proof. induction s1 as [|c s1 IH]; simpl; [done | by rewrite IH]. Qed.

Lemma string_app_assoc (s1 s2 s3 : string) : (s1 +:+ s2) +:+ s3 = s1 +:+ (s2 +:+ s3).
Proof.
  induction s1 as [|c s1 IH]; [reflexivity |].
  change (String c ((s1 +:+ s2) +:+ s3) = String c (s1 +:+ (s2 +:+ s3))).
  by f_equal.
Qed.

(** The character at column [y] of line [x] in lines of equal length [n]
    that are joined by newlines. *)
Lemma get_concat_lines (lines : list string) (n x y : nat) (line rest : string) :
  Forall (fun l => String.length l = n) lines →
  lines !! x = Some line → (y < n)%nat →
  String.get (x * S n + y) (String.concat newline lines +:+ rest) = String.get y line.
Proof.
  revert x. induction lines as [|l ls IH]; intros x Hlen Hx Hy; [done |].
  apply Forall_cons in Hlen as [Hl Hls].
  destruct ls as [|l2 ls].
  - destruct x as [|x]; [| done]. simpl in Hx. simplify_eq. simpl.
    symmetry. apply String.append_correct1. lia.
  - change (String.concat newline (l :: l2 :: ls))
      with (l +:+ newline +:+ String.concat newline (l2 :: ls)).
    destruct x as [|x]; simpl in Hx.
    + simplify_eq. rewrite string_app_assoc. simpl.
      symmetry. apply String.append_correct1. lia.
    + rewrite <- (string_app_assoc l newline), string_app_assoc.
      replace (S x * S n + y)%nat
        with ((x * S n + y) + String.length (l +:+ newline))%nat
        by (rewrite string_length_app, Hl; simpl; lia).
      rewrite <- String.append_correct2. by apply IH.
Qed.

Lemma render_char_spec (c : Cell) :
  render_char c = if decide (c = Wall) then "#"%char else "."%char.
Proof. by destruct c. Qed.

(** What [render] prints for the cell [(x, y)]: the character at offset
    [x * (height + 1) + y] of the text is ['#'] on a wall and ['.'] on
    every other cell, the cells that hold an agent included; no ['O'] and
    no ['X'] is printed for them. *)
Theorem render_marks_walls_only (s : Env) (x y : Z) :
  0 <= x < (grid_size s).1 → 0 <= y < (grid_size s).2 →
  String.get (Z.to_nat (x * ((grid_size s).2 + 1) + y)) (render s)
  = Some (if decide (cell_at (grid s) (x, y) = Wall) then "#"%char else "."%char).
Proof.
  intros Hx Hy. unfold render.
  replace (Z.to_nat (x * ((grid_size s).2 + 1) + y))
    with (Z.to_nat x * S (Z.to_nat (grid_size s).2) + Z.to_nat y)%nat.
  2:{ assert (0 <= x * ((grid_size s).2 + 1)) by (apply Z.mul_nonneg_nonneg; lia).
      apply Nat2Z.inj.
      rewrite Nat2Z.inj_add, Nat2Z.inj_mul, Nat2Z.inj_succ, !Z2Nat.id by lia. lia. }
  rewrite (get_concat_lines _ (Z.to_nat (grid_size s).2) _ _ (render_row s x)).
  - unfold render_row. rewrite get_string_of_list_ascii, list_lookup_fmap.
    rewrite lookup_seqZ_lt by lia. simpl. rewrite render_char_spec.
    by replace (0 + Z.of_nat (Z.to_nat y)) with y by lia.
  - unfold render_lines. apply Forall_fmap, Forall_forall. intros x' _. simpl.
    unfold render_row. by rewrite length_string_of_list_ascii, length_fmap, length_seqZ.
  - unfold render_lines. rewrite list_lookup_fmap, lookup_seqZ_lt by lia.
    simpl. by replace (0 + Z.of_nat (Z.to_nat x)) with x by lia.
  - lia.
Qed.

(** On [tie_env] the predator's cell [(2, 2)] is printed as ['.']. *)
Lemma render_marks_walls_only_witness :
  String.get 14 (render tie_env) = Some "."%char.
Proof.
  assert (Hx : 0 <= 2 < (grid_size tie_env).1) by (simpl; lia).
  assert (Hy : 0 <= 2 < (grid_size tie_env).2) by (simpl; lia).
  exact (render_marks_walls_only tie_env 2 2 Hx Hy).
Defined.

(** ** Observation *)

Lemma square_zeros {A} (n : Z) (z : A) : square n (zeros n n z).
Proof.
  unfold square, zeros. rewrite length_replicate. split; [done |].
  apply Forall_replicate, length_replicate.
Qed.

Lemma item_zeros {A} (n : Z) (z : A) i j :
  0 <= i < n → 0 <= j < n → item (zeros n n z) i j = Some z.
Proof.
  intros Hi Hj. unfold item, zeros.
  rewrite lookup_replicate_2 by lia. simpl. apply lookup_replicate_2. lia.
Qed.

Lemma square_set_item {A} (n : Z) (a : list (list A)) i j v :
  square n a → square n (set_item a i j v).
Proof.
  intros [Hl Hr]. unfold square, set_item. rewrite length_alter. split; [done |].
  apply Forall_alter; [done |]. intros row _ Hrow. by rewrite length_insert.
Qed.

Lemma item_set_item_eq {A} (n : Z) (a : list (list A)) i j v :
  square n a → 0 <= i < n → 0 <= j < n → item (set_item a i j v) i j = Some v.
Proof.
  intros [Hl Hr] Hi Hj. unfold item, set_item. rewrite list_lookup_alter_eq.
  destruct (a !! Z.to_nat i) as [row|] eqn:Erow.
  - simpl. apply list_lookup_insert_eq.
    rewrite Forall_forall in Hr. rewrite (Hr row); [lia |].
    by eapply list_elem_of_lookup_2.
  - apply lookup_ge_None in Erow. lia.
Qed.

Lemma item_set_item_ne {A} (a : list (list A)) i j v i' j' :
  0 <= i → 0 <= j → 0 <= i' → 0 <= j' → (i, j) ≠ (i', j') →
  item (set_item a i j v) i' j' = item a i' j'.
Proof.
  intros Hi Hj Hi' Hj' Hne. unfold item, set_item.
  destruct (decide (Z.to_nat i = Z.to_nat i')) as [Heq | Hni].
  - rewrite Heq, list_lookup_alter_eq. destruct (a !! Z.to_nat i'); [| done]. simpl.
    apply list_lookup_insert_ne. intros Hj2. apply Hne. f_equal; lia.
  - by rewrite list_lookup_alter_ne.
Qed.

Lemma item_promote (a : list (list Z)) i j :
  item (promote a) i j = float_of_int <$> item a i j.
Proof.
  unfold item, promote. rewrite list_lookup_fmap.
  destruct (a !! Z.to_nat i); [| done]. simpl. apply list_lookup_fmap.
Qed.

(** A double loop visits the offsets one after the other. *)
Lemma foldl_offsets {B} (g : B → Z → Z → B) (xs ys : list Z) (b : B) :
  foldl (fun b dx => foldl (fun b dy => g b dx dy) b ys) b xs
  = foldl (fun b p => g b p.1 p.2) b (xs ≫= fun dx => ys ≫= fun dy => [(dx, dy)]).
Proof.
  revert b. induction xs as [|dx xs IH]; intros b; [done |].
  rewrite bind_cons, foldl_app. simpl. rewrite IH. f_equal.
  clear. revert b. induction ys as [|dy ys IH]; intros b; [done |].
  rewrite bind_cons. simpl. apply IH.
Qed.

Lemma marked_flat s a L :
  marked s a L
  = foldl (fun L p => marked_cell s a L p.1 p.2) L
      (scope_range s ≫= fun dx => scope_range s ≫= fun dy => [(dx, dy)]).
Proof. apply (foldl_offsets (marked_cell s a)). Qed.

Lemma elem_of_offsets (xs ys : list Z) dx dy :
  (dx, dy) ∈ (xs ≫= fun dx => ys ≫= fun dy => [(dx, dy)]) ↔ dx ∈ xs ∧ dy ∈ ys.
Proof.
  rewrite list_elem_of_bind. split.
  - intros (x & (y & Hy%list_elem_of_singleton & ?)%list_elem_of_bind & ?).
    by simplify_eq.
  - intros [? ?]. exists dx. split; [| done].
    apply list_elem_of_bind. exists dy. split; [by apply list_elem_of_singleton | done].
Qed.

Lemma NoDup_offsets (xs ys : list Z) :
  NoDup xs → NoDup ys → NoDup (xs ≫= fun dx => ys ≫= fun dy => [(dx, dy)]).
Proof.
  intros Hx Hy. apply NoDup_bind; [| | done].
  - intros x1 x2 [a b] _ _ (y1 & ?%list_elem_of_singleton & _)%list_elem_of_bind
      (y2 & ?%list_elem_of_singleton & _)%list_elem_of_bind. congruence.
  - intros x _. apply NoDup_bind; [| | done].
    + intros y1 y2 [a b] _ _ ?%list_elem_of_singleton ?%list_elem_of_singleton.
      congruence.
    + intros y _. apply NoDup_singleton.
Qed.

(** A layer that each offset either leaves alone or writes at its own
    entry holds, after the loop, what its offset wrote. *)
Lemma written_layer {A} (sc : Z) (proj : Layers → list (list A))
    (w : Z → Z → option A) (f : Layers → Z → Z → Layers) (ps : list (Z * Z)) L :
  (∀ L dx dy, proj (f L dx dy)
     = match w dx dy with
       | Some v => set_item (proj L) (dx + sc) (dy + sc) v
       | None => proj L
       end) →
  NoDup ps → Forall (fun p => - sc <= p.1 <= sc ∧ - sc <= p.2 <= sc) ps →
  square (sc * 2 + 1) (proj L) →
  square (sc * 2 + 1) (proj (foldl (fun L p => f L p.1 p.2) L ps)) ∧
  ∀ dx dy, - sc <= dx <= sc → - sc <= dy <= sc →
    item (proj (foldl (fun L p => f L p.1 p.2) L ps)) (dx + sc) (dy + sc)
    = match (if decide ((dx, dy) ∈ ps) then w dx dy else None) with
      | Some v => Some v
      | None => item (proj L) (dx + sc) (dy + sc)
      end.
Proof.
  intros Hf Hnd. revert L. induction Hnd as [|[px py] ps Hp Hnd IH]; intros L Hr Hsq.
  - split; [done |]. intros dx dy _ _. rewrite decide_False; [done | apply not_elem_of_nil].
  - apply Forall_cons in Hr as [[Hpx Hpy] Hr]. simpl in Hpx, Hpy.
    assert (Hsq1 : square (sc * 2 + 1) (proj (f L px py))).
    { rewrite Hf. destruct (w px py); [by apply square_set_item | done]. }
    destruct (IH (f L px py) Hr Hsq1) as [Hsq' Hit]. simpl.
    split; [done |]. intros dx dy Hdx Hdy. rewrite Hit by done.
    destruct (decide ((dx, dy) = (px, py))) as [[= -> ->] | Hne].
    + rewrite (decide_False (P := (px, py) ∈ ps)) by done.
      rewrite (decide_True (P := (px, py) ∈ (px, py) :: ps)) by (by left).
      rewrite Hf. destruct (w px py); [| done].
      apply (item_set_item_eq (sc * 2 + 1)); [done | lia | lia].
    + assert (Hmem : (dx, dy) ∈ (px, py) :: ps ↔ (dx, dy) ∈ ps).
      { rewrite elem_of_cons. naive_solver. }
      rewrite (decide_ext _ _ _ _ Hmem).
      destruct (if decide ((dx, dy) ∈ ps) then w dx dy else None); [done |].
      rewrite Hf. destruct (w px py); [| done].
      apply item_set_item_ne; try lia. intros [= ? ?]. apply Hne. f_equal; lia.
Qed.

(** The loop of [get_observation], layer by layer. *)
Lemma marked_layer {A} s a (proj : Layers → list (list A)) (w : Z → Z → option A) L :
  (∀ L dx dy, proj (marked_cell s a L dx dy)
     = match w dx dy with
       | Some v => set_item (proj L) (dx + predator_scope s) (dy + predator_scope s) v
       | None => proj L
       end) →
  square (predator_scope s * 2 + 1) (proj L) →
  square (predator_scope s * 2 + 1) (proj (marked s a L)) ∧
  ∀ dx dy, - predator_scope s <= dx <= predator_scope s →
           - predator_scope s <= dy <= predator_scope s →
    item (proj (marked s a L)) (dx + predator_scope s) (dy + predator_scope s)
    = match w dx dy with
      | Some v => Some v
      | None => item (proj L) (dx + predator_scope s) (dy + predator_scope s)
      end.
Proof.
  intros Hf Hsq. rewrite marked_flat.
  destruct (written_layer (predator_scope s) proj w (marked_cell s a)
              (scope_range s ≫= fun dx => scope_range s ≫= fun dy => [(dx, dy)]) L Hf)
    as [Hsq' Hit]; [| | done |].
  - apply NoDup_offsets; apply NoDup_seqZ.
  - apply Forall_forall. intros [dx dy] [Hdx Hdy]%elem_of_offsets.
    unfold scope_range in *. apply elem_of_seqZ in Hdx, Hdy. simpl. lia.
  - split; [done |]. intros dx dy Hdx Hdy. rewrite Hit by done.
    rewrite decide_True; [done |]. apply elem_of_offsets.
    unfold scope_range. rewrite !elem_of_seqZ. lia.
Qed.

Lemma float_of_int_0 : float_of_int 0 = 0%float.
Proof. reflexivity. Qed.

Lemma float_of_int_1 : float_of_int 1 = 1%float.
Proof. reflexivity. Qed.

Lemma square_promote n a : square n a → square n (promote a).
Proof.
  intros [Hl Hr]. unfold square, promote. rewrite length_fmap. split; [done |].
  apply Forall_fmap. eapply Forall_impl; [done |]. simpl. intros row Hrow.
  by rewrite length_fmap.
Qed.

(** The layers after the double loop: every layer keeps its shape, and the
    entry of an offset holds what the cell at that offset made the loop
    write. *)
Lemma marked_layers s a :
  let size := predator_scope s * 2 + 1 in
  let L := marked s a
             (mkLayers (zeros size size 0) (zeros size size 0) (zeros size size 0)
                       (zeros size size 0%float)) in
  square size (wall_layer L) ∧ square size (predator_layer L) ∧
  square size (prey_layer L) ∧ square size (health_layer L) ∧
  ∀ dx dy, - predator_scope s <= dx <= predator_scope s →
           - predator_scope s <= dy <= predator_scope s →
    let c := cell_at (grid s) ((a.1 + dx) mod (grid_size s).1,
                               (a.2 + dy) mod (grid_size s).2) in
    let i := dx + predator_scope s in
    let j := dy + predator_scope s in
    (float_of_int <$> item (wall_layer L) i j,
     float_of_int <$> item (predator_layer L) i j,
     float_of_int <$> item (prey_layer L) i j,
     item (health_layer L) i j)
    = (Some (pixel s c).1.1.1, Some (pixel s c).1.1.2, Some (pixel s c).1.2,
       Some (pixel s c).2).
Proof.
  intros size L. unfold L. set (L0 := mkLayers _ _ _ _).
  pose (cell := fun dx dy => cell_at (grid s) ((a.1 + dx) mod (grid_size s).1,
                                               (a.2 + dy) mod (grid_size s).2)).
  destruct (marked_layer s a wall_layer
              (fun dx dy => match cell dx dy with Wall => Some 1 | _ => None end) L0)
    as [Hsw Hw].
  { intros L1 x y. unfold marked_cell, mark_cell, cell.
    destruct (cell_at _ _) as [| |h']; try done. by destruct (role (objs s h')). }
  { apply square_zeros. }
  destruct (marked_layer s a predator_layer
              (fun dx dy => match cell dx dy with
                            | Ref h' => match role (objs s h') with
                                        | predator => Some 1 | prey => None end
                            | _ => None end) L0)
    as [Hsp Hp].
  { intros L1 x y. unfold marked_cell, mark_cell, cell.
    destruct (cell_at _ _) as [| |h']; try done. by destruct (role (objs s h')). }
  { apply square_zeros. }
  destruct (marked_layer s a prey_layer
              (fun dx dy => match cell dx dy with
                            | Ref h' => match role (objs s h') with
                                        | predator => None | prey => Some 1 end
                            | _ => None end) L0)
    as [Hsy Hy].
  { intros L1 x y. unfold marked_cell, mark_cell, cell.
    destruct (cell_at _ _) as [| |h']; try done. by destruct (role (objs s h')). }
  { apply square_zeros. }
  destruct (marked_layer s a health_layer
              (fun dx dy => match cell dx dy with
                            | Ref h' => Some (health (objs s h'))
                            | _ => None end) L0)
    as [Hsh Hh].
  { intros L1 x y. unfold marked_cell, mark_cell, cell.
    destruct (cell_at _ _) as [| |h']; try done. by destruct (role (objs s h')). }
  { apply square_zeros. }
  split; [done |]. split; [done |]. split; [done |]. split; [done |].
  intros dx dy Hdx Hdy. simpl. rewrite Hw, Hp, Hy, Hh by done. unfold cell.
  unfold L0, size. simpl. rewrite !item_zeros by lia.
  destruct (cell_at _ _) as [| |h']; simpl; try done.
  by destruct (role (objs s h')).
Qed.

Lemma float_1_ne_0 : 1%float ≠ 0%float.
Proof. intros H. apply (f_equal Prim2SF) in H. vm_compute in H. discriminate. Qed.

(** The outcomes of [get_observation].  A negative scope makes [np.zeros]
    raise [ValueError]; otherwise a zero dimension of the grid makes the
    first [%] of the loop raise [ZeroDivisionError]; otherwise the call
    returns four square layers of side [2 * scope + 1]. *)
Theorem observation_shape (s : Env) (h : nat) :
  match get_observation s h with
  | Ok o =>
      0 <= predator_scope s ∧ (grid_size s).1 ≠ 0 ∧ (grid_size s).2 ≠ 0 ∧
      length o = 4%nat ∧ Forall (square (predator_scope s * 2 + 1)) o
  | Raise e =>
      (e = ValueError ∧ predator_scope s < 0) ∨
      (e = ZeroDivisionError ∧ 0 <= predator_scope s ∧
       ((grid_size s).1 = 0 ∨ (grid_size s).2 = 0))
  | OutOfDraws => False
  end.
Proof.
  destruct (get_observation_cases s h) as [[Hs ->] | [(Hs & Hz & ->) | (Hs & H1 & H2 & ->)]].
  - by left.
  - by right.
  - do 3 (split; [done |]). split; [done |].
    destruct (marked_layers s (position (objs s h))) as (Hw & Hp & Hy & Hh & _).
    unfold stack.
    apply Forall_cons. split; [by apply square_promote |].
    apply Forall_cons. split; [by apply square_promote |].
    apply Forall_cons. split; [by apply square_promote |].
    apply Forall_cons. split; [done | apply Forall_nil]. done.
Qed.

Lemma get_observation_Ok_scope s h o :
  get_observation s h = Ok o → 0 <= predator_scope s.
Proof.
  by intros (? & _)%get_observation_Ok_marked.
Qed.

Lemma get_observation_entries (s : Env) (h : nat) (o : Observation) (dx dy : Z) :
  get_observation s h = Ok o →
  - predator_scope s <= dx <= predator_scope s →
  - predator_scope s <= dy <= predator_scope s →
  (entry o 0 (dx + predator_scope s) (dy + predator_scope s),
   entry o 1 (dx + predator_scope s) (dy + predator_scope s),
   entry o 2 (dx + predator_scope s) (dy + predator_scope s),
   entry o 3 (dx + predator_scope s) (dy + predator_scope s))
  = let c := cell_at (grid s)
               (((position (objs s h)).1 + dx) mod (grid_size s).1,
                ((position (objs s h)).2 + dy) mod (grid_size s).2) in
    (Some (pixel s c).1.1.1, Some (pixel s c).1.1.2, Some (pixel s c).1.2,
     Some (pixel s c).2).
Proof.
  intros H Hdx Hdy. apply get_observation_Ok_marked in H as (_ & _ & _ & ->).
  destruct (marked_layers s (position (objs s h))) as (_ & _ & _ & _ & Hit).
  specialize (Hit dx dy Hdx Hdy). simpl in Hit.
  unfold entry, stack. simpl. rewrite !item_promote. exact Hit.
Qed.

(** What an observation encodes: the four entries at the offset [(dx, dy)]
    are the wall, predator and prey flags and the health of the cell at
    [((ax + dx) % W, (ay + dy) % H)]. *)
Theorem observation_content (s : Env) (h : nat) (o : Observation) (dx dy : Z) :
  get_observation s h = Ok o →
  - predator_scope s <= dx <= predator_scope s →
  - predator_scope s <= dy <= predator_scope s →
  (entry o 0 (dx + predator_scope s) (dy + predator_scope s),
   entry o 1 (dx + predator_scope s) (dy + predator_scope s),
   entry o 2 (dx + predator_scope s) (dy + predator_scope s),
   entry o 3 (dx + predator_scope s) (dy + predator_scope s))
  = let c := cell_at (grid s)
               (((position (objs s h)).1 + dx) mod (grid_size s).1,
                ((position (objs s h)).2 + dy) mod (grid_size s).2) in
    (Some (pixel s c).1.1.1, Some (pixel s c).1.1.2, Some (pixel s c).1.2,
     Some (pixel s c).2).
Proof. apply get_observation_entries. Qed.

(** The predator of [tie_env] at [(2, 2)] sees the prey at [(1, 2)], with
    its health, at offset [(-1, 0)]. *)
Lemma observation_content_witness :
  ∃ o, get_observation tie_env 0 = Ok o ∧
       (entry o 0 0 1, entry o 1 0 1, entry o 2 0 1, entry o 3 0 1)
       = (Some 0, Some 0, Some 1, Some 1)%float.
Proof.
  assert (Hok : is_Ok (get_observation tie_env 0) = true) by (vm_compute; reflexivity).
  destruct (get_observation tie_env 0) as [o | |] eqn:E; try discriminate Hok.
  exists o. split; [reflexivity |].
  assert (Hdx : - predator_scope tie_env <= -1 <= predator_scope tie_env)
    by (simpl; lia).
  assert (Hdy : - predator_scope tie_env <= 0 <= predator_scope tie_env)
    by (simpl; lia).
  exact (observation_content tie_env 0 o (-1) 0 E Hdx Hdy).
Defined.

(** In a state that satisfies the occupancy invariant an agent sees itself
    at the centre of its own observation: no wall, the flag of its role,
    and its own health. *)
Theorem observation_centre (s : Env) (h : nat) (o : Observation) :
  well_formed s → occupancy s → h ∈ agents s →
  get_observation s h = Ok o →
  (entry o 0 (predator_scope s) (predator_scope s),
   entry o 1 (predator_scope s) (predator_scope s),
   entry o 2 (predator_scope s) (predator_scope s),
   entry o 3 (predator_scope s) (predator_scope s))
  = (Some 0%float,
     Some (if decide (role (objs s h) = predator) then 1%float else 0%float),
     Some (if decide (role (objs s h) = prey) then 1%float else 0%float),
     Some (health (objs s h))).
Proof.
  intros (HW & HH & Hpos & _) (Hocc & _) Hh H.
  pose proof (get_observation_Ok_scope _ _ _ H) as Hsc.
  pose proof (get_observation_entries s h o 0 0 H) as He.
  rewrite !Z.add_0_l in He. rewrite He by lia. clear He. simpl.
  rewrite Forall_forall in Hpos, Hocc.
  destruct (Hpos h Hh) as [Hx Hy].
  rewrite !Z.add_0_r, !Z.mod_small by lia.
  rewrite <- surjective_pairing, (Hocc h Hh). simpl.
  by destruct (role (objs s h)).
Qed.

Lemma tie_env_well_formed : well_formed tie_env.
Proof. unfold well_formed; simpl. repeat split; try lia; repeat constructor; simpl; lia. Qed.

Lemma tie_env_occupancy : occupancy tie_env.
Proof. apply (bool_decide_unpack _). vm_compute. exact I. Qed.

Lemma observation_centre_witness :
  ∃ o, get_observation tie_env 0 = Ok o ∧
       (entry o 0 1 1, entry o 1 1 1, entry o 2 1 1, entry o 3 1 1)
       = (Some 0, Some 1, Some 0, Some 1)%float.
Proof.
  assert (Hok : is_Ok (get_observation tie_env 0) = true) by (vm_compute; reflexivity).
  destruct (get_observation tie_env 0) as [o | |] eqn:E; try discriminate Hok.
  exists o. split; [reflexivity |].
  assert (Hh : 0%nat ∈ agents tie_env) by (simpl; set_solver).
  exact (observation_centre tie_env 0 o tie_env_well_formed tie_env_occupancy Hh E).
Defined.

Lemma elem_of_prey_in_scope_iff s p e :
  e ∈ prey_in_scope s p ↔
  ∃ dx dy, - predator_scope s <= dx <= predator_scope s ∧
           - predator_scope s <= dy <= predator_scope s ∧
           (dx, dy) ≠ (0, 0) ∧
           e = (Z.abs dx + Z.abs dy,
                ((p.1 + dx) mod (grid_size s).1, (p.2 + dy) mod (grid_size s).2)) ∧
           is_prey_cell (objs s) (cell_at (grid s) e.2) = true.
Proof.
  unfold prey_in_scope. rewrite list_elem_of_bind. split.
  - intros (dx & (dy & He & Hdy)%list_elem_of_bind & Hdx).
    unfold scope_range in *. apply elem_of_seqZ in Hdx, Hdy.
    exists dx, dy. split; [lia |]. split; [lia |].
    unfold scan_cell in He. destruct ((dx =? 0) && (dy =? 0)) eqn:E0;
      [by apply elem_of_nil in He |].
    simpl in He. destruct (is_prey_cell _ _) eqn:E; [| by apply elem_of_nil in He].
    apply list_elem_of_singleton in He as ->. simpl. split; [| done].
    intros [= -> ->]. done.
  - intros (dx & dy & Hdx & Hdy & Hne & -> & Hprey). simpl in Hprey.
    exists dx. split; [| unfold scope_range; apply elem_of_seqZ; lia].
    apply list_elem_of_bind. exists dy.
    split; [| unfold scope_range; apply elem_of_seqZ; lia].
    unfold scan_cell. destruct ((dx =? 0) && (dy =? 0)) eqn:E0.
    + apply andb_true_iff in E0 as [?%Z.eqb_eq ?%Z.eqb_eq]. by simplify_eq.
    + simpl. rewrite Hprey. by apply list_elem_of_singleton.
Qed.

(** Hunting and observation agree: the scan list of [hunting] for an agent
    holds exactly the cells that the agent's own observation flags as prey
    away from the centre, each with the Manhattan length of its offset. *)
Theorem hunting_scans_observed_prey (s : Env) (h : nat) (o : Observation) (e : Z * pos) :
  get_observation s h = Ok o →
  e ∈ prey_in_scope s (position (objs s h)) ↔
  ∃ dx dy, - predator_scope s <= dx <= predator_scope s ∧
           - predator_scope s <= dy <= predator_scope s ∧
           (dx, dy) ≠ (0, 0) ∧
           entry o 2 (dx + predator_scope s) (dy + predator_scope s) = Some 1%float ∧
           e = (Z.abs dx + Z.abs dy,
                (((position (objs s h)).1 + dx) mod (grid_size s).1,
                 ((position (objs s h)).2 + dy) mod (grid_size s).2)).
Proof.
  intros H. rewrite elem_of_prey_in_scope_iff.
  assert (Hflag : ∀ dx dy,
    - predator_scope s <= dx <= predator_scope s →
    - predator_scope s <= dy <= predator_scope s →
    entry o 2 (dx + predator_scope s) (dy + predator_scope s) = Some 1%float ↔
    is_prey_cell (objs s)
      (cell_at (grid s) (((position (objs s h)).1 + dx) mod (grid_size s).1,
                         ((position (objs s h)).2 + dy) mod (grid_size s).2)) = true).
  { intros dx dy Hdx Hdy.
    pose proof (get_observation_entries s h o dx dy H Hdx Hdy) as He.
    simpl in He. injection He as _ _ -> _.
    destruct (cell_at _ _) as [| |h']; simpl.
    - split; [intros [= Hf]; by destruct float_1_ne_0 | done].
    - split; [intros [= Hf]; by destruct float_1_ne_0 | done].
    - destruct (role (objs s h')) eqn:Er; simpl.
      + rewrite ?bool_decide_eq_true.
        split; [intros [= Hf]; by destruct float_1_ne_0 | done].
      + by rewrite ?bool_decide_eq_true. }
  split.
  - intros (dx & dy & Hdx & Hdy & Hne & -> & Hprey). exists dx, dy.
    split; [done |]. split; [done |]. split; [done |]. split; [| done].
    by apply Hflag.
  - intros (dx & dy & Hdx & Hdy & Hne & Hentry & ->). exists dx, dy.
    split; [done |]. split; [done |]. split; [done |]. split; [done |].
    by apply Hflag.
Qed.

Lemma hunting_scans_observed_prey_witness :
  ∃ o, get_observation tie_env 0 = Ok o ∧
       (1, (1, 2)) ∈ prey_in_scope tie_env (position (objs tie_env 0)).
Proof.
  assert (Hok : is_Ok (get_observation tie_env 0) = true) by (vm_compute; reflexivity).
  destruct (get_observation tie_env 0) as [o | |] eqn:E; try discriminate Hok.
  exists o. split; [reflexivity |].
  apply (hunting_scans_observed_prey tie_env 0 o (1, (1, 2)) E).
  exists (-1), 0. split; [simpl; lia |]. split; [simpl; lia |].
  split; [discriminate |]. split; [| reflexivity].
  assert (Ho : Ok o = get_observation tie_env 0) by done.
  vm_compute in Ho. injection Ho as ->. reflexivity.
Defined.

(** ** Hunger *)

Lemma remove_first_filter (h : nat) (l : list nat) :
  NoDup l → remove_first h l = filter (fun x => x ≠ h) l.
Proof.
  induction 1 as [|y l Hy Hnd IH]; simpl; [done |].
  destruct (decide (y = h)) as [-> | Hne].
  - rewrite filter_cons_False by (intros ?; done).
    clear IH Hnd. induction l as [|z l IH]; [done |].
    rewrite filter_cons_True by set_solver. f_equal. apply IH. set_solver.
  - rewrite filter_cons_True by done. by rewrite IH.
Qed.

(** The hunger loop over the pairwise distinct objects [l]: each of them
    is decremented once, and those whose health is then not positive leave
    the registry, have their cell cleared and their id flagged. *)
Lemma hunger_loop_spec (l : list nat) :
  NoDup l → ∀ s d, NoDup (agents s) →
  (∀ h, objs (foldl hunger_one (s, d) l).1 h
        = if decide (h ∈ l) then add_health (objs s h) (-0.01)%float else objs s h) ∧
  agents (foldl hunger_one (s, d) l).1
  = filter (fun h => ¬ (h ∈ l ∧ starving s h)) (agents s) ∧
  (∀ q, (∃ h, h ∈ l ∧ starving s h ∧ position (objs s h) = q) →
        cell_at (grid (foldl hunger_one (s, d) l).1) q = Empty) ∧
  (∀ q, ¬ (∃ h, h ∈ l ∧ starving s h ∧ position (objs s h) = q) →
        cell_at (grid (foldl hunger_one (s, d) l).1) q = cell_at (grid s) q) ∧
  (∀ k, (∃ h, h ∈ l ∧ starving s h ∧ id (objs s h) = k) →
        (foldl hunger_one (s, d) l).2 !! k = Some true) ∧
  (∀ k, ¬ (∃ h, h ∈ l ∧ starving s h ∧ id (objs s h) = k) →
        (foldl hunger_one (s, d) l).2 !! k = d !! k).
Proof.
  induction 1 as [|h l Hh Hnd IH]; intros s d Hag.
  - simpl. split; [done |]. split.
    { symmetry. clear. induction (agents s) as [|x l IH]; [done |].
      rewrite filter_cons_True; [by f_equal |]. intros [?%elem_of_nil _]. done. }
    split; [by intros q (h & ?%elem_of_nil & _) |]. split; [done |].
    split; [by intros q (h & ?%elem_of_nil & _) | done].
  - change (foldl hunger_one (s, d) (h :: l))
      with (foldl hunger_one (hunger_one (s, d) h) l).
    destruct (hunger_one (s, d) h) as [s1 d1] eqn:E1.
    assert (Hcase :
      (starving s h ∧
       s1 = with_grid
              (with_agents
                 (with_objs s (<[h := add_health (objs s h) (-0.01)%float]> (objs s)))
                 (remove_first h (agents s)))
              (set_cell (grid s) (position (objs s h)) Empty) ∧
       d1 = <[id (objs s h) := true]> d) ∨
      (¬ starving s h ∧
       s1 = with_objs s (<[h := add_health (objs s h) (-0.01)%float]> (objs s)) ∧
       d1 = d)).
    { unfold hunger_one in E1. unfold starving.
      destruct (PrimFloat.leb _ _); simplify_eq; [left | right]; done. }
    clear E1.
    assert (Ho1 : ∀ x, objs s1 x
              = if decide (x = h) then add_health (objs s h) (-0.01)%float else objs s x).
    { intros x. destruct Hcase as [(_ & -> & _) | (_ & -> & _)]; simpl;
        (destruct (decide (x = h)) as [-> | ?];
           [by rewrite fn_lookup_insert | by rewrite fn_lookup_insert_ne]). }
    assert (Hsame : ∀ x, x ∈ l → objs s1 x = objs s x).
    { intros x Hx. rewrite Ho1, decide_False; [done | congruence]. }
    assert (Hst : ∀ x, x ∈ l → starving s1 x ↔ starving s x).
    { intros x Hx. unfold starving. by rewrite Hsame. }
    assert (Ha1 : agents s1 = filter (fun x => ¬ (x = h ∧ starving s h)) (agents s)).
    { destruct Hcase as [(Hs & -> & _) | (Hs & -> & _)]; simpl.
      - rewrite remove_first_filter by done. apply list_filter_iff.
        intros x. naive_solver.
      - symmetry. clear -Hs. induction (agents s) as [|x l IH]; [done |].
        rewrite filter_cons_True; [by f_equal |]. by intros [_ ?]. }
    assert (Hg1 : ∀ q, cell_at (grid s1) q
              = if decide (starving s h ∧ position (objs s h) = q) then Empty
                else cell_at (grid s) q).
    { intros q. destruct Hcase as [(Hs & -> & _) | (Hs & -> & _)]; simpl.
      - rewrite cell_at_set_cell. repeat case_decide; naive_solver.
      - rewrite decide_False; [done |]. by intros [? _]. }
    assert (Hd1 : ∀ k, d1 !! k
              = if decide (starving s h ∧ id (objs s h) = k) then Some true else d !! k).
    { intros k. destruct Hcase as [(Hs & _ & ->) | (Hs & _ & ->)]; simpl.
      - destruct (decide (id (objs s h) = k)) as [<- | Hne].
        + rewrite lookup_insert_eq. by rewrite decide_True.
        + rewrite lookup_insert_ne by done. rewrite decide_False; [done |]. naive_solver.
      - rewrite decide_False; [done |]. by intros [? _]. }
    assert (Hag1 : NoDup (agents s1)) by (rewrite Ha1; by apply NoDup_filter).
    destruct (IH s1 d1 Hag1) as (Ho & Ha & Hg & Hg' & Hd & Hd').
    split; [| split; [| split; [| split; [| split]]]].
    + intros x. rewrite Ho, Ho1. destruct (decide (x = h)) as [-> | Hne].
      * rewrite decide_False by done. rewrite decide_True by (by left). done.
      * destruct (decide (x ∈ l)).
        -- rewrite decide_True by (by right). done.
        -- rewrite decide_False; [done |]. by intros [? | ?]%elem_of_cons.
    + rewrite Ha, Ha1, list_filter_filter. apply list_filter_iff.
      intros x. rewrite elem_of_cons. split.
      * intros [H1 H2] [[-> | Hx] Hs]; [by apply H2 |].
        apply H1. split; [done |]. by apply Hst.
      * intros H. split.
        -- intros [Hx Hs]. apply H. split; [by right |]. by apply Hst.
        -- intros [-> Hs]. apply H. split; [by left | done].
    + intros q (x & [-> | Hx]%elem_of_cons & Hs & Hq).
      * destruct (decide (Exists (fun y => starving s1 y ∧ position (objs s1 y) = q) l))
          as [He | He]; rewrite Exists_exists in He; [by apply Hg |].
        rewrite Hg' by done. rewrite Hg1. by rewrite decide_True.
      * apply Hg. exists x. rewrite Hsame by done. split; [done |].
        split; [by apply Hst | done].
    + intros q Hq. rewrite Hg'.
      * rewrite Hg1. rewrite decide_False; [done |].
        intros [? ?]. apply Hq. exists h. split; [by left | done].
      * intros (x & Hx & Hs & Hpos). apply Hq. exists x. split; [by right |].
        rewrite Hsame in Hpos by done. split; [by apply Hst | done].
    + intros k (x & [-> | Hx]%elem_of_cons & Hs & Hk).
      * destruct (decide (Exists (fun y => starving s1 y ∧ id (objs s1 y) = k) l))
          as [He | He]; rewrite Exists_exists in He; [by apply Hd |].
        rewrite Hd' by done. rewrite Hd1. by rewrite decide_True.
      * apply Hd. exists x. rewrite Hsame by done. split; [done |].
        split; [by apply Hst | done].
    + intros k Hk. rewrite Hd'.
      * rewrite Hd1. rewrite decide_False; [done |].
        intros [? ?]. apply Hk. exists h. split; [by left | done].
      * intros (x & Hx & Hs & Hid). apply Hk. exists x. split; [by right |].
        rewrite Hsame in Hid by done. split; [by apply Hst | done].
Qed.

Lemma elem_of_by_role s r h : h ∈ by_role s r ↔ h ∈ agents s ∧ role (objs s h) = r.
Proof. unfold by_role. rewrite list_elem_of_filter. naive_solver. Qed.

(** In the hunger phase the health of every live predator becomes
    [health + (-0.01)], once; no other attribute and no other object
    changes. *)
Theorem hunger_decrements_predators (s : Env) (d : gmap string bool) (h : nat) :
  NoDup (agents s) →
  objs (predator_hunger s d).1 h
  = if decide (h ∈ agents s ∧ role (objs s h) = predator)
    then add_health (objs s h) (-0.01)%float else objs s h.
Proof.
  intros Hnd. unfold predator_hunger.
  destruct (hunger_loop_spec (by_role s predator) (NoDup_filter _ _ Hnd) s d Hnd)
    as (Ho & _).
  rewrite Ho. apply decide_ext, elem_of_by_role.
Qed.

Lemma hungry_env_NoDup : NoDup (agents hungry_env).
Proof. apply (bool_decide_unpack _). vm_compute. exact I. Qed.

Lemma hunger_decrements_predators_witness :
  health (objs (predator_hunger hungry_env ∅).1 0) = PrimFloat.add 1 (-0.01).
Proof.
  exact (f_equal health (hunger_decrements_predators hungry_env ∅ 0 hungry_env_NoDup)).
Defined.

(** A float that fails the test [x <= 0] is greater than [0] or is NaN. *)
Lemma not_leb_0 (x : float) :
  PrimFloat.leb x 0 = false → PrimFloat.eqb x x = true → PrimFloat.ltb 0 x = true.
Proof.
  rewrite FloatAxioms.leb_spec, FloatAxioms.eqb_spec, FloatAxioms.ltb_spec.
  change (Prim2SF 0) with (S754_zero false).
  destruct (Prim2SF x) as [sg | sg | | sg m e]; try done; by destruct sg.
Qed.

(** The hunger phase removes exactly the predators whose decremented
    health passes the test [health <= 0], in registry order, and no prey.
    Every predator that is still registered has failed that test: its
    health is greater than [0], unless it is NaN, which no comparison
    accepts. *)
Theorem hunger_removes_starved (s : Env) (d : gmap string bool) :
  NoDup (agents s) →
  agents (predator_hunger s d).1
  = filter (fun h => ¬ (role (objs s h) = predator ∧ starving s h)) (agents s) ∧
  (∀ h, h ∈ agents (predator_hunger s d).1 →
        role (objs (predator_hunger s d).1 h) = predator →
        PrimFloat.leb (health (objs (predator_hunger s d).1 h)) 0 = false ∧
        (PrimFloat.eqb (health (objs (predator_hunger s d).1 h))
                       (health (objs (predator_hunger s d).1 h)) = true →
         PrimFloat.ltb 0 (health (objs (predator_hunger s d).1 h)) = true)) ∧
  by_role (predator_hunger s d).1 prey = by_role s prey.
Proof.
  intros Hnd. unfold predator_hunger.
  destruct (hunger_loop_spec (by_role s predator) (NoDup_filter _ _ Hnd) s d Hnd)
    as (Ho & Ha & _).
  assert (Hag : agents (foldl hunger_one (s, d) (by_role s predator)).1
    = filter (fun h => ¬ (role (objs s h) = predator ∧ starving s h)) (agents s)).
  { rewrite Ha. apply filter_ext_in. intros h Hh. rewrite elem_of_by_role. naive_solver. }
  split; [done |]. split.
  - intros h Hh Hr.
    assert (Hle : PrimFloat.leb
                    (health (objs (foldl hunger_one (s, d) (by_role s predator)).1 h)) 0
                  = false).
    { rewrite Hag in Hh. apply list_elem_of_filter in Hh as [Hns Hh].
      rewrite Ho in Hr |- *.
      destruct (decide (h ∈ by_role s predator)) as [Hp | Hp].
      + apply elem_of_by_role in Hp as [_ Hp]. apply not_true_is_false.
        intros Hle. apply Hns. done.
      + destruct Hp. by apply elem_of_by_role. }
    split; [done |]. by apply not_leb_0.
  - unfold by_role at 1. rewrite Hag, list_filter_filter. unfold by_role.
    apply filter_ext_in. intros h Hh. rewrite Ho.
    destruct (decide (h ∈ by_role s predator)) as [Hp | Hp]; simpl.
    + apply elem_of_by_role in Hp as [_ Hp]. rewrite Hp. naive_solver.
    + split; [naive_solver |]. intros Hr. split; [done |]. intros [? _]. congruence.
Qed.

(** Of the two predators of [hungry_env] the one with health [0.005] is
    removed. *)
Lemma hunger_removes_starved_witness :
  agents (predator_hunger hungry_env ∅).1 = [0%nat].
Proof. exact (proj1 (hunger_removes_starved hungry_env ∅ hungry_env_NoDup)). Defined.

(** What the hunger phase does to the grid and to the done flags: the cell
    of every starved predator is set to [0] and its id is flagged [True];
    every other cell and every other flag is left as it was. *)
Theorem hunger_clears_and_flags (s : Env) (d : gmap string bool) :
  NoDup (agents s) →
  (∀ h, h ∈ agents s → role (objs s h) = predator → starving s h →
        cell_at (grid (predator_hunger s d).1) (position (objs s h)) = Empty ∧
        (predator_hunger s d).2 !! id (objs s h) = Some true) ∧
  (∀ q, (∀ h, h ∈ agents s → role (objs s h) = predator → starving s h →
              position (objs s h) ≠ q) →
        cell_at (grid (predator_hunger s d).1) q = cell_at (grid s) q) ∧
  (∀ k, (∀ h, h ∈ agents s → role (objs s h) = predator → starving s h →
              id (objs s h) ≠ k) →
        (predator_hunger s d).2 !! k = d !! k).
Proof.
  intros Hnd. unfold predator_hunger.
  destruct (hunger_loop_spec (by_role s predator) (NoDup_filter _ _ Hnd) s d Hnd)
    as (_ & _ & Hg & Hg' & Hd & Hd').
  split; [| split].
  - intros h Hh Hr Hs. split; [apply Hg | apply Hd]; exists h;
      (split; [by apply elem_of_by_role | done]).
  - intros q Hq. apply Hg'. intros (h & [Hh Hr]%elem_of_by_role & Hs & Hp).
    by apply (Hq h).
  - intros k Hk. apply Hd'. intros (h & [Hh Hr]%elem_of_by_role & Hs & Hp).
    by apply (Hk h).
Qed.

Lemma hunger_clears_and_flags_witness :
  cell_at (grid (predator_hunger hungry_env ∅).1) (1, 1) = Empty ∧
  (predator_hunger hungry_env ∅).2 !! "pr_1" = Some true.
Proof.
  assert (Hh : 1%nat ∈ agents hungry_env) by (simpl; set_solver).
  assert (Hs : starving hungry_env 1) by (vm_compute; reflexivity).
  exact (proj1 (hunger_clears_and_flags hungry_env ∅ hungry_env_NoDup) 1%nat Hh eq_refl Hs).
Defined.

(** ** Hunting *)

Lemma target_prey_pos_None s p : target_prey_pos s p = None ↔ prey_in_scope s p = [].
Proof.
  unfold target_prey_pos. split.
  - intros H. destruct (prey_in_scope s p) as [|x l] eqn:E; [done |].
    destruct (head_merge_sort_least (x :: l)) as (m & Hm & _); [done |].
    rewrite Hm in H. done.
  - intros ->. done.
Qed.

Lemma target_prey_pos_Some s p t :
  target_prey_pos s p = Some t →
  is_prey_cell (objs s) (cell_at (grid s) t) = true.
Proof.
  unfold target_prey_pos. intros H.
  destruct (prey_in_scope s p) as [|x l] eqn:E; [done |].
  destruct (head_merge_sort_least (x :: l)) as (m & Hm & Hin & _); [done |].
  rewrite Hm in H. simpl in H. simplify_eq. rewrite <- E in Hin.
  by apply elem_of_prey_in_scope in Hin as (dx & dy & _ & _ & _ & Hp).
Qed.

(** In a consistent state the registry entry found at a target cell is the
    prey that the cell refers to. *)
Lemma victim_at_target s t :
  consistent s → is_prey_cell (objs s) (cell_at (grid s) t) = true →
  ∃ i v, list_find (fun v => position (objs s v) = t) (agents s) = Some (i, v) ∧
         v ∈ agents s ∧ role (objs s v) = prey ∧ position (objs s v) = t.
Proof.
  intros (Hnd & H1 & H4) Hp. rewrite Forall_forall in H1.
  destruct (cell_at (grid s) t) as [| |w] eqn:Ec; try done. simpl in Hp.
  apply bool_decide_eq_true in Hp. destruct (H4 _ _ Ec) as [Hw Hpos].
  destruct (list_find (fun v => position (objs s v) = t) (agents s)) as [[i v]|] eqn:Ef.
  - exists i, v. split; [done |].
    apply list_find_Some in Ef as (Hv%list_elem_of_lookup_2 & Hpv & _).
    assert (v = w) as ->.
    { pose proof (H1 v Hv) as Hcv. rewrite Hpv, Ec in Hcv. congruence. }
    done.
  - apply list_find_None in Ef. rewrite Forall_forall in Ef. by destruct (Ef w Hw).
Qed.

Lemma remove_first_length_in (v : nat) (l : list nat) :
  v ∈ l → (length l = length (remove_first v l) + 1)%nat.
Proof.
  induction l as [|y l IH]; simpl; [by intros ?%elem_of_nil |].
  destruct (decide (y = v)) as [-> | Hne]; [lia |].
  intros [? | Hv]%elem_of_cons; [congruence |]. simpl. rewrite IH by done. lia.
Qed.

Lemma filter_remove_first_other (P : nat → Prop) `{!∀ x, Decision (P x)} v l :
  ¬ P v → filter P (remove_first v l) = filter P l.
Proof.
  intros Hv. induction l as [|y l IH]; simpl; [done |].
  destruct (decide (y = v)) as [-> | Hne].
  - by rewrite filter_cons_False.
  - rewrite !filter_cons, IH. done.
Qed.

(** One predator's turn in a consistent state: nothing happens when no prey
    is in scope, and otherwise a live prey is removed. *)
Lemma hunt_one_consistent h st st' :
  consistent st.1.1 → hunt_one h st = Ok st' →
  (prey_in_scope st.1.1 (position (objs st.1.1 h)) = [] ∧ st' = st) ∨
  (prey_in_scope st.1.1 (position (objs st.1.1 h)) ≠ [] ∧
   ∃ v, v ∈ agents st.1.1 ∧ role (objs st.1.1 v) = prey ∧
        agents st'.1.1 = remove_first v (agents st.1.1) ∧
        objs st'.1.1
        = <[h := add_health (objs st.1.1 h) (health_gained st.1.1)]> (objs st.1.1)).
Proof.
  intros Hc H. destruct st as [[s r] d]. simpl in *.
  destruct (target_prey_pos s (position (objs s h))) as [t|] eqn:Et.
  - right. split.
    { intros Hnil. apply target_prey_pos_None in Hnil. congruence. }
    pose proof (target_prey_pos_Some _ _ _ Et) as Hp.
    destruct (victim_at_target s t Hc Hp) as (i & v & Hf & Hv & Hr & Hpos).
    unfold hunt_one, kill in H. simpl in H. rewrite Et, Hf in H.
    apply bind_Ok in H as (x & _ & H). apply bind_Ok in H as (y & _ & H).
    simplify_eq. simpl. eauto.
  - left. split; [by apply target_prey_pos_None |].
    unfold hunt_one in H. simpl in H. rewrite Et in H. by simplify_eq.
Qed.

Lemma hunt_one_frame h st st' :
  hunt_one h st = Ok st' →
  health_gained st'.1.1 = health_gained st.1.1 ∧ same_ids (objs st.1.1) (objs st'.1.1) ∧
  agents st'.1.1 `sublist_of` agents st.1.1.
Proof.
  intros H. apply hunt_one_shrinks in H as (Hs & _).
  destruct Hs as (_ & _ & _ & _ & _ & _ & Hhg & Hid & _ & Hsub & _). done.
Qed.

(** A hunting phase in a consistent state. *)
Lemma hunting_loop_consistent l st st' :
  consistent st.1.1 → hunting_loop l st = Ok st' →
  consistent st'.1.1 ∧
  by_role st'.1.1 predator = by_role st.1.1 predator ∧
  (∀ h, h ∈ agents st.1.1 → h ∉ agents st'.1.1 → role (objs st.1.1 h) = prey) ∧
  ((∀ h, h ∈ l → prey_in_scope st.1.1 (position (objs st.1.1 h)) = []) → st' = st) ∧
  ((∃ h, h ∈ l ∧ prey_in_scope st.1.1 (position (objs st.1.1 h)) ≠ []) →
   (length (agents st'.1.1) < length (agents st.1.1))%nat).
Proof.
  revert st. induction l as [|h l IH]; intros st Hc H; simpl in H.
  - simplify_eq. split; [done |]. split; [done |]. split; [done |].
    split; [done |]. by intros (h & ?%elem_of_nil & _).
  - apply bind_Ok in H as (st1 & H1 & H).
    pose proof (consistent_hunt_one _ _ _ Hc H1) as Hc1.
    pose proof (hunt_one_frame _ _ _ H1) as (_ & Hid1 & Hsub1).
    pose proof (hunting_loop_shrinks _ _ _ H) as (Hsh & _).
    destruct Hsh as (_ & _ & _ & _ & _ & _ & _ & _ & _ & Hsub & _).
    destruct (IH st1 Hc1 H) as (Hc' & Hpred & Hrem & Hidle & Hkill).
    split; [done |].
    destruct (hunt_one_consistent _ _ _ Hc H1)
      as [[Hnil ->] | (Hne & v & Hv & Hr & Hag & Hob)].
    + split; [done |]. split; [done |]. split.
      * intros Hall. apply Hidle. intros x Hx. apply Hall. by right.
      * intros (x & [-> | Hx]%elem_of_cons & Hx'); [done |]. apply Hkill. eauto.
    + assert (Hpred1 : by_role st1.1.1 predator = by_role st.1.1 predator).
      { unfold by_role. rewrite Hag.
        rewrite (filter_same_role (objs st.1.1) (objs st1.1.1)) by done.
        apply filter_remove_first_other. congruence. }
      split; [congruence |]. split; [| split].
      * intros x Hx Hx'. destruct (decide (x ∈ agents st1.1.1)) as [Hin | Hout].
        -- destruct (Hid1 x) as [_ <-]. by apply Hrem.
        -- rewrite Hag in Hout. destruct (decide (x = v)) as [-> | Hxv]; [done |].
           destruct Hout. by apply elem_of_remove_first.
      * intros Hall. destruct Hne. apply Hall. by left.
      * intros _. apply sublist_length in Hsub.
        pose proof (remove_first_length_in v _ Hv) as Hlen. rewrite <- Hag in Hlen. lia.
Qed.

(** In a state where registry and grid agree, hunting removes prey only:
    the predators in the registry are the same before and after, and every
    agent that left the registry was a prey. *)
Theorem hunting_removes_only_prey (s : Env) (rewards : gmap string Z)
    (dones : gmap string bool) (s' : Env) (rewards' : gmap string Z)
    (dones' : gmap string bool) :
  consistent s →
  hunting s rewards dones = Ok (s', rewards', dones') →
  by_role s' predator = by_role s predator ∧
  ∀ h, h ∈ agents s → h ∉ agents s' → role (objs s h) = prey.
Proof.
  intros Hc H.
  destruct (hunting_loop_consistent _ (s, rewards, dones) _ Hc H) as (_ & Hp & Hr & _).
  done.
Qed.

(** Predators without a prey in scope leave the state as it is, in any
    state. *)
Lemma hunting_loop_idle l st :
  (∀ h, h ∈ l → prey_in_scope st.1.1 (position (objs st.1.1 h)) = []) →
  hunting_loop l st = Ok st.
Proof.
  induction l as [|h l IH]; intros Hl; simpl; [done |].
  unfold hunt_one. rewrite (proj2 (target_prey_pos_None _ _)) by (apply Hl; left).
  simpl. apply IH. intros h' Hh'. apply Hl. by right.
Qed.

(** When no predator has a prey within its scope the hunting phase returns
    environment, rewards and flags unchanged, in any state.  In a state
    where registry and grid agree, it is idle only then: when some
    predator has a prey within its scope the registry gets shorter. *)
Theorem hunting_kills_iff_in_scope (s : Env) (rewards : gmap string Z)
    (dones : gmap string bool) (s' : Env) (rewards' : gmap string Z)
    (dones' : gmap string bool) :
  hunting s rewards dones = Ok (s', rewards', dones') →
  ((∀ h, h ∈ by_role s predator → prey_in_scope s (position (objs s h)) = []) →
   (s', rewards', dones') = (s, rewards, dones)) ∧
  (consistent s →
   (∃ h, h ∈ by_role s predator ∧ prey_in_scope s (position (objs s h)) ≠ []) →
   (length (agents s') < length (agents s))%nat).
Proof.
  intros H. split.
  - intros Hidle. unfold hunting in H.
    rewrite (hunting_loop_idle _ (s, rewards, dones) Hidle) in H. by simplify_eq.
  - intros Hc.
    by destruct (hunting_loop_consistent _ (s, rewards, dones) _ Hc H)
      as (_ & _ & _ & _ & Hkill).
Qed.

Lemma init_consistent gs np npy nw scope hg :
  consistent (init gs np npy nw scope hg) ∧ allocated (init gs np npy nw scope hg).
Proof.
  split; [| by constructor]. split; [constructor |]. split; [constructor |].
  intros p h. unfold cell_at. simpl. by rewrite lookup_empty.
Qed.

Lemma tie_env_consistent : consistent tie_env ∧ allocated tie_env.
Proof.
  unfold tie_env.
  destruct (init_consistent (5, 5) 1 2 0 1 0.3%float) as [H0 A0].
  destruct (consistent_create 1 _ "pr_0" predator (2, 2) H0 A0 eq_refl) as [H1 A1].
  destruct (consistent_create 1 _ "py_0" prey (1, 2) H1 A1 eq_refl) as [H2 A2].
  exact (consistent_create 1 _ "py_1" prey (2, 1) H2 A2 eq_refl).
Qed.

Lemma hunting_removes_only_prey_witness :
  ∃ s' rewards' dones',
    hunting tie_env (dict_of_agents tie_env 0) (dict_of_agents tie_env false)
      = Ok (s', rewards', dones') ∧
    by_role s' predator = by_role tie_env predator.
Proof.
  assert (Hok : is_Ok (hunting tie_env (dict_of_agents tie_env 0)
                         (dict_of_agents tie_env false)) = true)
    by (vm_compute; reflexivity).
  destruct (hunting tie_env _ _) as [[[s' r'] d'] | |] eqn:E; try discriminate Hok.
  exists s', r', d'. split; [reflexivity |].
  exact (proj1 (hunting_removes_only_prey tie_env _ _ s' r' d'
                  (proj1 tie_env_consistent) E)).
Defined.

Lemma hunting_kills_iff_in_scope_witness :
  ∃ s' rewards' dones',
    hunting tie_env (dict_of_agents tie_env 0) (dict_of_agents tie_env false)
      = Ok (s', rewards', dones') ∧
    (length (agents s') < length (agents tie_env))%nat.
Proof.
  assert (Hok : is_Ok (hunting tie_env (dict_of_agents tie_env 0)
                         (dict_of_agents tie_env false)) = true)
    by (vm_compute; reflexivity).
  destruct (hunting tie_env _ _) as [[[s' r'] d'] | |] eqn:E; try discriminate Hok.
  exists s', r', d'. split; [reflexivity |].
  apply (proj2 (hunting_kills_iff_in_scope tie_env _ _ s' r' d' E)
           (proj1 tie_env_consistent)).
  exists 0%nat. split; [vm_compute; set_solver |]. vm_compute. discriminate.
Defined.

(** *** Rewards *)

Lemma reward_sum_insert (rewards : gmap string Z) k v v' :
  rewards !! k = Some v → reward_sum (<[k := v']> rewards) = reward_sum rewards - v + v'.
Proof.
  intros Hk. unfold reward_sum.
  rewrite (map_fold_delete_L _ _ k v rewards); [| intros; lia | done].
  rewrite (map_fold_delete_L _ _ k v' (<[k := v']> rewards));
    [| intros; lia | by rewrite lookup_insert_eq].
  rewrite delete_insert_eq. lia.
Qed.

Lemma hunt_one_reward_sum h st st' : hunt_one h st = Ok st' → reward_sum st'.1.2 = reward_sum st.1.2.
Proof.
  destruct st as [[s r] d]. unfold hunt_one. simpl.
  destruct (target_prey_pos _ _) as [t|]; [| by intros; simplify_eq].
  unfold kill. destruct (list_find _ _) as [[i v]|]; [| by intros; simplify_eq].
  intros H. apply bind_Ok in H as (x & Hx%dict_get_Ok & H).
  apply bind_Ok in H as (y & Hy%dict_get_Ok & H). simplify_eq. simpl.
  rewrite (reward_sum_insert _ _ y) by done. rewrite (reward_sum_insert _ _ x) by done. lia.
Qed.

(** Hunting is zero-sum: each kill adds one to the predator's reward and
    takes one from the prey's, so the rewards add up to what they added up
    to before the phase. *)
Theorem hunting_zero_sum (s : Env) (rewards : gmap string Z)
    (dones : gmap string bool) (s' : Env) (rewards' : gmap string Z)
    (dones' : gmap string bool) :
  hunting s rewards dones = Ok (s', rewards', dones') →
  reward_sum rewards' = reward_sum rewards.
Proof.
  unfold hunting. generalize (by_role s predator). intros l.
  change rewards with (s, rewards, dones).1.2 at 2.
  change rewards' with (s', rewards', dones').1.2 at 2.
  generalize (s, rewards, dones) (s', rewards', dones'). clear.
  intros st st'. revert st. induction l as [|h l IH]; intros st H; simpl in H.
  - by simplify_eq.
  - apply bind_Ok in H as (st1 & H1 & H). rewrite (IH _ H). by apply (hunt_one_reward_sum h).
Qed.

Lemma hunting_zero_sum_witness :
  ∃ s' rewards' dones',
    hunting tie_env (dict_of_agents tie_env 0) (dict_of_agents tie_env false)
      = Ok (s', rewards', dones') ∧
    reward_sum rewards' = 0.
Proof.
  assert (Hok : is_Ok (hunting tie_env (dict_of_agents tie_env 0)
                         (dict_of_agents tie_env false)) = true)
    by (vm_compute; reflexivity).
  destruct (hunting tie_env _ _) as [[[s' r'] d'] | |] eqn:E; try discriminate Hok.
  exists s', r', d'. split; [reflexivity |].
  exact (hunting_zero_sum tie_env _ _ s' r' d' E).
Defined.

(** *** Health *)

Lemma hunt_one_objs h st st' :
  hunt_one h st = Ok st' →
  objs st'.1.1 = objs st.1.1 ∨
  objs st'.1.1 = <[h := add_health (objs st.1.1 h) (health_gained st.1.1)]> (objs st.1.1).
Proof.
  intros H. apply hunt_one_spec in H as [-> | (i & v & r' & _ & _ & _ & ->)];
    [by left | by right].
Qed.

(** Hunting changes no attribute of any object but the health of
    predators that were registered at the start of the phase, and feeds
    each of them at most once: by exactly [health_gained]. *)
Theorem hunting_feeds_once (s : Env) (rewards : gmap string Z)
    (dones : gmap string bool) (s' : Env) (rewards' : gmap string Z)
    (dones' : gmap string bool) (h : nat) :
  NoDup (agents s) →
  hunting s rewards dones = Ok (s', rewards', dones') →
  objs s' h = objs s h ∨
  (h ∈ agents s ∧ role (objs s h) = predator ∧
   objs s' h = add_health (objs s h) (health_gained s)).
Proof.
  intros Hnd H.
  assert (Hgen : ∀ l st st', NoDup l → hunting_loop l st = Ok st' →
    objs st'.1.1 h = objs st.1.1 h ∨
    (h ∈ l ∧ objs st'.1.1 h = add_health (objs st.1.1 h) (health_gained st.1.1))).
  { clear. intros l st st' Hl. revert st.
    induction Hl as [|x l Hx Hl IH]; intros st H; simpl in H.
    - simplify_eq. by left.
    - apply bind_Ok in H as (st1 & H1 & H).
      pose proof (hunt_one_frame _ _ _ H1) as (Hhg & _).
      destruct (IH _ H) as [Heq | [Hin Heq]]; rewrite Heq.
      + destruct (hunt_one_objs _ _ _ H1) as [-> | ->]; [by left |].
        destruct (decide (x = h)) as [-> | Hne].
        * rewrite fn_lookup_insert. right. split; [by left | done].
        * rewrite fn_lookup_insert_ne by done. by left.
      + right. split; [by right |]. rewrite Hhg.
        destruct (hunt_one_objs _ _ _ H1) as [-> | ->]; [done |].
        rewrite fn_lookup_insert_ne; [done | congruence]. }
  destruct (Hgen (by_role s predator) (s, rewards, dones) (s', rewards', dones'))
    as [Heq | [Hin Heq]]; [by apply NoDup_filter | done | by left |].
  right. apply elem_of_by_role in Hin as [? ?]. done.
Qed.

Lemma hunting_feeds_once_witness :
  ∃ s' rewards' dones',
    hunting tie_env (dict_of_agents tie_env 0) (dict_of_agents tie_env false)
      = Ok (s', rewards', dones') ∧
    (objs s' 1 = objs tie_env 1 ∨
     (1%nat ∈ agents tie_env ∧ role (objs tie_env 1) = predator ∧
      objs s' 1 = add_health (objs tie_env 1) (health_gained tie_env))).
Proof.
  assert (Hok : is_Ok (hunting tie_env (dict_of_agents tie_env 0)
                         (dict_of_agents tie_env false)) = true)
    by (vm_compute; reflexivity).
  destruct (hunting tie_env _ _) as [[[s' r'] d'] | |] eqn:E; try discriminate Hok.
  exists s', r', d'. split; [reflexivity |].
  exact (hunting_feeds_once tie_env _ _ s' r' d' 1 (proj1 (proj1 tie_env_consistent)) E).
Defined.

(** ** Movement *)

Lemma plan_moves_dom s actions l acc np :
  plan_moves s actions l acc = Ok np →
  dom acc ⊆ dom np ∧ ∀ h, h ∈ l → id (objs s h) ∈ dom np.
Proof.
  revert acc. induction l as [|h l IH]; intros acc H; simpl in H.
  - simplify_eq. split; [done |]. by intros h ?%elem_of_nil.
  - apply bind_Ok in H as (a & _ & H). apply IH in H as [Hsub Hin].
    rewrite dom_insert in Hsub. split; [set_solver |].
    intros h' [-> | Hh']%elem_of_cons; [| by apply Hin].
    apply Hsub. apply elem_of_union_l, elem_of_singleton. done.
Qed.

(** The first loop of [agents_move] fails exactly when an action is
    missing. *)
Lemma plan_moves_outcome s actions l acc :
  match plan_moves s actions l acc with
  | Ok np => ∀ h, h ∈ l → is_Some (actions !! id (objs s h))
  | Raise e => e = KeyError ∧ ∃ h, h ∈ l ∧ actions !! id (objs s h) = None
  | OutOfDraws => False
  end.
Proof.
  revert acc. induction l as [|h l IH]; intros acc; simpl.
  - by intros h ?%elem_of_nil.
  - unfold dict_get. destruct (actions !! id (objs s h)) as [a|] eqn:Ea; simpl.
    + specialize (IH (<[id (objs s h) :=
                         resolve (grid s) (grid_size s) (position (objs s h)) a]> acc)).
      destruct (plan_moves s actions l _) as [np | e |] eqn:Ep; [| | done].
      * intros h' [-> | Hh']%elem_of_cons; [by rewrite Ea | by apply IH].
      * destruct IH as (-> & h' & Hh' & Hn). split; [done |].
        exists h'. split; [by right | done].
    + split; [done |]. exists h. split; [by left | done].
Qed.

(** The second loop finds every id it looks up. *)
Lemma write_agents_total np l g o :
  (∀ h, h ∈ l → id (o h) ∈ dom np) →
  ∃ g' o', write_agents np l g o = Ok (g', o').
Proof.
  revert g o. induction l as [|h l IH]; intros g o Hl; simpl; [eauto |].
  unfold dict_get.
  assert (Hh : id (o h) ∈ dom np) by (apply Hl; by left).
  apply elem_of_dom in Hh as [p Hp]. rewrite Hp. simpl. apply IH.
  intros h' Hh'. destruct (decide (h = h')) as [<- | Hne].
  - rewrite fn_lookup_insert. simpl. apply Hl. by left.
  - rewrite fn_lookup_insert_ne by done. apply Hl. by right.
Qed.

Lemma agents_move_outcome s actions :
  match agents_move s actions with
  | Ok _ => ∀ h, h ∈ agents s → is_Some (actions !! id (objs s h))
  | Raise e => e = KeyError ∧ ∃ h, h ∈ agents s ∧ actions !! id (objs s h) = None
  | OutOfDraws => False
  end.
Proof.
  unfold agents_move.
  pose proof (plan_moves_outcome s actions (agents s) ∅) as Hp.
  destruct (plan_moves s actions (agents s) ∅) as [np | e |] eqn:Ep; simpl; [| done | done].
  apply plan_moves_dom in Ep as [_ Hin].
  destruct (write_agents_total np (agents s) (place_walls ∅ (walls_positions s)) (objs s) Hin)
    as (g' & o' & ->).
  done.
Qed.


(** ** Creation of agents *)

Lemma extends_refl ih s : extends ih s s [].
Proof.
  unfold extends. simpl. rewrite app_nil_r, Nat.add_0_r.
  repeat split; try done. intros q. by left.
Qed.

Lemma extends_trans ih s1 s2 s3 new1 new2 :
  extends ih s1 s2 new1 → extends ih s2 s3 new2 → extends ih s1 s3 (new1 ++ new2).
Proof.
  intros (Ha & Hn & Hx & Hg & Hw & Ho & Hk & Hc & Hf)
         (Ha' & Hn' & Hx' & Hg' & Hw' & Ho' & Hk' & Hc' & Hf').
  rewrite Forall_forall in Hf, Hf'.
  assert (Hlt : ∀ h, h ∈ new1 → (h < next_obj s2)%nat).
  { intros h Hh. rewrite Hn in Hh. apply elem_of_seq in Hh. lia. }
  split; [by rewrite Ha', Ha, app_assoc |].
  split; [rewrite length_app, seq_app, <- Hn, <- Hx; by rewrite <- Hn' |].
  split; [rewrite length_app; lia |].
  split; [congruence |]. split; [congruence |].
  split; [intros h Hh; rewrite Ho' by lia; by apply Ho |].
  split; [| split].
  - intros q Hq. rewrite Hk'; [by apply Hk |]. by rewrite Hk.
  - intros q. destruct (Hc' q) as [-> | (h & Hh & Hq)].
    + destruct (Hc q) as [-> | (h & Hh & Hq)]; [by left |].
      right. exists h. split; [by apply elem_of_app; left | done].
    + right. exists h. split; [by apply elem_of_app; right | done].
  - apply Forall_app. split; apply Forall_forall; intros h Hh.
    + destruct (Hf h Hh) as (H1 & H2 & H3 & H4).
      rewrite Ho' by (by apply Hlt). split; [done |]. split; [done |].
      split; [done |]. rewrite Hk'; [done |]. by rewrite H4.
    + destruct (Hf' h Hh) as (H1 & H2 & H3 & H4).
      split; [done |]. split; [by rewrite <- Hg |]. split; [| done].
      destruct (Hc (position (objs s3 h))) as [<- | (h' & _ & Hq)]; [done |].
      rewrite H3 in Hq. done.
Qed.

Lemma extends_create ih s aid r p tape tape' :
  sample_empty (grid s) (grid_size s) tape = Ok (p, tape') →
  extends ih s (create ih s aid r p) [next_obj s].
Proof.
  intros (Hz%is_zero_Empty & Hp & _)%sample_empty_Ok.
  unfold extends, create. simpl.
  split; [done |]. split; [done |]. split; [lia |]. split; [done |]. split; [done |].
  split; [intros h Hh; rewrite fn_lookup_insert_ne; [done | lia] |].
  split; [| split].
  - intros q Hq. rewrite cell_at_set_cell, decide_False; [done |]. by intros ->.
  - intros q. rewrite cell_at_set_cell. case_decide; [| by left].
    right. exists (next_obj s). split; [by left | done].
  - repeat constructor; rewrite fn_lookup_insert; simpl; try done.
    by rewrite cell_at_set_cell, decide_True.
Qed.

Lemma spawn_extends ih r n s tape s' tape' :
  spawn ih r n s tape = Ok (s', tape') →
  ∃ new, extends ih s s' new ∧ length new = n ∧
         Forall (fun h => role (objs s' h) = r ∧
                          ∃ k : nat, id (objs s' h) = prefix r +:+ pretty k) new.
Proof.
  revert s tape. induction n as [|n IH]; intros s tape H; simpl in H.
  - simplify_eq. exists []. split; [apply extends_refl | done].
  - apply bind_Ok in H as ([p t] & Hp & H).
    pose proof (extends_create ih s (prefix r +:+ pretty (length (by_role s r))) r p
                  _ _ Hp) as He1.
    destruct (IH _ _ H) as (new & He & Hl & Hr).
    exists (next_obj s :: new).
    split; [exact (extends_trans _ _ _ _ [next_obj s] new He1 He) |].
    split; [simpl; lia |]. constructor; [| done].
    destruct He as (_ & _ & _ & _ & _ & Ho & _). rewrite Ho by (simpl; lia).
    simpl. rewrite fn_lookup_insert. simpl. eauto.
Qed.

Lemma generate_new_agents_extends ih s p_predator p_prey tape s' tape' :
  generate_new_agents ih s p_predator p_prey tape = Ok (s', tape') →
  ∃ new, extends ih s s' new ∧
         Forall (fun h => ∃ k : nat,
                   id (objs s' h) = prefix (role (objs s' h)) +:+ pretty k) new.
Proof.
  intros H. unfold generate_new_agents in H.
  apply bind_Ok in H as (kp & _ & H). apply bind_Ok in H as (ky & _ & H).
  apply bind_Ok in H as ([s1 t1] & H1 & H2).
  apply spawn_extends in H1 as (new1 & He1 & _ & Hr1).
  apply spawn_extends in H2 as (new2 & He2 & _ & Hr2).
  exists (new1 ++ new2). split; [by eapply extends_trans |].
  destruct He1 as (_ & Hn1 & Hx1 & _). destruct He2 as (_ & _ & _ & _ & _ & Ho2 & _).
  apply Forall_app. split.
  - rewrite Forall_forall in Hr1. apply Forall_forall. intros h Hh.
    rewrite Ho2; [| rewrite Hn1 in Hh; apply elem_of_seq in Hh; lia].
    destruct (Hr1 h Hh) as [-> ?]. done.
  - eapply Forall_impl; [done |]. simpl. by intros h [-> ?].
Qed.

(** Spawning touches nothing that exists: the registry is extended at its
    end, every older object, every wall and every occupied cell stays as
    it was, and the new agents stand, with the initial health, on cells
    that were empty. *)
Theorem spawning_only_adds (ih : float) (s : Env) (p_predator p_prey : float)
    (tape : list nat) (s' : Env) (tape' : list nat) :
  allocated s →
  generate_new_agents ih s p_predator p_prey tape = Ok (s', tape') →
  ∃ new,
    agents s' = agents s ++ new ∧
    (∀ h, h ∈ agents s → objs s' h = objs s h) ∧
    (∀ q, cell_at (grid s) q ≠ Empty → cell_at (grid s') q = cell_at (grid s) q) ∧
    walls_positions s' = walls_positions s ∧
    Forall (fun h =>
              (h ∉ agents s) ∧ health (objs s' h) = ih ∧
              cell_at (grid s) (position (objs s' h)) = Empty ∧
              cell_at (grid s') (position (objs s' h)) = Ref h) new.
Proof.
  intros Hal H. apply generate_new_agents_extends in H as (new & He & _).
  destruct He as (Ha & Hn & _ & _ & Hw & Ho & Hk & _ & Hf).
  unfold allocated in Hal. rewrite Forall_forall in Hal.
  exists new. split; [done |]. split; [intros h Hh; by apply Ho, Hal |].
  split; [done |]. split; [done |].
  rewrite Forall_forall in Hf. apply Forall_forall. intros h Hh.
  destruct (Hf h Hh) as (H1 & _ & H3 & H4). split; [| done].
  intros Hin%Hal. rewrite Hn in Hh. apply elem_of_seq in Hh. lia.
Qed.

(** An extinct environment gets one predator and one prey, on the two
    sampled cells. *)
Lemma spawning_only_adds_witness :
  ∃ s' tape' new,
    generate_new_agents 1 extinct_env 0.003 0.006 [3; 3; 4; 4]%nat = Ok (s', tape') ∧
    agents s' = agents extinct_env ++ new ∧
    walls_positions s' = walls_positions extinct_env.
Proof.
  assert (Hok : is_Ok (generate_new_agents 1 extinct_env 0.003 0.006 [3; 3; 4; 4]%nat)
                = true) by (vm_compute; reflexivity).
  destruct (generate_new_agents 1 extinct_env 0.003 0.006 [3; 3; 4; 4]%nat)
    as [[s' t'] | |] eqn:E; try discriminate Hok.
  assert (Hal : allocated extinct_env) by constructor.
  destruct (spawning_only_adds 1 extinct_env 0.003 0.006 _ s' t' Hal E)
    as (new & H1 & _ & _ & H4 & _).
  exists s', t', new. split; [reflexivity |]. split; [exact H1 | exact H4].
Defined.

(** ** One tick: failures *)

Lemma hunt_one_returns h st :
  id (objs st.1.1 h) ∈ dom st.1.2 → ids st.1.1 ⊆ dom st.1.2 →
  ∃ st', hunt_one h st = Ok st'.
Proof.
  destruct st as [[s r] d]. simpl. intros Hh Hids. unfold hunt_one. simpl.
  destruct (target_prey_pos _ _) as [t|]; [| eauto].
  unfold kill. destruct (list_find _ _) as [[i v]|] eqn:Ef; [| eauto].
  apply list_find_Some in Ef as (Hv%list_elem_of_lookup_2 & _ & _).
  apply elem_of_dom in Hh as [x Hx]. unfold dict_get. rewrite Hx. simpl.
  assert (Hv' : id (objs s v) ∈ dom (<[id (objs s h) := x + 1]> r)).
  { rewrite dom_insert. apply elem_of_union_r, Hids. by apply id_in_ids. }
  apply elem_of_dom in Hv' as [y Hy]. rewrite Hy. simpl. eauto.
Qed.

Lemma hunting_loop_returns l st :
  (∀ h, h ∈ l → id (objs st.1.1 h) ∈ dom st.1.2) → ids st.1.1 ⊆ dom st.1.2 →
  ∃ st', hunting_loop l st = Ok st'.
Proof.
  revert st. induction l as [|h l IH]; intros st Hl Hids; simpl; [eauto |].
  destruct (hunt_one_returns h st) as [st1 H1]; [apply Hl; by left | done |].
  rewrite H1. simpl.
  pose proof (hunt_one_shrinks _ _ _ H1) as (Hsh & Hdr & _).
  apply IH.
  - intros h' Hh'. rewrite Hdr.
    destruct Hsh as (_ & _ & _ & _ & _ & _ & _ & Hid & _).
    destruct (Hid h') as [-> _]. apply Hl. by right.
  - rewrite Hdr. apply ids_shrinks in Hsh. set_solver.
Qed.

(** With the factors [0.003] and [0.006] of [step] the growth of a role
    below the cap of [10000] is a number. *)
Lemma growth_default_Ok (n : nat) :
  Z.of_nat n < 10000 →
  is_Ok (growth n 0.003) = true ∧ is_Ok (growth n 0.006) = true.
Proof.
  intros Hn.
  assert (Hall : forallb (fun n => is_Ok (growth n 0.003) && is_Ok (growth n 0.006))
                         (seq 0 10000) = true) by (vm_compute; reflexivity).
  rewrite forallb_forall in Hall.
  apply andb_true_iff, Hall, in_seq.
  split; [apply Nat.le_0_l |]. change (0 + 10000)%nat with 10000%nat.
  apply Nat2Z.inj_lt.
  assert (Z.of_nat 10000 = 10000) as -> by (vm_compute; reflexivity). done.
Qed.

Lemma new_count_default_Ok (n : nat) :
  is_Ok (new_count n 10000 0.003) = true ∧ is_Ok (new_count n 10000 0.006) = true.
Proof.
  unfold new_count. destruct (Z.of_nat n <? 10000) eqn:E; [| done].
  apply Z.ltb_lt in E. by apply growth_default_Ok.
Qed.

Lemma generate_default_no_raise ih s tape e :
  0 < (grid_size s).1 → 0 < (grid_size s).2 →
  max_num_predators s = 10000 → max_num_preys s = 10000 →
  generate_new_agents ih s 0.003 0.006 tape ≠ Raise e.
Proof.
  intros Hd1 Hd2 Hm1 Hm2. unfold generate_new_agents. rewrite Hm1, Hm2.
  destruct (new_count_default_Ok (length (by_role s predator))) as [H1 _].
  destruct (new_count_default_Ok (length (by_role s prey))) as [_ H2].
  destruct (new_count _ _ 0.003) as [kp | |]; try done.
  destruct (new_count _ _ 0.006) as [ky | |]; try done. simpl.
  destruct (spawn ih predator _ s tape) as [[s1 t1] | e1 |] eqn:E1; simpl; [| | done].
  - apply spawn_extends in E1 as (new & (_ & _ & _ & Hg & _) & _).
    apply spawn_no_raise; by rewrite Hg.
  - by apply spawn_no_raise in E1.
Qed.

(** The spawn phase leaves the scope as it is and, while a cap is positive,
    no empty registry. *)
Lemma spawn_scope ih r n s tape s' tape' :
  spawn ih r n s tape = Ok (s', tape') → predator_scope s' = predator_scope s.
Proof.
  revert s tape. induction n as [|n IH]; intros s tape H; simpl in H; [by simplify_eq |].
  apply bind_Ok in H as ([p t] & _ & H). by apply IH in H.
Qed.

Lemma generate_scope ih s p_predator p_prey tape s' tape' :
  generate_new_agents ih s p_predator p_prey tape = Ok (s', tape') →
  predator_scope s' = predator_scope s.
Proof.
  intros H. unfold generate_new_agents in H.
  apply bind_Ok in H as (kp & _ & H). apply bind_Ok in H as (ky & _ & H).
  apply bind_Ok in H as ([s1 t1] & H1 & H2).
  apply spawn_scope in H1. apply spawn_scope in H2. congruence.
Qed.

Lemma generate_nonempty ih s p_predator p_prey tape s' tape' :
  0 < max_num_predators s →
  generate_new_agents ih s p_predator p_prey tape = Ok (s', tape') →
  agents s' ≠ [].
Proof.
  intros Hc H. unfold generate_new_agents in H.
  apply bind_Ok in H as (kp & Hkp & H). apply bind_Ok in H as (ky & _ & H).
  apply bind_Ok in H as ([s1 t1] & H1 & H2).
  apply spawn_extends in H1 as (new1 & (Ha1 & _) & Hl1 & _).
  apply spawn_extends in H2 as (new2 & (Ha2 & _) & _).
  rewrite Ha2, Ha1.
  destruct (agents s) as [|h l] eqn:Ea; [| done].
  assert (Hb : by_role s predator = []) by (unfold by_role; by rewrite Ea).
  rewrite Hb in Hkp. unfold new_count in Hkp. simpl in Hkp.
  rewrite (proj2 (Z.ltb_lt 0 _)) in Hkp by done.
  apply growth_Ok in Hkp as (c & _ & ->).
  destruct new1; [simpl in Hl1; lia | done].
Qed.

(** The phases of a tick on a grid with positive dimensions: the only
    exception is the [KeyError] of [agents_move]. *)
Lemma tick_outcome ih s actions tape :
  0 < (grid_size s).1 → 0 < (grid_size s).2 →
  max_num_predators s = 10000 → max_num_preys s = 10000 →
  match tick ih s actions tape with
  | Ok (s', _, _, _) =>
      (∀ h, h ∈ agents s → is_Some (actions !! id (objs s h))) ∧
      grid_size s' = grid_size s ∧ predator_scope s' = predator_scope s ∧
      agents s' ≠ []
  | Raise e => e = KeyError ∧ ∃ h, h ∈ agents s ∧ actions !! id (objs s h) = None
  | OutOfDraws => ∀ h, h ∈ agents s → is_Some (actions !! id (objs s h))
  end.
Proof.
  intros Hd1 Hd2 Hm1 Hm2. unfold tick.
  pose proof (agents_move_outcome s actions) as Hmove.
  destruct (agents_move s actions) as [s1 | e |] eqn:Em; simpl; [| done | done].
  pose proof (agents_move_frame _ _ _ Em) as (Ha1 & _ & Hg1 & Hs1 & _ & Hc1 & Hc2 & Hid1).
  pose proof (ids_agents_move _ _ _ Em) as Hids1.
  destruct (hunting_loop_returns (by_role s1 predator)
              (s1, dict_of_agents s 0, dict_of_agents s false)) as [[[s2 r] d] Hh].
  { simpl. intros h [Hh _]%elem_of_by_role. rewrite dom_dict_of_agents, <- Hids1.
    by apply id_in_ids. }
  { simpl. by rewrite dom_dict_of_agents, Hids1. }
  unfold hunting. rewrite Hh. simpl.
  pose proof (hunting_loop_shrinks _ _ _ Hh) as (Hsh2 & _). simpl in Hsh2.
  destruct (predator_hunger_shrinks s2 d) as (Hsh3 & _).
  destruct (predator_hunger s2 d) as [s3 d'].  simpl in Hsh3.
  destruct Hsh2 as (_ & Hg2 & Hs2 & _ & Hc3 & Hc4 & _).
  destruct Hsh3 as (_ & Hg3 & Hs3 & _ & Hc5 & Hc6 & _).
  pose proof (generate_default_no_raise ih s3 tape) as Hgen.
  destruct (generate_new_agents ih s3 0.003 0.006 tape) as [[s4 t4] | e |] eqn:Eg; simpl.
  - split; [done |].
    pose proof (generate_scope _ _ _ _ _ _ _ Eg) as Hs4.
    assert (Hcap : max_num_predators s3 = 10000) by congruence.
    assert (Hpos : 0 < max_num_predators s3) by (rewrite Hcap; lia).
    pose proof (generate_nonempty _ _ _ _ _ _ _ Hpos Eg) as Hne.
    apply generate_new_agents_extends in Eg as (new & (_ & _ & _ & Hg4 & _) & _).
    split; [congruence |]. split; [congruence | done].
  - destruct (Hgen e); [congruence | congruence | congruence | congruence | done].
  - done.
Qed.

Lemma step_outcome ih s actions tape :
  well_formed s →
  max_num_predators s = 10000 → max_num_preys s = 10000 →
  match step ih s actions tape with
  | Ok _ =>
      (∀ h, h ∈ agents s → is_Some (actions !! id (objs s h))) ∧ 0 <= predator_scope s
  | Raise e =>
      (e = KeyError ∧ ∃ h, h ∈ agents s ∧ actions !! id (objs s h) = None) ∨
      (e = ValueError ∧ predator_scope s < 0 ∧
       ∀ h, h ∈ agents s → is_Some (actions !! id (objs s h)))
  | OutOfDraws => ∀ h, h ∈ agents s → is_Some (actions !! id (objs s h))
  end.
Proof.
  intros (Hd1 & Hd2 & _) Hm1 Hm2. rewrite step_unfold.
  pose proof (tick_outcome ih s actions tape Hd1 Hd2 Hm1 Hm2) as Ht.
  destruct (tick ih s actions tape) as [[[[s' r] d] t] | e |]; simpl; [| by left | done].
  destruct Ht as (Hact & Hg & Hs & Hne).
  destruct (observations s' (agents s') ∅) as [obs | e |] eqn:Eo; simpl.
  - split; [done |]. destruct (agents s') as [|h l]; [done |]. simpl in Eo.
    apply bind_Ok in Eo as (o & Ho%get_observation_Ok_scope & _). by rewrite <- Hs.
  - right. apply observations_Raise in Eo as (-> & ? & _); [| rewrite Hg; lia ..].
    split; [done |]. split; [by rewrite <- Hs | done].
  - by apply observations_not_OutOfDraws in Eo.
Qed.

(** The exceptions of [step] on a state with positive dimensions and
    positions on the grid, with the caps of the constructor: the
    [KeyError] of [agents_move], exactly when a live agent's id has no
    action; and else the [ValueError] of the observations, only for a
    negative scope.  Hunting, hunger and spawning raise nothing: they find
    every key they look up, and the growth [ceil(n * 0.003)],
    [ceil(n * 0.006)] is a number for every count below the cap.  A [step]
    that returns had a scope that is not negative. *)
Theorem step_exceptions (ih : float) (s : Env)
    (actions : gmap string Z) (tape : list nat) :
  well_formed s →
  max_num_predators s = 10000 → max_num_preys s = 10000 →
  match step ih s actions tape with
  | Ok _ =>
      (∀ h, h ∈ agents s → is_Some (actions !! id (objs s h))) ∧ 0 <= predator_scope s
  | Raise e =>
      (e = KeyError ∧ ∃ h, h ∈ agents s ∧ actions !! id (objs s h) = None) ∨
      (e = ValueError ∧ predator_scope s < 0 ∧
       ∀ h, h ∈ agents s → is_Some (actions !! id (objs s h)))
  | OutOfDraws => ∀ h, h ∈ agents s → is_Some (actions !! id (objs s h))
  end.
Proof. apply step_outcome. Qed.

(** A tick of [tie_env] without an action for ["py_1"]. *)
Lemma step_exceptions_witness :
  step 1 tie_env (delete "py_1" tie_actions) [3; 3; 4; 4]%nat = Raise KeyError.
Proof.
  pose proof (step_exceptions 1 tie_env (delete "py_1" tie_actions)
                [3; 3; 4; 4]%nat tie_env_well_formed eq_refl eq_refl) as H.
  destruct (step 1 tie_env (delete "py_1" tie_actions) [3; 3; 4; 4]%nat)
    as [x | e |] eqn:E.
  - exfalso. assert (Hh : 2%nat ∈ agents tie_env) by (simpl; set_solver).
    destruct (proj1 H 2%nat Hh) as [a Ha]. vm_compute in Ha. discriminate Ha.
  - destruct H as [[-> _] | (_ & Hs & _)]; [reflexivity |].
    exfalso. simpl in Hs. lia.
  - exfalso. assert (Hh : 2%nat ∈ agents tie_env) by (simpl; set_solver).
    destruct (H 2%nat Hh) as [a Ha]. vm_compute in Ha. discriminate Ha.
Defined.

(** ** One tick: done flags and observations *)

Lemma dict_of_agents_value {V} (s : Env) (v x : V) k :
  dict_of_agents s v !! k = Some x → x = v.
Proof.
  unfold dict_of_agents.
  assert (Hgen : ∀ l (acc : gmap string V),
    (∀ k x, acc !! k = Some x → x = v) →
    ∀ k x, foldl (fun d h => <[id (objs s h) := v]> d) acc l !! k = Some x → x = v).
  { induction l as [|h l IH]; intros acc Hacc k' x' H; simpl in H; [by eapply Hacc |].
    eapply IH; [| done]. intros k2 x2.
    destruct (decide (id (objs s h) = k2)) as [<- | Hne].
    - rewrite lookup_insert_eq. congruence.
    - rewrite lookup_insert_ne by done. apply Hacc. }
  apply Hgen. intros k' x'. by rewrite lookup_empty.
Qed.

Lemma not_elem_of_remove_first (v x : nat) (l : list nat) :
  NoDup l → x ∈ l → (x ∉ remove_first v l ↔ x = v).
Proof.
  intros Hnd Hx. destruct (remove_first_NoDup v l Hnd) as [_ Hv]. split.
  - intros Hout. destruct (decide (x = v)); [done |].
    destruct Hout. by apply elem_of_remove_first.
  - by intros ->.
Qed.

(** A predator's turn flags exactly the agent it removes. *)
Lemma hunt_one_dones h st st' :
  NoDup (agents st.1.1) → hunt_one h st = Ok st' →
  NoDup (agents st'.1.1) ∧
  ∀ k, st'.2 !! k = Some true ↔
       st.2 !! k = Some true ∨
       ∃ v, v ∈ agents st.1.1 ∧ (v ∉ agents st'.1.1) ∧ id (objs st.1.1 v) = k.
Proof.
  intros Hnd H. apply hunt_one_spec in H as [-> | (i & v & r' & _ & Hf & _ & ->)].
  - split; [done |]. intros k. split; [by left |]. by intros [? | (v & ? & ? & _)].
  - apply list_find_Some in Hf as (Hv%list_elem_of_lookup_2 & _ & _).
    destruct st as [[s r] d]. simpl in *.
    split; [by apply remove_first_NoDup |]. intros k.
    destruct (decide (id (objs s v) = k)) as [<- | Hne].
    + rewrite lookup_insert_eq. split; [| done]. intros _. right. exists v.
      split; [done |]. split; [| done]. by apply not_elem_of_remove_first.
    + rewrite lookup_insert_ne by done. split; [by left |].
      intros [? | (w & Hw & Hout & Hid)]; [done |].
      apply not_elem_of_remove_first in Hout; [| done | done]. congruence.
Qed.

Lemma hunting_loop_dones l st st' :
  NoDup (agents st.1.1) → hunting_loop l st = Ok st' →
  NoDup (agents st'.1.1) ∧
  ∀ k, st'.2 !! k = Some true ↔
       st.2 !! k = Some true ∨
       ∃ v, v ∈ agents st.1.1 ∧ (v ∉ agents st'.1.1) ∧ id (objs st.1.1 v) = k.
Proof.
  revert st. induction l as [|h l IH]; intros st Hnd H; simpl in H.
  - simplify_eq. split; [done |]. intros k. split; [by left |].
    by intros [? | (v & ? & ? & _)].
  - apply bind_Ok in H as (st1 & H1 & H).
    pose proof (hunt_one_frame _ _ _ H1) as (_ & Hid1 & Hsub1).
    pose proof (hunting_loop_shrinks _ _ _ H) as (Hsh & _).
    destruct Hsh as (_ & _ & _ & _ & _ & _ & _ & _ & _ & Hsub & _).
    destruct (hunt_one_dones _ _ _ Hnd H1) as [Hnd1 Hd1].
    destruct (IH _ Hnd1 H) as [Hnd' Hd]. split; [done |].
    intros k. rewrite Hd, Hd1. split.
    + intros [[? | (v & Hv & Hout & Hk)] | (v & Hv & Hout & Hk)]; [by left | |].
      * right. exists v. split; [done |]. split; [| done].
        intros Hin. apply Hout. by eapply elem_of_sublist.
      * right. exists v. split; [by eapply elem_of_sublist |]. split; [done |].
        destruct (Hid1 v) as [<- _]. done.
    + intros [? | (v & Hv & Hout & Hk)]; [by left; left |].
      destruct (decide (v ∈ agents st1.1.1)) as [Hin | Hnin].
      * right. exists v. split; [done |]. split; [done |].
        destruct (Hid1 v) as [-> _]. done.
      * left. right. eauto.
Qed.

(** The hunger phase flags exactly the predators it removes. *)
Lemma predator_hunger_dones s d :
  NoDup (agents s) →
  NoDup (agents (predator_hunger s d).1) ∧
  ∀ k, (predator_hunger s d).2 !! k = Some true ↔
       d !! k = Some true ∨
       ∃ v, v ∈ agents s ∧ (v ∉ agents (predator_hunger s d).1) ∧ id (objs s v) = k.
Proof.
  intros Hnd. unfold predator_hunger.
  destruct (hunger_loop_spec (by_role s predator) (NoDup_filter _ _ Hnd) s d Hnd)
    as (_ & Ha & _ & _ & Hd & Hd').
  split; [rewrite Ha; by apply NoDup_filter |].
  assert (Hrem : ∀ v, v ∈ agents s →
    (v ∉ agents (foldl hunger_one (s, d) (by_role s predator)).1
     ↔ v ∈ by_role s predator ∧ starving s v)).
  { intros v Hv. rewrite Ha, list_elem_of_filter. split.
    - intros Hn. destruct (decide (v ∈ by_role s predator ∧ starving s v)); [done |].
      destruct Hn. done.
    - intros Hs [Hn _]. by apply Hn. }
  intros k.
  destruct (decide (Exists (fun h => starving s h ∧ id (objs s h) = k)
                           (by_role s predator))) as [He | He];
    rewrite Exists_exists in He.
  - rewrite Hd by done. split; [| done]. intros _. right.
    destruct He as (h & Hh & Hs & Hk). exists h.
    assert (h ∈ agents s) by (by apply elem_of_by_role in Hh as [? _]).
    split; [done |]. split; [| done]. by apply Hrem.
  - rewrite Hd' by done. split; [by left |].
    intros [? | (v & Hv & Hout & Hk)]; [done |].
    apply Hrem in Hout as [? ?]; [| done]. destruct He. eauto.
Qed.

Lemma step_dones_spec ih s actions tape s' rewards dones tape' :
  NoDup (agents s) → allocated s →
  step ih s actions tape = Ok (s', rewards, dones, tape') →
  (∀ k, dones !! k = Some true ↔
        ∃ h, h ∈ agents s ∧ (h ∉ agents s') ∧ id (objs s h) = k) ∧
  (∀ k, dones !! k = Some false →
        ∃ h, h ∈ agents s ∧ h ∈ agents s' ∧ id (objs s' h) = k).
Proof.
  intros Hnd Hal H.
  apply step_Ok in H. unfold tick in H.
  apply bind_Ok in H as (s1 & Hmove & H).
  apply bind_Ok in H as ([[s2 r] d] & Hhunt & H).
  destruct (predator_hunger s2 d) as [s3 d'] eqn:Hhunger.
  apply bind_Ok in H as ([s4 t] & Hgen & H). simplify_eq.
  pose proof (agents_move_frame _ _ _ Hmove) as (Ha1 & _ & _ & _ & Hn1 & _ & _ & Hid1).
  assert (Hnd1 : NoDup (agents s1)) by (by rewrite Ha1).
  pose proof (hunting_loop_shrinks _ _ _ Hhunt) as (Hsh2 & _ & Hdsub & _).
  destruct (hunting_loop_dones _ (s1, dict_of_agents s 0, dict_of_agents s false) _
              Hnd1 Hhunt) as [Hnd2 Hd2]. simpl in *.
  destruct (predator_hunger_shrinks s2 d) as (Hsh3 & _).
  destruct (predator_hunger_dones s2 d Hnd2) as [_ Hd3].
  rewrite Hhunger in Hsh3, Hd3. simpl in *.
  destruct Hsh2 as (_ & _ & _ & Hn2 & _ & _ & _ & Hid2 & _ & Hsub2 & _).
  destruct Hsh3 as (_ & _ & _ & Hn3 & _ & _ & _ & Hid3 & _ & Hsub3 & _).
  apply generate_new_agents_extends in Hgen as (new & He & _).
  destruct He as (Ha4 & Hnew & _ & _ & _ & Ho4 & _).
  unfold allocated in Hal. rewrite Forall_forall in Hal.
  assert (Hin4 : ∀ h, h ∈ agents s → (h ∈ agents s' ↔ h ∈ agents s3)).
  { intros h Hh. rewrite Ha4, elem_of_app. split; [| by left].
    intros [? | Hn]; [done |]. rewrite Hnew in Hn. apply elem_of_seq in Hn.
    specialize (Hal h Hh). lia. }
  assert (Hid : ∀ h, id (objs s2 h) = id (objs s h)).
  { intros h. destruct (Hid1 h) as [<- _], (Hid2 h) as [<- _]. done. }
  assert (Htrue : ∀ k, dones !! k = Some true ↔
            ∃ h, h ∈ agents s ∧ (h ∉ agents s') ∧ id (objs s h) = k).
  { intros k. rewrite Hd3, Hd2. split.
    - intros [[Hk | (v & Hv & Hout & Hk)] | (v & Hv & Hout & Hk)].
      + apply dict_of_agents_value in Hk. done.
      + exists v. rewrite Ha1 in Hv. split; [done |]. split.
        * rewrite Hin4 by done. intros Hin. apply Hout. by eapply elem_of_sublist.
        * destruct (Hid1 v) as [<- _]. done.
      + assert (v ∈ agents s) by (rewrite <- Ha1; by eapply elem_of_sublist).
        exists v. split; [done |]. split; [by rewrite Hin4 |]. by rewrite <- Hid.
    - intros (h & Hh & Hout & Hk). rewrite Hin4 in Hout by done.
      destruct (decide (h ∈ agents s2)) as [Hin2 | Hnin2].
      + right. exists h. split; [done |]. split; [done |]. by rewrite Hid.
      + left. right. exists h. rewrite Ha1. split; [done |]. split; [done |].
        destruct (Hid1 h) as [-> _]. done. }
  split; [done |]. intros k Hk.
  assert (Hdom : k ∈ ids s).
  { assert (Hwf : dom dones = ids s); [| rewrite <- Hwf; by apply elem_of_dom].
    destruct (predator_hunger_shrinks s2 d) as (_ & Hs1 & Hs2).
    rewrite Hhunger in Hs1, Hs2. simpl in *.
    pose proof (hunting_loop_shrinks _ _ _ Hhunt) as (Hsh & _ & Hd & Hd' & _).
    simpl in *. apply ids_shrinks in Hsh.
    pose proof (ids_agents_move _ _ _ Hmove) as Hids1.
    rewrite !dom_dict_of_agents in *. set_solver. }
  apply elem_of_list_to_set, list_elem_of_fmap in Hdom as (h & -> & Hh).
  exists h. split; [done |].
  destruct (decide (h ∈ agents s')) as [Hin | Hout].
  - split; [done |]. rewrite Ho4 by (rewrite Hn3, Hn2, Hn1; by apply Hal).
    destruct (Hid3 h) as [-> _]. by rewrite Hid.
  - assert (Ht : dones !! id (objs s h) = Some true) by (apply Htrue; eauto).
    congruence.
Qed.

(** The done flags of a tick mark the removed agents: an id is flagged
    [True] exactly when an agent that carried it at tick start is no longer
    registered after the tick, and an id flagged [False] is the id of an
    agent that is still registered. *)
Theorem step_done_iff_removed (ih : float) (s : Env) (actions : gmap string Z)
    (tape : list nat) (s' : Env) (rewards : gmap string Z)
    (dones : gmap string bool) (tape' : list nat) :
  NoDup (agents s) → allocated s →
  step ih s actions tape = Ok (s', rewards, dones, tape') →
  (∀ k, dones !! k = Some true ↔
        ∃ h, h ∈ agents s ∧ (h ∉ agents s') ∧ id (objs s h) = k) ∧
  (∀ k, dones !! k = Some false →
        ∃ h, h ∈ agents s ∧ h ∈ agents s' ∧ id (objs s' h) = k).
Proof. apply step_dones_spec. Qed.

(** One tick of [tie_env]: the flagged ids are those of the agents that
    left the registry. *)
Lemma step_done_iff_removed_witness :
  ∃ s' rewards dones tape',
    step 1 tie_env tie_actions [3; 3; 4; 4]%nat = Ok (s', rewards, dones, tape') ∧
    ∀ k, dones !! k = Some true ↔
         ∃ h, h ∈ agents tie_env ∧ (h ∉ agents s') ∧ id (objs tie_env h) = k.
Proof.
  assert (Hok : is_Ok (step 1 tie_env tie_actions [3; 3; 4; 4]%nat) = true)
    by (vm_compute; reflexivity).
  destruct (step 1 tie_env tie_actions [3; 3; 4; 4]%nat)
    as [[[[s' r] d] t] | |] eqn:E; try discriminate Hok.
  exists s', r, d, t. split; [reflexivity |].
  exact (proj1 (step_done_iff_removed 1 tie_env tie_actions _ s' r d t
                  (proj1 (proj1 tie_env_consistent)) (proj2 tie_env_consistent) E)).
Defined.

(** The dict comprehension over the registry: its keys are the ids of the
    agents it runs over, and each value is the observation of one of them. *)
Lemma observations_spec s l d obs :
  observations s l d = Ok obs →
  dom obs = dom d ∪ list_to_set ((fun h => id (objs s h)) <$> l) ∧
  ∀ k o, obs !! k = Some o →
         d !! k = Some o ∨
         ∃ h, h ∈ l ∧ id (objs s h) = k ∧ get_observation s h = Ok o.
Proof.
  revert d. induction l as [|h l IH]; intros d H; simpl in H.
  - simplify_eq. split; [set_solver |]. intros k o ?. by left.
  - apply bind_Ok in H as (o1 & Ho1 & H). apply IH in H as [Hdom Hval]. split.
    + rewrite Hdom, dom_insert_L, fmap_cons, list_to_set_cons. set_solver.
    + intros k o Hk. apply Hval in Hk as [Hk | (h' & Hh' & Hid & Ho)].
      * destruct (decide (id (objs s h) = k)) as [<- | Hne].
        -- rewrite lookup_insert_eq in Hk. simplify_eq. right. exists h.
           split; [left |]. done.
        -- rewrite lookup_insert_ne in Hk by done. by left.
      * right. exists h'. split; [by right |]. done.
Qed.

(** The observations that [step] returns are taken after the tick: their
    keys are the ids of the agents registered after it, the agents spawned
    in the tick included; every id flagged [False] has one; and each is the
    observation, on the grid after the tick, of a registered agent with
    that id. *)
Theorem step_observes_registry (ih : float) (s : Env) (actions : gmap string Z)
    (tape : list nat) (s' : Env) (obs : gmap string Observation)
    (rewards : gmap string Z) (dones : gmap string bool) (tape' : list nat) :
  NoDup (agents s) → allocated s →
  step_obs ih s actions tape = Ok (s', obs, rewards, dones, tape') →
  step ih s actions tape = Ok (s', rewards, dones, tape') ∧
  dom obs = ids s' ∧
  (∀ k, dones !! k = Some false → is_Some (obs !! k)) ∧
  (∀ k o, obs !! k = Some o →
          ∃ h, h ∈ agents s' ∧ id (objs s' h) = k ∧ get_observation s' h = Ok o).
Proof.
  intros Hnd Hal H. unfold step_obs in H.
  apply bind_Ok in H as ([[[s1 r1] d1] t1] & Hstep & H).
  apply bind_Ok in H as (obs1 & Hobs & H). simplify_eq.
  assert (Hs : step ih s actions tape = Ok (s', rewards, dones, tape')).
  { rewrite step_unfold, Hstep. simpl. by rewrite Hobs. }
  apply observations_spec in Hobs as [Hdom Hval].
  assert (Hd : dom obs = ids s') by (rewrite Hdom; unfold ids; set_solver).
  split; [done |]. split; [done |]. split.
  - intros k Hk.
    destruct (step_dones_spec _ _ _ _ _ _ _ _ Hnd Hal Hs) as [_ Hfalse].
    destruct (Hfalse k Hk) as (h & _ & Hh & <-).
    apply elem_of_dom. rewrite Hd. unfold ids.
    apply elem_of_list_to_set, list_elem_of_fmap. eauto.
  - intros k o Hk. by destruct (Hval k o Hk) as [? | ?].
Qed.

(** One tick of [tie_env] with its observations. *)
Lemma step_observes_registry_witness :
  ∃ s' obs rewards dones tape',
    step_obs 1 tie_env tie_actions [3; 3; 4; 4]%nat
      = Ok (s', obs, rewards, dones, tape') ∧
    dom obs = ids s'.
Proof.
  assert (Hok : is_Ok (step_obs 1 tie_env tie_actions [3; 3; 4; 4]%nat) = true)
    by (vm_compute; reflexivity).
  destruct (step_obs 1 tie_env tie_actions [3; 3; 4; 4]%nat)
    as [[[[[s' o] r] d] t] | |] eqn:E; try discriminate Hok.
  exists s', o, r, d, t. split; [reflexivity |].
  exact (proj1 (proj2 (step_observes_registry 1 tie_env tie_actions _ s' o r d t
                  (proj1 (proj1 tie_env_consistent)) (proj2 tie_env_consistent) E))).
Defined.

(** ** Invariants of the states a run goes through *)

(** The three phases of a tick: the move, the removals of hunting and
    hunger, and the creation of the new agents. *)
Lemma step_phases ih s actions tape s' rewards dones tape' :
  step ih s actions tape = Ok (s', rewards, dones, tape') →
  ∃ s1 s3 new,
    agents_move s actions = Ok s1 ∧ shrinks s1 s3 ∧ extends ih s3 s' new ∧
    Forall (fun h => ∃ k : nat,
              id (objs s' h) = prefix (role (objs s' h)) +:+ pretty k) new.
Proof.
  intros H. apply step_Ok in H. unfold tick in H.
  apply bind_Ok in H as (s1 & Hmove & H).
  apply bind_Ok in H as ([[s2 r] d] & Hhunt & H).
  destruct (predator_hunger s2 d) as [s3 d'] eqn:Hhunger.
  apply bind_Ok in H as ([s4 t] & Hgen & H). simplify_eq.
  pose proof (hunting_loop_shrinks _ _ _ Hhunt) as (Hsh2 & _).
  destruct (predator_hunger_shrinks s2 d) as (Hsh3 & _). rewrite Hhunger in Hsh3.
  apply generate_new_agents_extends in Hgen as (new & He & Hnew).
  exists s1, s3, new. split; [done |]. split; [| done].
  exact (shrinks_trans _ _ _ Hsh2 Hsh3).
Qed.

Lemma allocated_shrinks s s' : shrinks s s' → allocated s → allocated s'.
Proof.
  intros (_ & _ & _ & Hn & _ & _ & _ & _ & _ & Hsub & _) Hal.
  unfold allocated in *. rewrite Hn. rewrite Forall_forall in *.
  intros h Hh. apply Hal. by eapply elem_of_sublist.
Qed.

Lemma allocated_extends ih s s' new : extends ih s s' new → allocated s → allocated s'.
Proof.
  intros (Ha & Hnew & Hn & _) Hal. unfold allocated in *.
  rewrite Ha, Hn, Forall_app. split.
  - eapply Forall_impl; [done |]. simpl. lia.
  - rewrite Hnew at 1. apply Forall_forall. intros h Hh%elem_of_seq. lia.
Qed.

Lemma allocated_agents_move s actions s1 :
  agents_move s actions = Ok s1 → allocated s → allocated s1.
Proof.
  intros (Ha & _ & _ & _ & Hn & _)%agents_move_frame Hal.
  unfold allocated. by rewrite Ha, Hn.
Qed.

Lemma allocated_step ih s actions tape s' rewards dones tape' :
  step ih s actions tape = Ok (s', rewards, dones, tape') → allocated s → allocated s'.
Proof.
  intros (s1 & s3 & new & Hm & Hsh & He & _)%step_phases Hal.
  eapply allocated_extends; [done |]. eapply allocated_shrinks; [done |].
  by eapply allocated_agents_move.
Qed.

(** *** The ids name the roles *)

Lemma is_predator_id_prefix (r : Role) (n : string) :
  is_predator_id (prefix r +:+ n) = bool_decide (r = predator).
Proof. by destruct r. Qed.

Lemma tagged_same_ids s s' :
  same_ids (objs s) (objs s') → agents s' ⊆ agents s → tagged s → tagged s'.
Proof.
  intros Hid Hsub Ht. unfold tagged in *. rewrite Forall_forall in *.
  intros h Hh. destruct (Hid h) as [-> ->]. apply Ht. by apply Hsub.
Qed.

Lemma tagged_extends ih s s' new :
  extends ih s s' new → allocated s → tagged s →
  Forall (fun h => ∃ k : nat,
            id (objs s' h) = prefix (role (objs s' h)) +:+ pretty k) new →
  tagged s'.
Proof.
  intros (Ha & _ & _ & _ & _ & Ho & _) Hal Ht Hnew. unfold tagged, allocated in *.
  rewrite Ha, Forall_app. split; [| done].
  rewrite Forall_forall in *. intros h Hh. rewrite Ho by (by apply Hal). by apply Ht.
Qed.

Lemma tagged_step ih s actions tape s' rewards dones tape' :
  step ih s actions tape = Ok (s', rewards, dones, tape') →
  allocated s → tagged s → tagged s'.
Proof.
  intros (s1 & s3 & new & Hm & Hsh & He & Hnew)%step_phases Hal Ht.
  pose proof (allocated_agents_move _ _ _ Hm Hal) as Hal1.
  pose proof (allocated_shrinks _ _ Hsh Hal1) as Hal3.
  apply agents_move_frame in Hm as (Ha1 & _ & _ & _ & _ & _ & _ & Hid1).
  destruct Hsh as (_ & _ & _ & _ & _ & _ & _ & Hid3 & _ & Hsub & _).
  eapply tagged_extends; [done | done | | done].
  eapply tagged_same_ids; [done | by apply sublist_subseteq |].
  eapply tagged_same_ids; [done | by rewrite Ha1 | done].
Qed.

Lemma tagged_steps ih s acts tape s' tape' :
  steps ih s acts tape = Ok (s', tape') →
  allocated s → tagged s → tagged s' ∧ allocated s'.
Proof.
  revert s tape. induction acts as [|a acts IH]; intros s tape H Hal Ht; simpl in H.
  - by simplify_eq.
  - apply bind_Ok in H as ([[[s1 r] d] t] & H1 & H).
    eapply IH; [done | by eapply allocated_step | by eapply tagged_step].
Qed.

(** The agents of role [r] that [reset] creates, numbered from [i]. *)
Lemma reset_agents_extends ih r i n s tape s' tape' :
  reset_agents ih r i n s tape = Ok (s', tape') →
  ∃ new, extends ih s s' new ∧ length new = n ∧
         num_predators s' = num_predators s ∧ num_prey s' = num_prey s ∧
         num_walls s' = num_walls s ∧
         ∀ (j : nat) h, new !! j = Some h →
           role (objs s' h) = r ∧ id (objs s' h) = prefix r +:+ pretty (i + j)%nat.
Proof.
  revert i s tape. induction n as [|n IH]; intros i s tape H; simpl in H.
  - simplify_eq. exists []. split; [apply extends_refl |]. by repeat split.
  - apply bind_Ok in H as ([p t] & Hp & H).
    pose proof (extends_create ih s (prefix r +:+ pretty i) r p _ _ Hp) as He1.
    destruct (IH _ _ _ H) as (new & He & Hl & Hn1 & Hn2 & Hn3 & Hr).
    exists (next_obj s :: new).
    split; [exact (extends_trans _ _ _ _ [next_obj s] new He1 He) |].
    split; [simpl; lia |]. do 3 (split; [done |]).
    intros [|j] h Hj; simpl in Hj.
    + simplify_eq. destruct He as (_ & _ & _ & _ & _ & Ho & _).
      rewrite Ho by (simpl; lia). simpl. rewrite fn_lookup_insert. simpl.
      by rewrite Nat.add_0_r.
    + destruct (Hr j h Hj) as [? ->]. split; [done |]. do 2 f_equal. lia.
Qed.

(** The walls that [reset] places: new entries of the wall list on
    distinct cells; registry, objects and counters are not touched, and
    the grid holds a wall where one was placed. *)
Lemma reset_walls_spec n s tape s' tape' :
  reset_walls n s tape = Ok (s', tape') →
  agents s' = agents s ∧ objs s' = objs s ∧ next_obj s' = next_obj s ∧
  grid_size s' = grid_size s ∧ num_predators s' = num_predators s ∧
  num_prey s' = num_prey s ∧
  ∃ ws, walls_positions s' = walls_positions s ++ ws ∧ length ws = n ∧ NoDup ws ∧
        Forall (fun w => cell_at (grid s) w = Empty ∧
                         ∃ r1 r2, w = sample_pos (grid_size s) r1 r2) ws ∧
        ∀ q, cell_at (grid s') q = if decide (q ∈ ws) then Wall else cell_at (grid s) q.
Proof.
  revert s tape. induction n as [|n IH]; intros s tape H; simpl in H.
  - simplify_eq. do 6 (split; [done |]). exists []. rewrite app_nil_r.
    split; [done |]. split; [done |]. split; [constructor |]. split; [constructor |].
    intros q. rewrite decide_False; [done | by intros ?%elem_of_nil].
  - apply bind_Ok in H as ([p t] & Hp & H).
    apply sample_empty_Ok in Hp as (Hz%is_zero_Empty & Hs & _).
    apply IH in H as (Ha & Ho & Hn & Hg & Hp1 & Hp2 & ws & Hw & Hl & Hnd & Hall & Hc).
    simpl in *. do 6 (split; [done |]). exists (p :: ws).
    split; [by rewrite Hw, <- app_assoc |]. split; [simpl; lia |].
    rewrite Forall_forall in Hall.
    assert (Hp : p ∉ ws).
    { intros Hin. destruct (Hall p Hin) as [He _].
      by rewrite cell_at_set_cell, decide_True in He. }
    split; [by constructor |]. split.
    + constructor; [done |]. apply Forall_forall. intros w Hin.
      destruct (Hall w Hin) as [He Hr]. split; [| done].
      rewrite cell_at_set_cell in He. by case_decide.
    + intros q. rewrite Hc, cell_at_set_cell.
      destruct (decide (q ∈ p :: ws)) as [Hin | Hnin].
      * apply elem_of_cons in Hin as [-> | Hin].
        -- rewrite (decide_False (P := p ∈ ws)) by done. by rewrite decide_True.
        -- by rewrite decide_True.
      * apply not_elem_of_cons in Hnin as [? ?].
        rewrite (decide_False (P := q ∈ ws)) by done. by rewrite decide_False.
Qed.

(** [reset] in three parts: the walls, then the predators, then the prey. *)
Lemma reset_phases ih s tape s' tape' :
  reset ih s tape = Ok (s', tape') →
  ∃ s1 tape1 s2 tape2,
    reset_walls (num_walls s) (with_walls (with_grid s ∅) []) tape = Ok (s1, tape1) ∧
    reset_agents ih predator 0 (num_predators s) s1 tape1 = Ok (s2, tape2) ∧
    reset_agents ih prey 0 (num_prey s) s2 tape2 = Ok (s', tape').
Proof.
  intros H. apply reset_Ok in H. unfold reset_placement in H.
  apply bind_Ok in H as ([s1 t1] & H1 & H).
  apply bind_Ok in H as ([s2 t2] & H2 & H3). by exists s1, t1, s2, t2.
Qed.

Lemma tagged_reset ih s tape s' tape' :
  reset ih s tape = Ok (s', tape') →
  allocated s → tagged s → tagged s' ∧ allocated s'.
Proof.
  intros (s1 & t1 & s2 & t2 & H1 & H2 & H3)%reset_phases Hal Ht.
  apply reset_walls_spec in H1 as (Ha1 & Ho1 & Hn1 & _). simpl in *.
  assert (Hal1 : allocated s1) by (unfold allocated; by rewrite Ha1, Hn1).
  assert (Ht1 : tagged s1) by (unfold tagged; by rewrite Ha1, Ho1).
  apply reset_agents_extends in H2 as (new2 & He2 & _ & _ & _ & _ & Hr2).
  apply reset_agents_extends in H3 as (new3 & He3 & _ & _ & _ & _ & Hr3).
  pose proof (allocated_extends _ _ _ _ He2 Hal1) as Hal2.
  split; [| by eapply allocated_extends].
  eapply tagged_extends; [done | done | |].
  - eapply tagged_extends; [done | done | done |].
    apply Forall_forall. intros h (j & Hj)%list_elem_of_lookup_1.
    destruct (Hr2 j h Hj) as [-> ->]. eauto.
  - apply Forall_forall. intros h (j & Hj)%list_elem_of_lookup_1.
    destruct (Hr3 j h Hj) as [-> ->]. eauto.
Qed.

(** The test [agent_id[:2] == 'pr'] of the training loop is a test of the
    role: in every state reached from a [reset] of a new environment by
    any number of ticks, a live agent's id starts with ['pr'] exactly when
    the agent is a predator. *)
Theorem id_prefix_tells_role (ih : float) (s : Env) (tape : list nat) (s0 : Env)
    (tape0 : list nat) (acts : list (gmap string Z)) (s' : Env) (tape' : list nat)
    (h : nat) :
  agents s = [] →
  reset ih s tape = Ok (s0, tape0) →
  steps ih s0 acts tape0 = Ok (s', tape') →
  h ∈ agents s' →
  is_predator_id (id (objs s' h)) = bool_decide (role (objs s' h) = predator).
Proof.
  intros Ha Hr Hs Hh.
  apply tagged_reset in Hr as [Ht0 Hal0];
    [| unfold allocated; rewrite Ha; constructor
     | unfold tagged; rewrite Ha; constructor].
  apply tagged_steps in Hs as [Ht _]; [| done | done].
  unfold tagged in Ht. rewrite Forall_forall in Ht.
  destruct (Ht h Hh) as (k & ->). apply is_predator_id_prefix.
Qed.

(** After a reset and two ticks the first object, a predator, carries an
    id that starts with ['pr']. *)
Lemma id_prefix_tells_role_witness :
  ∃ s0 tape0 s' tape',
    reset 1 (init (5, 5) 1 2 1 1 0.3) reset_tape = Ok (s0, tape0) ∧
    steps 1 s0 [all_stay; all_stay] tape0 = Ok (s', tape') ∧
    is_predator_id (id (objs s' 0)) = bool_decide (role (objs s' 0) = predator).
Proof.
  assert (Hok : is_Ok (reset 1 (init (5, 5) 1 2 1 1 0.3) reset_tape) = true)
    by (vm_compute; reflexivity).
  destruct (reset 1 (init (5, 5) 1 2 1 1 0.3) reset_tape) as [[s t] | |] eqn:E;
    try discriminate Hok.
  assert (Hs : Ok (s, t) = reset 1 (init (5, 5) 1 2 1 1 0.3) reset_tape) by done.
  vm_compute in Hs. injection Hs as Hs Ht.
  assert (Hok2 : is_Ok (steps 1 s [all_stay; all_stay] t) = true)
    by (rewrite Hs, Ht; vm_compute; reflexivity).
  destruct (steps 1 s [all_stay; all_stay] t) as [[sn tn] | |] eqn:E2;
    try discriminate Hok2.
  assert (Hin : bool_decide (0%nat ∈ agents sn) = true).
  { assert (Hsn : Ok (sn, tn) = steps 1 s [all_stay; all_stay] t) by done.
    rewrite Hs, Ht in Hsn. vm_compute in Hsn. injection Hsn as -> _.
    vm_compute. reflexivity. }
  exists s, t, sn, tn. split; [reflexivity |]. split; [exact E2 |].
  exact (id_prefix_tells_role 1 (init (5, 5) 1 2 1 1 0.3) reset_tape s t
           [all_stay; all_stay] sn tn 0%nat eq_refl E E2
           (bool_decide_eq_true_1 _ Hin)).
Defined.

(** ** Reset *)

(** What [reset] builds, read off its three loops. *)
Lemma reset_spec ih s tape s' tape' :
  reset ih s tape = Ok (s', tape') →
  ∃ s1 s2 new2 new3,
    agents s1 = agents s ∧ objs s1 = objs s ∧ next_obj s1 = next_obj s ∧
    grid_size s1 = grid_size s ∧
    length (walls_positions s1) = num_walls s ∧ NoDup (walls_positions s1) ∧
    Forall (fun w => ∃ r1 r2, w = sample_pos (grid_size s) r1 r2) (walls_positions s1) ∧
    (∀ q, cell_at (grid s1) q = if decide (q ∈ walls_positions s1) then Wall else Empty) ∧
    extends ih s1 s2 new2 ∧ length new2 = num_predators s ∧
    (∀ (j : nat) h, new2 !! j = Some h →
       role (objs s2 h) = predator ∧ id (objs s2 h) = "pr_" +:+ pretty j) ∧
    extends ih s2 s' new3 ∧ length new3 = num_prey s ∧
    (∀ (j : nat) h, new3 !! j = Some h →
       role (objs s' h) = prey ∧ id (objs s' h) = "py_" +:+ pretty j).
Proof.
  intros (s1 & t1 & s2 & t2 & H1 & H2 & H3)%reset_phases.
  apply reset_walls_spec in H1
    as (Ha1 & Ho1 & Hn1 & Hg1 & Hp1 & Hy1 & ws & Hw & Hl & Hnd & Hall & Hc).
  simpl in *.
  apply reset_agents_extends in H2 as (new2 & He2 & Hl2 & _ & Hy2 & _ & Hr2).
  apply reset_agents_extends in H3 as (new3 & He3 & Hl3 & _ & _ & _ & Hr3).
  exists s1, s2, new2, new3. rewrite Hw.
  do 4 (split; [done |]). split; [done |]. split; [done |]. split.
  { eapply Forall_impl; [done |]. simpl. by intros w [_ ?]. }
  split.
  { intros q. rewrite Hc. case_decide; [done |]. unfold cell_at. by rewrite lookup_empty. }
  split; [done |]. split; [done |]. split; [exact Hr2 |].
  split; [done |]. split; [done |]. exact Hr3.
Qed.

Lemma extends_new_lookup ih s s' new (j : nat) :
  extends ih s s' new → (j < length new)%nat → new !! j = Some (next_obj s + j)%nat.
Proof. intros (_ & Hnew & _) Hj. rewrite Hnew. by apply lookup_seq_lt. Qed.

(** [reset] appends [num_predators] predators and then [num_prey] prey to
    the registry, as new objects [pr_0], [pr_1], ... and [py_0], [py_1],
    ... with the initial health, each standing on a cell that refers to
    it; and it places [num_walls] walls on distinct cells, the wall cells
    of the grid being exactly the entries of the wall list. *)
Theorem reset_population (ih : float) (s : Env) (tape : list nat) (s' : Env)
    (tape' : list nat) :
  reset ih s tape = Ok (s', tape') →
  agents s' = agents s ++ seq (next_obj s) (num_predators s + num_prey s) ∧
  (∀ j : nat, (j < num_predators s)%nat →
     id (objs s' (next_obj s + j)) = "pr_" +:+ pretty j ∧
     role (objs s' (next_obj s + j)) = predator ∧
     health (objs s' (next_obj s + j)) = ih) ∧
  (∀ j : nat, (j < num_prey s)%nat →
     id (objs s' (next_obj s + num_predators s + j)) = "py_" +:+ pretty j ∧
     role (objs s' (next_obj s + num_predators s + j)) = prey ∧
     health (objs s' (next_obj s + num_predators s + j)) = ih) ∧
  (∀ j : nat, (j < num_predators s + num_prey s)%nat →
     cell_at (grid s') (position (objs s' (next_obj s + j))) = Ref (next_obj s + j)) ∧
  length (walls_positions s') = num_walls s ∧ NoDup (walls_positions s') ∧
  (∀ q, cell_at (grid s') q = Wall ↔ q ∈ walls_positions s').
Proof.
  intros (s1 & s2 & new2 & new3 & Ha1 & Ho1 & Hn1 & Hg1 & Hlw & Hndw & _ & Hc1 &
          He2 & Hl2 & Hr2 & He3 & Hl3 & Hr3)%reset_spec.
  pose proof He2 as (Ha2 & Hnew2 & Hn2 & _ & Hw2 & Ho2 & Hk2 & Hc2 & Hall2).
  pose proof He3 as (Ha3 & Hnew3 & Hn3 & _ & Hw3 & Ho3 & Hk3 & Hc3 & Hall3).
  rewrite Forall_forall in Hall2, Hall3.
  assert (Hpred : ∀ j : nat, (j < num_predators s)%nat →
            new2 !! j = Some (next_obj s + j)%nat).
  { intros j Hj. rewrite <- Hn1. eapply extends_new_lookup; [done | lia]. }
  assert (Hprey : ∀ j : nat, (j < num_prey s)%nat →
            new3 !! j = Some (next_obj s + num_predators s + j)%nat).
  { intros j Hj. rewrite <- Hn1, <- Hl2, <- Hn2.
    eapply extends_new_lookup; [done | lia]. }
  split; [| split; [| split; [| split]]].
  - rewrite Ha3, Ha2, Ha1, <- app_assoc. f_equal.
    rewrite seq_app, <- Hn1, <- Hl2, <- Hn2, <- Hl3. by rewrite <- Hnew2, <- Hnew3.
  - intros j Hj. specialize (Hpred j Hj).
    destruct (Hr2 _ _ Hpred) as [Hr Hi].
    destruct (Hall2 _ (list_elem_of_lookup_2 _ _ _ Hpred)) as (Hh & _).
    rewrite Ho3 by (rewrite Hn2, Hn1; lia). done.
  - intros j Hj. specialize (Hprey j Hj).
    destruct (Hr3 _ _ Hprey) as [Hr Hi].
    destruct (Hall3 _ (list_elem_of_lookup_2 _ _ _ Hprey)) as (Hh & _). done.
  - intros j Hj. destruct (decide (j < num_predators s)%nat) as [Hlt | Hge].
    + specialize (Hpred j Hlt).
      destruct (Hall2 _ (list_elem_of_lookup_2 _ _ _ Hpred)) as (_ & _ & _ & Hcell).
      rewrite Ho3 by (rewrite Hn2, Hn1; lia).
      rewrite Hk3; [done |]. by rewrite Hcell.
    + assert (Hj' : (j - num_predators s < num_prey s)%nat) by lia.
      specialize (Hprey _ Hj').
      replace (next_obj s + num_predators s + (j - num_predators s))%nat
        with (next_obj s + j)%nat in Hprey by lia.
      by destruct (Hall3 _ (list_elem_of_lookup_2 _ _ _ Hprey)) as (_ & _ & _ & Hcell).
  - rewrite Hw3, Hw2. split; [done |]. split; [done |]. intros q. split.
    + intros Hq. destruct (Hc3 q) as [E3 | (h & _ & E3)]; [| congruence].
      destruct (Hc2 q) as [E2 | (h & _ & E2)]; [| congruence].
      rewrite Hq in E3. rewrite <- E3, Hc1 in E2. by case_decide.
    + intros Hq. assert (E1 : cell_at (grid s1) q = Wall) by (by rewrite Hc1, decide_True).
      assert (E2 : cell_at (grid s2) q = Wall) by (rewrite Hk2; [done | by rewrite E1]).
      rewrite Hk3; [done | by rewrite E2].
Qed.

Lemma reset_population_witness :
  ∃ s' tape',
    reset 1 (init (5, 5) 1 2 1 1 0.3) reset_tape = Ok (s', tape') ∧
    agents s' = [0; 1; 2]%nat ∧ length (walls_positions s') = 1%nat.
Proof.
  assert (Hok : is_Ok (reset 1 (init (5, 5) 1 2 1 1 0.3) reset_tape) = true)
    by (vm_compute; reflexivity).
  destruct (reset 1 (init (5, 5) 1 2 1 1 0.3) reset_tape) as [[s t] | |] eqn:E;
    try discriminate Hok.
  exists s, t. split; [reflexivity |].
  destruct (reset_population 1 (init (5, 5) 1 2 1 1 0.3) reset_tape s t E)
    as (Ha & _ & _ & _ & Hw & _).
  split; [exact Ha | exact Hw].
Defined.

(** [reset] does not clear the registry.  Called on an environment that
    already has agents, it leaves every one of them registered and
    unchanged, while the cleared grid refers to none of them; so after a
    second [reset] the grid and the registry disagree. *)
Theorem reset_keeps_old_agents (ih : float) (s : Env) (tape : list nat) (s' : Env)
    (tape' : list nat) :
  allocated s →
  reset ih s tape = Ok (s', tape') →
  (∀ h, h ∈ agents s →
        h ∈ agents s' ∧ objs s' h = objs s h ∧ ∀ q, cell_at (grid s') q ≠ Ref h) ∧
  (agents s ≠ [] → ¬ occupancy s').
Proof.
  intros Hal (s1 & s2 & new2 & new3 & Ha1 & Ho1 & Hn1 & Hg1 & Hlw & Hndw & _ & Hc1 &
              He2 & Hl2 & Hr2 & He3 & Hl3 & Hr3)%reset_spec.
  destruct He2 as (Ha2 & Hnew2 & Hn2 & _ & Hw2 & Ho2 & Hk2 & Hc2 & Hall2).
  destruct He3 as (Ha3 & Hnew3 & Hn3 & _ & Hw3 & Ho3 & Hk3 & Hc3 & Hall3).
  unfold allocated in Hal. rewrite Forall_forall in Hal.
  assert (Hold : ∀ h, h ∈ agents s →
            h ∈ agents s' ∧ objs s' h = objs s h ∧ ∀ q, cell_at (grid s') q ≠ Ref h).
  { intros h Hh. specialize (Hal h Hh). split; [| split].
    - rewrite Ha3, Ha2, Ha1, !elem_of_app. by left; left.
    - rewrite Ho3, Ho2, Ho1 by lia. done.
    - intros q Hq.
      destruct (Hc3 q) as [E3 | (h' & Hh' & E3)].
      + destruct (Hc2 q) as [E2 | (h' & Hh' & E2)].
        * rewrite E3, E2, Hc1 in Hq. by case_decide.
        * rewrite Hnew2 in Hh'. apply elem_of_seq in Hh'.
          rewrite E3, E2 in Hq. simplify_eq. lia.
      + rewrite Hnew3 in Hh'. apply elem_of_seq in Hh'.
        rewrite E3 in Hq. simplify_eq. lia. }
  split; [done |]. intros Hne (Hocc & _).
  destruct (agents s) as [|h l] eqn:E; [done |].
  destruct (Hold h) as (Hin & _ & Hcell); [left |].
  rewrite Forall_forall in Hocc. by apply (Hcell _ (Hocc h Hin)).
Qed.

(** A [reset] of [tie_env], which has three agents. *)
Lemma reset_keeps_old_agents_witness :
  ∃ s' tape',
    reset 1 tie_env reset_tape = Ok (s', tape') ∧
    0%nat ∈ agents s' ∧ ¬ occupancy s'.
Proof.
  assert (Hok : is_Ok (reset 1 tie_env reset_tape) = true) by (vm_compute; reflexivity).
  destruct (reset 1 tie_env reset_tape) as [[s t] | |] eqn:E; try discriminate Hok.
  exists s, t. split; [reflexivity |].
  destruct (reset_keeps_old_agents 1 tie_env reset_tape s t (proj2 tie_env_consistent) E)
    as [Hold Hocc].
  split.
  - apply (Hold 0%nat). vm_compute. left.
  - apply Hocc. discriminate.
Defined.

(** *** Indices stay in range *)

Lemma on_grid_sample gs r1 r2 : 0 < gs.1 → 0 < gs.2 → on_grid gs (sample_pos gs r1 r2).
Proof.
  intros H1 H2. unfold on_grid, sample_pos. simpl.
  split; apply Z.mod_pos_bound; lia.
Qed.

Lemma on_grid_resolve g gs p action :
  0 < gs.1 → 0 < gs.2 → on_grid gs p → on_grid gs (resolve g gs p action).
Proof.
  intros H1 H2 [Hp1 Hp2]. unfold resolve.
  destruct (is_zero _); [| done]. unfold candidate.
  repeat (case_match; [split; simpl; try done; apply Z.mod_pos_bound; lia |]).
  done.
Qed.

(** Every agent ends the move phase on the cell that was resolved for an
    agent with its id. *)
Lemma agents_move_positions s actions s1 h :
  agents_move s actions = Ok s1 → h ∈ agents s →
  ∃ h' action, h' ∈ agents s ∧
    position (objs s1 h) = resolve (grid s) (grid_size s) (position (objs s h')) action.
Proof.
  intros H Hh. unfold agents_move in H.
  apply bind_Ok in H as (np & Hnp & H). apply bind_Ok in H as ([g o] & Hw & H).
  simplify_eq. simpl.
  destruct (write_agents_spec _ _ _ _ _ _ Hw) as (_ & _ & _ & Hpos & _).
  destruct (plan_moves_lookup _ _ _ _ _ Hnp _ _ (Hpos h Hh))
    as [[He _] | (h' & a & Hh' & _ & _ & Hp)]; [by rewrite lookup_empty in He |].
  by exists h', a.
Qed.

Lemma well_formed_agents_move s actions s1 :
  agents_move s actions = Ok s1 → well_formed s → well_formed s1.
Proof.
  intros H (H1 & H2 & Hp & Hw).
  pose proof (agents_move_frame _ _ _ H) as (Ha & Hwp & Hg & _).
  unfold well_formed. rewrite Hg, Ha, Hwp. do 2 (split; [done |]). split; [| done].
  rewrite Forall_forall in *. intros h Hh.
  destruct (agents_move_positions _ _ _ h H Hh) as (h' & a & Hh' & ->).
  apply on_grid_resolve; [done | done | by apply Hp].
Qed.

Lemma well_formed_shrinks s s' : shrinks s s' → well_formed s → well_formed s'.
Proof.
  intros (Hwp & Hg & _ & _ & _ & _ & _ & _ & Hpos & Hsub & _) (H1 & H2 & Hp & Hw).
  unfold well_formed. rewrite Hg, Hwp. do 2 (split; [done |]). split; [| done].
  rewrite Forall_forall in *. intros h Hh. rewrite Hpos. apply Hp.
  by eapply elem_of_sublist.
Qed.

Lemma well_formed_extends ih s s' new :
  extends ih s s' new → allocated s → well_formed s → well_formed s'.
Proof.
  intros (Ha & _ & _ & Hg & Hwp & Ho & _ & _ & Hall) Hal (H1 & H2 & Hp & Hw).
  unfold well_formed, allocated in *. rewrite Hg, Hwp, Ha.
  do 2 (split; [done |]). split; [| done]. rewrite Forall_app. split.
  - rewrite Forall_forall in *. intros h Hh. rewrite Ho by (by apply Hal). by apply Hp.
  - eapply Forall_impl; [done |]. simpl. intros h (_ & (r1 & r2 & ->) & _).
    by apply on_grid_sample.
Qed.

Lemma NoDup_extends ih s s' new :
  extends ih s s' new → allocated s → NoDup (agents s) → NoDup (agents s').
Proof.
  intros (Ha & Hnew & _) Hal Hnd. unfold allocated in Hal. rewrite Forall_forall in Hal.
  rewrite Ha. apply NoDup_app. split; [done |]. split; [| rewrite Hnew; apply NoDup_seq].
  intros h Hh Hin. rewrite Hnew in Hin. apply elem_of_seq in Hin.
  specialize (Hal h Hh). lia.
Qed.

Lemma well_formed_step ih s actions tape s' rewards dones tape' :
  step ih s actions tape = Ok (s', rewards, dones, tape') →
  allocated s → well_formed s → NoDup (agents s) →
  allocated s' ∧ well_formed s' ∧ NoDup (agents s').
Proof.
  intros H Hal Hwf Hnd. split; [by eapply allocated_step |].
  apply step_phases in H as (s1 & s3 & new & Hm & Hsh & He & _).
  pose proof (allocated_agents_move _ _ _ Hm Hal) as Hal1.
  pose proof (allocated_shrinks _ _ Hsh Hal1) as Hal3.
  pose proof (well_formed_agents_move _ _ _ Hm Hwf) as Hwf1.
  pose proof (well_formed_shrinks _ _ Hsh Hwf1) as Hwf3.
  split; [by eapply well_formed_extends |].
  eapply NoDup_extends; [done | done |].
  destruct Hsh as (_ & _ & _ & _ & _ & _ & _ & _ & _ & Hsub & _).
  apply (sublist_NoDup (agents s3) (agents s1)); [| done].
  apply agents_move_frame in Hm as (-> & _). done.
Qed.

Lemma well_formed_steps ih s acts tape s' tape' :
  steps ih s acts tape = Ok (s', tape') →
  allocated s → well_formed s → NoDup (agents s) →
  allocated s' ∧ well_formed s' ∧ NoDup (agents s').
Proof.
  revert s tape. induction acts as [|a acts IH]; intros s tape H Hal Hwf Hnd; simpl in H.
  - by simplify_eq.
  - apply bind_Ok in H as ([[[s1 r] d] t] & H1 & H).
    destruct (well_formed_step _ _ _ _ _ _ _ _ H1 Hal Hwf Hnd) as (? & ? & ?).
    by eapply IH.
Qed.

Lemma well_formed_reset ih s tape s' tape' :
  reset ih s tape = Ok (s', tape') →
  0 < (grid_size s).1 → 0 < (grid_size s).2 → agents s = [] →
  allocated s' ∧ well_formed s' ∧ NoDup (agents s').
Proof.
  intros H Hd1 Hd2 Ha.
  destruct (consistent_reset ih s tape s' tape' Ha H) as [(Hnd & _) Hal].
  split; [done |]. split; [| done].
  apply reset_spec in H
    as (s1 & s2 & new2 & new3 & Ha1 & Ho1 & Hn1 & Hg1 & Hlw & Hndw & Hws & Hc1 &
        He2 & Hl2 & Hr2 & He3 & Hl3 & Hr3).
  assert (Hal1 : allocated s1) by (unfold allocated; rewrite Ha1, Ha; constructor).
  assert (Hwf1 : well_formed s1).
  { unfold well_formed. rewrite Hg1, Ha1, Ha.
    do 2 (split; [done |]). split; [constructor |].
    eapply Forall_impl; [done |]. simpl. intros w (r1 & r2 & ->).
    by apply on_grid_sample. }
  eapply well_formed_extends; [done | by eapply allocated_extends |].
  by eapply well_formed_extends.
Qed.

(** No index leaves the grid and no agent is registered twice: in every
    state reached from a [reset] of a new environment with positive
    dimensions by any number of ticks, every recorded position and every
    wall lies on the grid, and the registry has no duplicate. *)
Theorem run_stays_on_grid (ih : float) (s : Env) (tape : list nat) (s0 : Env)
    (tape0 : list nat) (acts : list (gmap string Z)) (s' : Env) (tape' : list nat) :
  agents s = [] → 0 < (grid_size s).1 → 0 < (grid_size s).2 →
  reset ih s tape = Ok (s0, tape0) →
  steps ih s0 acts tape0 = Ok (s', tape') →
  well_formed s' ∧ NoDup (agents s').
Proof.
  intros Ha Hd1 Hd2 Hr Hs.
  destruct (well_formed_reset _ _ _ _ _ Hr Hd1 Hd2 Ha) as (Hal0 & Hwf0 & Hnd0).
  by destruct (well_formed_steps _ _ _ _ _ _ Hs Hal0 Hwf0 Hnd0) as (_ & ? & ?).
Qed.

Lemma run_stays_on_grid_witness :
  ∃ s0 tape0 s' tape',
    reset 1 (init (5, 5) 1 2 1 1 0.3) reset_tape = Ok (s0, tape0) ∧
    steps 1 s0 [all_stay; all_stay] tape0 = Ok (s', tape') ∧
    well_formed s' ∧ NoDup (agents s').
Proof.
  assert (Hok : is_Ok (reset 1 (init (5, 5) 1 2 1 1 0.3) reset_tape) = true)
    by (vm_compute; reflexivity).
  destruct (reset 1 (init (5, 5) 1 2 1 1 0.3) reset_tape) as [[s t] | |] eqn:E;
    try discriminate Hok.
  assert (Hok2 : is_Ok (steps 1 s [all_stay; all_stay] t) = true).
  { assert (Hs : Ok (s, t) = reset 1 (init (5, 5) 1 2 1 1 0.3) reset_tape) by done.
    vm_compute in Hs. injection Hs as -> ->. vm_compute. reflexivity. }
  destruct (steps 1 s [all_stay; all_stay] t) as [[sn tn] | |] eqn:E2;
    try discriminate Hok2.
  exists s, t, sn, tn. split; [reflexivity |]. split; [exact E2 |].
  refine (run_stays_on_grid 1 (init (5, 5) 1 2 1 1 0.3) reset_tape s t
            [all_stay; all_stay] sn tn eq_refl _ _ E E2); simpl; lia.
Defined.

(** A [reset] of an environment without agents establishes the agreement
    of grid and registry: every live agent stands on the cell that refers
    to it, every reference on the grid is to a live agent at that cell,
    and the occupied cells are as many as the live agents. *)
Theorem reset_establishes_occupancy (ih : float) (s : Env) (tape : list nat)
    (s' : Env) (tape' : list nat) :
  agents s = [] →
  reset ih s tape = Ok (s', tape') →
  occupancy s' ∧ walls_ok s'.
Proof.
  intros Ha H. split.
  - apply consistent_occupancy. by destruct (consistent_reset ih s tape s' tape' Ha H).
  - by eapply walls_ok_reset.
Qed.

Lemma reset_establishes_occupancy_witness :
  ∃ s' tape',
    reset 1 (init (5, 5) 1 2 1 1 0.3) reset_tape = Ok (s', tape') ∧ occupancy s'.
Proof.
  assert (Hok : is_Ok (reset 1 (init (5, 5) 1 2 1 1 0.3) reset_tape) = true)
    by (vm_compute; reflexivity).
  destruct (reset 1 (init (5, 5) 1 2 1 1 0.3) reset_tape) as [[s t] | |] eqn:E;
    try discriminate Hok.
  exists s, t. split; [reflexivity |].
  exact (proj1 (reset_establishes_occupancy 1 (init (5, 5) 1 2 1 1 0.3) reset_tape
                  s t eq_refl E)).
Defined.

(** ** Resurrection of an extinct role (C10) *)

(** [generate_new_agents] returns when the tape samples pairwise distinct
    empty cells, one for every agent it has to place. *)
Lemma generate_total ih s p_predator p_prey kp ky cp cy rest :
  0 < (grid_size s).1 → 0 < (grid_size s).2 →
  new_count (length (by_role s predator)) (max_num_predators s) p_predator = Ok kp →
  new_count (length (by_role s prey)) (max_num_preys s) p_prey = Ok ky →
  length cp = Z.to_nat kp → length cy = Z.to_nat ky →
  NoDup ((fun c => sample_pos (grid_size s) c.1 c.2) <$> (cp ++ cy)) →
  Forall (fun c => cell_at (grid s) (sample_pos (grid_size s) c.1 c.2) = Empty)
         (cp ++ cy) →
  ∃ s', generate_new_agents ih s p_predator p_prey (draws (cp ++ cy) ++ rest)
        = Ok (s', rest).
Proof.
  intros Hd1 Hd2 Hkp Hky Hlp Hly Hnd Hall.
  unfold generate_new_agents. rewrite Hkp, Hky. simpl.
  rewrite fmap_app in Hnd. apply NoDup_app in Hnd as (Hndp & Hdis & Hndy).
  apply Forall_app in Hall as [Hallp Hally].
  replace (draws (cp ++ cy) ++ rest) with (draws cp ++ (draws cy ++ rest))
    by (unfold draws; by rewrite bind_app, app_assoc).
  destruct (spawn_total ih predator cp s (draws cy ++ rest) Hd1 Hd2 Hndp Hallp)
    as (s1 & H1 & Hg1 & Hq1).
  rewrite <- Hlp, H1. simpl. rewrite <- Hly.
  destruct (spawn_total ih prey cy s1 rest) as (s2 & H2 & _).
  - by rewrite Hg1.
  - by rewrite Hg1.
  - by rewrite Hg1.
  - rewrite Hg1. rewrite Forall_forall in Hally. apply Forall_forall. intros c Hc.
    rewrite Hq1; [by apply Hally |]. intros Hin. apply (Hdis _ Hin).
    apply list_elem_of_fmap. eauto.
  - eauto.
Qed.

Lemma bind_ret {A B} (a : A) (f : A → result B) : Ok a ≫= f = f a.
Proof. reflexivity. Qed.

(** The spawn phase on [full_env] uses up every tape. *)
Lemma full_env_never_spawns tape :
  generate_new_agents 1 full_env 0.003 0.006 tape = OutOfDraws.
Proof.
  unfold generate_new_agents.
  assert (Hp : new_count (length (by_role full_env predator))
                 (max_num_predators full_env) 0.003 = Ok 1) by (vm_compute; reflexivity).
  assert (Hy : new_count (length (by_role full_env prey))
                 (max_num_preys full_env) 0.006 = Ok 1) by (vm_compute; reflexivity).
  rewrite Hp, Hy. simpl.
  rewrite (sample_empty_full _ (1, 1) tape); [done | simpl; lia | simpl; lia |].
  intros [x y] [Hx Hy']; simpl in *.
  assert (x = 0) as -> by lia. assert (y = 0) as -> by lia. done.
Qed.

(** C10, counterexample: [PredatorPreyEnv((1, 1), 1, 0, 0, 1, 0.3)] after
    [reset] has no prey and a positive cap for prey, and its one cell is
    taken; the spawn phase never returns on it, whatever is drawn, and so
    does no [step]: no prey is ever created. *)
Lemma extinct_prey_stays_extinct :
  (∃ tape', reset 1 (init (1, 1) 1 0 0 1 0.3) [0; 0]%nat = Ok (full_env, tape')) ∧
  by_role full_env prey = [] ∧ 0 < cap full_env prey ∧
  (∀ tape, generate_new_agents 1 full_env 0.003 0.006 tape = OutOfDraws) ∧
  (∀ tape, step 1 full_env (list_to_map [("pr_0", 0)]) tape = OutOfDraws).
Proof.
  split; [exists []; vm_compute; reflexivity |].
  split; [reflexivity |]. split; [reflexivity |].
  split; [apply full_env_never_spawns |].
  intros tape. rewrite step_unfold. unfold tick.
  destruct (agents_move full_env (list_to_map [("pr_0", 0)])) as [s1 | |] eqn:Em;
    [| vm_compute in Em; discriminate Em ..].
  vm_compute in Em. injection Em as <-. rewrite bind_ret. cbv beta.
  match goal with
  | |- context [hunting ?e ?r ?d] => destruct (hunting e r d) as [[[s2 r2] d2] | |] eqn:Eh
  end; [| vm_compute in Eh; discriminate Eh ..].
  vm_compute in Eh. injection Eh as <- <- <-. rewrite bind_ret. cbv beta iota.
  match goal with
  | |- context [predator_hunger ?e ?d] => destruct (predator_hunger e d) as [s3 d3] eqn:E3
  end.
  vm_compute in E3. injection E3 as <- <-.
  unfold generate_new_agents.
  match goal with
  | |- context [new_count ?a ?b 0.003%float] =>
      assert (new_count a b 0.003 = Ok 1) as -> by (vm_compute; reflexivity)
  end.
  match goal with
  | |- context [new_count ?a ?b 0.006%float] =>
      assert (new_count a b 0.006 = Ok 1) as -> by (vm_compute; reflexivity)
  end.
  simpl.
  rewrite (sample_empty_full _ (1, 1) tape); [done | simpl; lia | simpl; lia |].
  intros [x y] [Hx Hy']; simpl in *.
  assert (x = 0) as -> by lia. assert (y = 0) as -> by lia. vm_compute. reflexivity.
Qed.

(** C10, amended: when a role has no live agent and its cap is positive,
    the spawn phase of [step] (growth factors 0.003 and 0.006) adds exactly
    one agent of that role whenever it returns; it returns when the draws
    hit pairwise distinct empty cells, one for every agent to be placed;
    and on a grid without an empty cell it does not return, so that the
    role stays extinct. *)
Theorem extinct_role_respawns (ih : float) (s : Env) (r : Role) :
  well_formed s → allocated s →
  by_role s r = [] → 0 < cap s r →
  (∀ tape s' tape',
     generate_new_agents ih s 0.003 0.006 tape = Ok (s', tape') →
     length (by_role s' r) = 1%nat) ∧
  (∀ kp ky cp cy rest,
     new_count (length (by_role s predator)) (max_num_predators s) 0.003 = Ok kp →
     new_count (length (by_role s prey)) (max_num_preys s) 0.006 = Ok ky →
     length cp = Z.to_nat kp → length cy = Z.to_nat ky →
     NoDup ((fun c => sample_pos (grid_size s) c.1 c.2) <$> (cp ++ cy)) →
     Forall (fun c => cell_at (grid s) (sample_pos (grid_size s) c.1 c.2) = Empty)
            (cp ++ cy) →
     ∃ s', generate_new_agents ih s 0.003 0.006 (draws (cp ++ cy) ++ rest)
           = Ok (s', rest) ∧
           length (by_role s' r) = 1%nat) ∧
  ((∀ p, on_grid (grid_size s) p → is_zero (cell_at (grid s) p) = false) →
   ∀ tape s' tape', generate_new_agents ih s 0.003 0.006 tape ≠ Ok (s', tape')).
Proof.
  intros (Hd1 & Hd2 & _) Hal Hz Hcap.
  assert (Hone : ∀ tape s' tape',
            generate_new_agents ih s 0.003 0.006 tape = Ok (s', tape') →
            length (by_role s' r) = 1%nat).
  { intros tape s' tape' H.
    destruct (role_growth ih s _ _ tape s' tape' r Hal H) as [_ Hgrow].
    rewrite Hz in Hgrow. simpl in Hgrow. destruct (Hgrow Hcap) as (c & Hc & Hl).
    assert (c = 0) as ->.
    { destruct r; vm_compute in Hc; by simplify_eq. }
    simpl in Hl. lia. }
  split; [done |]. split.
  - intros kp ky cp cy rest Hkp Hky Hlp Hly Hnd Hall.
    destruct (generate_total ih s _ _ kp ky cp cy rest Hd1 Hd2 Hkp Hky Hlp Hly Hnd Hall)
      as (s' & Hs').
    exists s'. split; [done |]. by eapply Hone.
  - intros Hfull tape s' tape' H.
    pose proof (Hone _ _ _ H) as Hl.
    apply generate_new_agents_extends in H as (new & He & _).
    destruct He as (Ha & _ & _ & _ & _ & Ho & _ & _ & Hnew).
    destruct new as [|h new].
    + rewrite app_nil_r in Ha. unfold by_role in Hl, Hz. rewrite Ha in Hl.
      rewrite (filter_ext_in _ (fun h => role (objs s h) = r)) in Hl.
      * by rewrite Hz in Hl.
      * unfold allocated in Hal. rewrite Forall_forall in Hal.
        intros h Hh. by rewrite Ho by (by apply Hal).
    + apply Forall_cons in Hnew as [(_ & (r1 & r2 & Hp) & He & _) _].
      assert (Hzero : is_zero (cell_at (grid s) (position (objs s' h))) = false).
      { apply Hfull. rewrite Hp. unfold on_grid, sample_pos. simpl.
        split; apply Z.mod_pos_bound; done. }
      by rewrite He in Hzero.
Qed.

(** With no prey alive, the spawn phase of [extinct_env] returns on the
    draws of the cells [(0, 0)] and [(1, 1)] and adds one prey. *)
Lemma extinct_role_respawns_witness :
  ∃ s', generate_new_agents 1 extinct_env 0.003 0.006 [0; 0; 1; 1]%nat = Ok (s', []) ∧
        length (by_role s' prey) = 1%nat.
Proof.
  assert (Hwf : well_formed extinct_env).
  { unfold well_formed; simpl. repeat split; (lia || constructor). }
  assert (Hal : allocated extinct_env) by constructor.
  assert (Hcap : 0 < cap extinct_env prey) by reflexivity.
  refine (proj1 (proj2 (extinct_role_respawns 1 extinct_env prey Hwf Hal eq_refl Hcap))
            1 1 [(0, 0)]%nat [(1, 1)]%nat [] _ _ eq_refl eq_refl _ _).
  - vm_compute. reflexivity.
  - vm_compute. reflexivity.
  - apply (bool_decide_unpack _). vm_compute. exact I.
  - repeat constructor.
Defined.
